(** * SEG-D parser: a shallow embedding of [decoder.py] and [segd_parser.py]

    The development follows the two Python modules of the repository:

    - [Decoder]    the byte-to-value primitives of [decoder.py];
    - [SegDParser] the block readers and [read_segd] of [segd_parser.py],
      written as state-passing code over the parser object (the byte
      stream, the captured header block and the per-trace captures).

    Python exceptions are values of [exn]; a computation that may raise
    returns a [result].  The code base is Python 3 (it uses f-strings), so
    [PY2] is false throughout: a [bytes] object is a sequence of integers
    in 0..255, modelled as [list byte]. *)

From Stdlib Require Import ZArith QArith Qround Qpower Lia Lqa.
From Stdlib.Strings Require Import Byte.
From stdpp Require Import base option list strings gmap.

Open Scope Z_scope.

Set Warnings "-clear-no-such-hyp".

(* ================================================================== *)
(** ** Exceptions and results *)
(* ================================================================== *)

(** The exceptions the two modules can raise: the two classes declared in
    [segd_parser.py], and the built-in ones raised by the interpreter and by
    [struct.unpack]. *)
Inductive exn : Type :=
| SEGDNotImplemented
| SEGDScanTypeError
| ValueError
| TypeError
| IndexError
| KeyError
| AttributeError
| ZeroDivisionError
| StructError.

Inductive result (A : Type) : Type :=
| Ok (a : A)
| Raise (e : exn).
Arguments Ok {A} a.
Arguments Raise {A} e.

#[global] Instance result_ret : MRet result := @Ok.
#[global] Instance result_bind : MBind result :=
  fun A B f m => match m with Ok a => f a | Raise e => Raise e end.

Definition is_ok {A} (r : result A) : bool :=
  match r with Ok _ => true | Raise _ => false end.

(* ================================================================== *)
(** ** Bytes *)
(* ================================================================== *)

(** [ord] of one element of a [bytes] object. *)
Definition byte_val (b : byte) : Z := Z.of_N (Byte.to_N b).

(** [buf[a:b]] for non-negative literal bounds: never raises, clips. *)
Definition slice {A} (a b : nat) (buf : list A) : list A :=
  take (b - a) (drop a buf).

(** [buf[i]]: raises [IndexError] out of range. *)
Definition index (i : nat) (buf : list byte) : result Z :=
  match buf !! i with
  | Some b => Ok (byte_val b)
  | None => Raise IndexError
  end.

(** Big-endian unsigned value of a byte string. *)
Definition be_uint (l : list byte) : Z :=
  fold_left (fun acc b => acc * 256 + byte_val b) l 0.

(** [struct.unpack('>I', b)[0]], [struct.unpack('>f', b)[0]] and
    [struct.unpack('>d', b)[0]]: the buffer must have exactly the size of
    the format.  Floats are kept as their IEEE-754 bit patterns. *)
Definition unpack_I (b : list byte) : result Z :=
  if (length b =? 4)%nat then Ok (be_uint b) else Raise StructError.
Definition unpack_f (b : list byte) : result Z :=
  if (length b =? 4)%nat then Ok (be_uint b) else Raise StructError.
Definition unpack_d (b : list byte) : result Z :=
  if (length b =? 8)%nat then Ok (be_uint b) else Raise StructError.

(** [enumerate(l, start)] *)
Fixpoint enumerate {A} (l : list A) (start : Z) : list (Z * A) :=
  match l with
  | [] => []
  | x :: l' => (start, x) :: enumerate l' (start + 1)
  end.

(* ================================================================== *)
(** ** Python floats *)
(* ================================================================== *)

Module PyFloat.

(** A finite binary64 number [fm * 2 ^ fe].  The representation is not
    normalised; two floats are compared by value ([F2Q], [fleb]). *)
Record float : Type := mkF { fm : Z; fe : Z }.

Definition F2Q (x : float) : Q := inject_Z (fm x) * Qpower 2 (fe x).

(** [m / 2^sh] rounded to the nearest integer, ties to even ([0 <= m],
    [0 < sh]). *)
Definition rne (m sh : Z) : Z :=
  let q := Z.shiftr m sh in
  let r := Z.land m (Z.ones sh) in
  let half := 2 ^ (sh - 1) in
  if r <? half then q
  else if half <? r then q + 1
  else if Z.even q then q else q + 1.

(** Rounding of the exact value [m * 2^e], [0 <= m], to binary64: 53
    significant bits, and no bit below [2^-1074].  Overflow does not
    arise from the bounded integers this program converts. *)
Definition rnd_pos (m e : Z) : float :=
  let e' := Z.max (e + Z.log2 m - 52) (-1074) in
  if e' <=? e then mkF m e else mkF (rne m (e' - e)) e'.

Definition rnd (m e : Z) : float :=
  if m <? 0 then let r := rnd_pos (- m) e in mkF (- fm r) (fe r)
  else rnd_pos m e.

(** [float(z)] *)
Definition of_int (z : Z) : float := rnd z 0.

Definition fadd (x y : float) : float :=
  let e := Z.min (fe x) (fe y) in
  rnd (fm x * 2 ^ (fe x - e) + fm y * 2 ^ (fe y - e)) e.

Definition fmul (x y : float) : float := rnd (fm x * fm y) (fe x + fe y).

(** [x / y]: the quotient is computed with two guard bits and a sticky
    bit below the 53 that are kept, then rounded once. *)
Definition fquot (x y : float) : float :=
  let a := Z.abs (fm x) in
  let b := Z.abs (fm y) in
  let k := Z.max 0 (Z.log2 b - Z.log2 a + 55) in
  let q := (a * 2 ^ k) / b in
  let sticky := if (a * 2 ^ k) mod b =? 0 then 0 else 1 in
  let r := rnd_pos (2 * q + sticky) (fe x - fe y - k - 1) in
  mkF (Z.sgn (fm x) * Z.sgn (fm y) * fm r) (fe r).

Definition fdiv (x y : float) : result float :=
  if fm y =? 0 then Raise ZeroDivisionError else Ok (fquot x y).

(** [x <= y] *)
Definition fleb (x y : float) : bool :=
  let e := Z.min (fe x) (fe y) in
  fm x * 2 ^ (fe x - e) <=? fm y * 2 ^ (fe y - e).

(** [2 ** -n] for a positive integer [n]: Python computes the power in
    floating point; it underflows to [0.0] below the least subnormal. *)
Definition pow2_neg (n : Z) : float :=
  if 1074 <? n then mkF 0 0 else mkF 1 (- n).

(** A Python number: [int] or [float]. *)
Inductive num : Type :=
| NInt (z : Z)
| NFloat (f : float).

Definition to_float (n : num) : float :=
  match n with NInt z => of_int z | NFloat f => f end.

Definition num_add (a b : num) : num :=
  match a, b with
  | NInt x, NInt y => NInt (x + y)
  | _, _ => NFloat (fadd (to_float a) (to_float b))
  end.

Definition num_mul (a b : num) : num :=
  match a, b with
  | NInt x, NInt y => NInt (x * y)
  | _, _ => NFloat (fmul (to_float a) (to_float b))
  end.

(** True division [a / b], always a float. *)
Definition num_div (a b : num) : result num :=
  f ← fdiv (to_float a) (to_float b); mret (NFloat f).

Definition num_geb (a b : num) : bool :=
  match a, b with
  | NInt x, NInt y => y <=? x
  | _, _ => fleb (to_float b) (to_float a)
  end.

Definition num2Q (a : num) : Q :=
  match a with NInt z => inject_Z z | NFloat f => F2Q f end.

(** [sum(l)], with the start value [0] *)
Definition sum (l : list num) : num := fold_left num_add l (NInt 0).

End PyFloat.

(** IEEE-754 binary32 values as produced by [struct.unpack('>f', _)] and
    by [array('f')], kept as their 32-bit patterns. *)
Module F32.

Definition sign (bits : Z) : bool := Z.testbit bits 31.
Definition exponent (bits : Z) : Z := Z.land (Z.shiftr bits 23) 255.
Definition mantissa (bits : Z) : Z := Z.land bits (Z.ones 23).

(** [math.isnan] *)
Definition isnan (bits : Z) : bool :=
  (exponent bits =? 255) && negb (mantissa bits =? 0).

(** The number a finite pattern denotes; [None] for infinities and NaN. *)
Definition to_Q (bits : Z) : option Q :=
  let s := if sign bits then (-1) else 1 in
  let e := exponent bits in
  let m := mantissa bits in
  if e =? 255 then None
  else if e =? 0 then Some (Qmult (inject_Z (s * m)) (Qpower 2 (-149)))
  else Some (Qmult (inject_Z (s * (2 ^ 23 + m))) (Qpower 2 (e - 150))).

End F32.

(** The two [numpy] operations [read_segd] applies to a sample array. *)
Module Numpy.

(** [np.mod(x, 1) == 0] for one binary32 sample: the remainder of an
    infinity or a NaN is NaN, which is not equal to zero; the remainder
    of a finite [x] is zero exactly when [x - floor x] is. *)
Definition mod_1_eq_0 (bits : Z) : bool :=
  match F32.to_Q bits with
  | None => false
  | Some q => Qeq_bool (q - inject_Z (Qfloor q)) 0
  end.

(** [np.all] *)
Definition all (l : list bool) : bool := forallb id l.

(** [np.zeros((rows, cols))]; [0] is the pattern of [+0.0]. *)
Definition zeros (rows cols : nat) : list (list Z) :=
  repeat (repeat 0 cols) rows.

(** [m[i, :] = arr] on a matrix of [cols] columns: [arr] must have [cols]
    items, or one, which is then broadcast. *)
Definition setitem_row (m : list (list Z)) (cols i : nat) (arr : list Z)
  : result (list (list Z)) :=
  if (i <? length m)%nat then
    if (length arr =? cols)%nat then Ok (<[i := arr]> m)
    else
      match arr with
      | [x] => Ok (<[i := repeat x cols]> m)
      | _ => Raise ValueError
      end
  else Raise IndexError.

End Numpy.

(* ================================================================== *)
(** ** decoder.py *)
(* ================================================================== *)

Module Decoder.
Import PyFloat.

(** [Decoder.bcd]: the argument is an [int] here (an element of a
    [bytes] object), so only the [byte > 255] test can raise. *)
Definition bcd (byte : Z) : result (Z * Z) :=
  if 255 <? byte then Raise ValueError
  else
    let v1 := Z.shiftr byte 4 in
    let v2 := Z.land byte 15 in
    Ok (v1, v2).

(** The [for byte in bytes_in] loop of [decode_bcd], on the pair of
    locals [(v, n)]. *)
Fixpoint decode_bcd_loop (bytes_in : list byte) (v n : Z) : result Z :=
  match bytes_in with
  | [] => Ok v
  | byte :: rest =>
      '(v1, v2) ← bcd (byte_val byte);
      decode_bcd_loop rest (v + (v1 * 10 ^ n + v2 * 10 ^ (n - 1))) (n - 2)
  end.

Definition decode_bcd (bytes_in : list byte) : result Z :=
  let v := 0 in
  let n := Z.of_nat (length bytes_in) in
  let n := n * 2 - 1 in
  decode_bcd_loop bytes_in v n.

(** [decode_bcd] applied to an [int]: [bytes_in = bytes([bytes_in])]. *)
Definition decode_bcd_int (b : byte) : result Z := decode_bcd [b].

Definition decode_bin (bytes_in : list byte) : result Z :=
  let ll := length bytes_in in
  let b := repeat x00 (4 - ll) ++ bytes_in in
  unpack_I b.

Definition decode_bin_bool (bytes_in : list byte) : result bool :=
  b ← decode_bin bytes_in; mret (0 <? b).

(** ['{:08b}'.format(b)], most significant bit first; a character is
    kept as the digit [int(x)] reads from it. *)
Definition format_08b (b : byte) : list Z :=
  map (fun i => Z.b2z (Z.testbit (byte_val b) i)) [7; 6; 5; 4; 3; 2; 1; 0].

Definition decode_fraction (bytes_in : list byte) : num :=
  let bit := flat_map format_08b bytes_in in
  sum (map (fun '(n, x) => num_mul (NInt x) (NFloat (pow2_neg n)))
           (enumerate bit 1)).

(** Returns [None] for a NaN. *)
Definition decode_flt (bytes_in : list byte) : result (option Z) :=
  let ll := length bytes_in in
  let b := repeat x00 (4 - ll) ++ bytes_in in
  f ← unpack_f b;
  mret (if F32.isnan f then None else Some f).

Definition decode_dbl (bytes_in : list byte) : result Z :=
  unpack_d bytes_in.

(** [string.printable]: digits, lower case, upper case, punctuation,
    white space, as code points. *)
Definition string_printable : list Z :=
  [48; 49; 50; 51; 52; 53; 54; 55; 56; 57;
   97; 98; 99; 100; 101; 102; 103; 104; 105; 106; 107; 108; 109;
   110; 111; 112; 113; 114; 115; 116; 117; 118; 119; 120; 121; 122;
   65; 66; 67; 68; 69; 70; 71; 72; 73; 74; 75; 76; 77;
   78; 79; 80; 81; 82; 83; 84; 85; 86; 87; 88; 89; 90;
   33; 34; 35; 36; 37; 38; 39; 40; 41; 42; 43; 44; 45; 46; 47;
   58; 59; 60; 61; 62; 63; 64; 91; 92; 93; 94; 95; 96;
   123; 124; 125; 126;
   32; 9; 10; 13; 11; 12].

(** [x in printable] where [printable] is the iterator [map(ord, ...)]
    of Python 3: the test consumes the iterator up to and including the
    first match, or entirely when there is none. *)
Fixpoint iter_contains (x : Z) (it : list Z) : bool * list Z :=
  match it with
  | [] => (false, [])
  | y :: it' => if y =? x then (true, it') else iter_contains x it'
  end.

Fixpoint decode_asc_loop (bytes_ord : list byte) (printable : list Z)
  : list byte :=
  match bytes_ord with
  | [] => []
  | x :: rest =>
      let '(found, printable') := iter_contains (byte_val x) printable in
      if found then x :: decode_asc_loop rest printable'
      else decode_asc_loop rest printable'
  end.

(** Returns [None] when nothing is kept. *)
Definition decode_asc (bytes_in : list byte) : option string :=
  let s := decode_asc_loop bytes_in string_printable in
  match s with
  | [] => None
  | _ => Some (String.string_of_list_byte s)
  end.

Definition band_code (sample_rate : num) : option string :=
  if num_geb sample_rate (NInt 1000) then Some "G"%string
  else if num_geb sample_rate (NInt 250) then Some "D"%string
  else if num_geb sample_rate (NInt 80) then Some "E"%string
  else if num_geb sample_rate (NInt 10) then Some "S"%string
  else None.

End Decoder.

(* ================================================================== *)
(** ** Header records *)
(* ================================================================== *)

(** The values the header dictionaries hold. *)
#[warnings="-register-all"]
Inductive value : Type :=
| VNone
| VInt (z : Z)
| VFloat (f : PyFloat.float)
| VBool (b : bool)
| VF32 (bits : Z)
| VF64 (bits : Z)
| VStr (s : string)
| VList (l : list value)
| VTime (year julday hour minute second : Z).

Definition of_num (n : PyFloat.num) : value :=
  match n with PyFloat.NInt z => VInt z | PyFloat.NFloat f => VFloat f end.

Definition of_flt (o : option Z) : value :=
  match o with Some bits => VF32 bits | None => VNone end.

Definition of_asc (o : option string) : value :=
  match o with Some s => VStr s | None => VNone end.

(** An [OrderedDict]: keys in insertion order, no key twice. *)
Definition odict : Type := list (string * value).

(** [d[k] = v]: an existing key keeps its place. *)
Fixpoint od_set (k : string) (v : value) (d : odict) : odict :=
  match d with
  | [] => [(k, v)]
  | (k', v') :: d' =>
      if String.eqb k' k then (k, v) :: d' else (k', v') :: od_set k v d'
  end.

(** [d.update(d2)] *)
Definition od_update (d d2 : odict) : odict :=
  fold_left (fun acc kv => od_set (fst kv) (snd kv) acc) d2 d.

Fixpoint od_get (k : string) (d : odict) : option value :=
  match d with
  | [] => None
  | (k', v') :: d' => if String.eqb k' k then Some v' else od_get k d'
  end.

Definition od_keys (d : odict) : list string := map fst d.

(** [d[k]] *)
Definition getitem (d : odict) (k : string) : result value :=
  match od_get k d with Some v => Ok v | None => Raise KeyError end.

(** The integer an operand of [*] or an argument of [range] stands for. *)
Definition as_int (v : value) : result Z :=
  match v with
  | VInt z => Ok z
  | VBool b => Ok (Z.b2z b)
  | _ => Raise TypeError
  end.

(** [v == z] for an integer literal [z] *)
Definition eq_int (v : value) (z : Z) : bool :=
  match v with
  | VInt x => x =? z
  | VBool b => Z.b2z b =? z
  | VFloat f => PyFloat.fleb f (PyFloat.of_int z) && PyFloat.fleb (PyFloat.of_int z) f
  | _ => false
  end.

(* ================================================================== *)
(** ** segd_parser.py *)
(* ================================================================== *)

Module SegDParser.
Import PyFloat Decoder.

(** The open file: the bytes not yet read, and whether [close] was
    called. *)
Record stream : Type := mkStream {
  unread : list byte;
  closed : bool
}.

(** One [Trace] of the [Stream] the decode builds: the sample array
    (binary32 patterns) and the [stats] entries [read_segd] assigns. *)
Record trace : Type := mkTrace {
  data : list Z;
  stats_channel : option string;
  stats_delta : num;
  stats_starttime : value;
  stats_segd : odict
}.

(** The attributes of a [SegDParser] object.  [_byte_stream] and
    [traces_data] do not exist before [read_segd] sets them. *)
Record parser : Type := mkParser {
  byte_stream : option stream;
  header_block : list byte;
  traceh_list : list (list byte);
  traces_data : option (list (list Z))
}.

(** [__init__] *)
Definition init : parser :=
  {| byte_stream := None; header_block := []; traceh_list := [];
     traces_data := None |}.

(** A method: it may change the object and may raise; the changes made
    before an exception stay. *)
Definition M (A : Type) : Type := parser → result A * parser.

#[global] Instance M_ret : MRet M := fun A a p => (Ok a, p).
#[global] Instance M_bind : MBind M := fun A B f m p =>
  match m p with
  | (Ok a, p') => f a p'
  | (Raise e, p') => (Raise e, p')
  end.

Definition lift {A} (r : result A) : M A := fun p => (r, p).

(** [self._byte_stream = open(self._filepath, 'rb')], for a file holding
    [file]. *)
Definition open (file : list byte) : M () := fun p =>
  (Ok (), {| byte_stream := Some (mkStream file false);
             header_block := header_block p;
             traceh_list := traceh_list p;
             traces_data := traces_data p |}).

(** [self._byte_stream.read(size)]: up to [size] bytes, fewer at the end
    of the file. *)
Definition read (size : Z) : M (list byte) := fun p =>
  match byte_stream p with
  | None => (Raise AttributeError, p)
  | Some s =>
      if closed s then (Raise ValueError, p)
      else
        let n := if size <? 0 then length (unread s) else Z.to_nat size in
        (Ok (take n (unread s)),
         {| byte_stream := Some (mkStream (drop n (unread s)) false);
            header_block := header_block p;
            traceh_list := traceh_list p;
            traces_data := traces_data p |})
  end.

(** [self._byte_stream.close()] *)
Definition close : M () := fun p =>
  match byte_stream p with
  | None => (Raise AttributeError, p)
  | Some s =>
      (Ok (), {| byte_stream := Some (mkStream (unread s) true);
                 header_block := header_block p;
                 traceh_list := traceh_list p;
                 traces_data := traces_data p |})
  end.

(** [self.header_block.extend(bytearray(buf))] *)
Definition header_block_extend (buf : list byte) : M () := fun p =>
  (Ok (), {| byte_stream := byte_stream p;
             header_block := header_block p ++ buf;
             traceh_list := traceh_list p;
             traces_data := traces_data p |}).

(** [self.traceh_list.append(bytearray(buf))] *)
Definition traceh_list_append (buf : list byte) : M () := fun p =>
  (Ok (), {| byte_stream := byte_stream p;
             header_block := header_block p;
             traceh_list := traceh_list p ++ [buf];
             traces_data := traces_data p |}).

(** [self.traceh_list[-1].extend(bytearray(buf))] *)
Definition traceh_list_extend_last (buf : list byte) : M () := fun p =>
  match last (traceh_list p) with
  | None => (Raise IndexError, p)
  | Some l =>
      (Ok (), {| byte_stream := byte_stream p;
                 header_block := header_block p;
                 traceh_list := removelast (traceh_list p) ++ [l ++ buf];
                 traces_data := traces_data p |})
  end.

(** [self.traces_data = m] *)
Definition set_traces_data (m : list (list Z)) : M () := fun p =>
  (Ok (), {| byte_stream := byte_stream p;
             header_block := header_block p;
             traceh_list := traceh_list p;
             traces_data := Some m |}).

(** [self.traces_data[i, :] = arr], on a matrix of [cols] columns: the
    matrix of the object is updated in place. *)
Definition traces_data_setitem (cols i : nat) (arr : list Z) : M () := fun p =>
  match traces_data p with
  | None => (Raise AttributeError, p)
  | Some m =>
      match Numpy.setitem_row m cols i arr with
      | Ok m' => (Ok (), {| byte_stream := byte_stream p;
                            header_block := header_block p;
                            traceh_list := traceh_list p;
                            traces_data := Some m' |})
      | Raise e => (Raise e, p)
      end
  end.

(** [ord(b)] for a [bytes] object [b] *)
Definition ord (b : list byte) : result Z :=
  match b with
  | [x] => Ok (byte_val x)
  | _ => Raise TypeError
  end.

Definition f1 : float := mkF 1 0.
Definition f10 : float := mkF 10 0.
Definition f100 : float := mkF 100 0.
Definition f1e6 : float := mkF 1000000 0.

Section Readers.

(** [obspy.UTCDateTime] is an external collaborator: whether its
    constructor accepts [year], [julday], [hour], [minute], [second]
    is a parameter of the model. *)
Variable utc_valid : Z → Z → Z → Z → Z → bool.

Definition UTCDateTime (year julday hour minute second : Z)
  : result value :=
  if utc_valid year julday hour minute second
  then Ok (VTime year julday hour minute second)
  else Raise ValueError.

(** The field decoding of [_read_general_hdr1], after the read. *)
Definition decode_general_hdr1 (buf : list byte) : result odict :=
  file_number ← decode_bcd (slice 0 2 buf);
  _format_code ← decode_bcd (slice 2 4 buf);
  if negb (_format_code =? 8058) then Raise SEGDNotImplemented
  else
    format_code ← decode_bcd (slice 2 4 buf);
    general_constants ← mapM decode_bcd_int (slice 4 10 buf);
    _year ← decode_bcd (slice 10 11 buf);
    let _year := _year + 2000 in
    b11 ← index 11 buf;
    '(_nblocks, _jday) ← bcd b11;
    let _jday := _jday * 100 in
    d12 ← decode_bcd (slice 12 13 buf);
    let _jday := _jday + d12 in
    _hour ← decode_bcd (slice 13 14 buf);
    _min ← decode_bcd (slice 14 15 buf);
    _sec ← decode_bcd (slice 15 16 buf);
    time ← UTCDateTime _year _jday _hour _min _sec;
    manufacture_code ← decode_bcd (slice 16 17 buf);
    manufacture_serial_number ← decode_bcd (slice 17 19 buf);
    bytes_per_scan ← decode_bcd (slice 19 22 buf);
    _bsi ← decode_bcd (slice 22 23 buf);
    _bsi ← (if _bsi <? 10 then num_div (NFloat f1) (NInt _bsi)
            else num_div (NInt _bsi) (NFloat f10));
    b23 ← index 23 buf;
    '(_pol, _) ← bcd b23;
    b25 ← index 25 buf;
    '(_rec_type, _rec_len) ← bcd b25;
    let _rec_len := 256 * _rec_len in
    d26 ← decode_bin (slice 26 27 buf);
    let _rec_len := _rec_len + d26 in
    let _rec_len := if _rec_len =? 4095 then VNone else VInt _rec_len in
    scan_type_per_record ← decode_bcd (slice 27 28 buf);
    n_channel_sets_per_record ← decode_bcd (slice 28 29 buf);
    n_sample_skew_32bit_extensions ← decode_bcd (slice 29 30 buf);
    extended_header_length ← decode_bcd (slice 30 31 buf);
    _ehl ← decode_bcd (slice 31 32 buf);
    let _ehl := if _ehl =? 255 then VNone else VInt _ehl in
    mret [("file_number", VInt file_number);
          ("format_code", VInt format_code);
          ("general_constants", VList (map VInt general_constants));
          ("n_additional_blocks", VInt _nblocks);
          ("time", time);
          ("manufacture_code", VInt manufacture_code);
          ("manufacture_serial_number", VInt manufacture_serial_number);
          ("bytes_per_scan", VInt bytes_per_scan);
          ("base_scan_interval_in_ms", of_num _bsi);
          ("polarity", VInt _pol);
          ("record_length", _rec_len);
          ("scan_type_per_record", VInt scan_type_per_record);
          ("n_channel_sets_per_record", VInt n_channel_sets_per_record);
          ("n_sample_skew_32bit_extensions",
            VInt n_sample_skew_32bit_extensions);
          ("extended_header_length", VInt extended_header_length);
          ("external_header_length", _ehl)]%string.

Definition _read_general_hdr1 : M odict :=
  buf ← read 32;
  header_block_extend buf;;
  lift (decode_general_hdr1 buf).

Definition decode_general_hdr2 (buf : list byte) : result odict :=
  expanded_file_number ← decode_bin (slice 0 3 buf);
  external_header_blocks ← decode_bin (slice 7 9 buf);
  _rev ← ord (slice 10 11 buf);
  o11 ← ord (slice 11 12 buf);
  q ← num_div (NInt o11) (NFloat f10);
  let _rev := num_add (NInt _rev) q in
  no_blocks_of_general_trailer ← decode_bin (slice 12 14 buf);
  extended_record_length_in_ms ← decode_bin (slice 14 17 buf);
  general_header_block_number ← decode_bin (slice 18 19 buf);
  mret [("expanded_file_number", VInt expanded_file_number);
        ("external_header_blocks", VInt external_header_blocks);
        ("segd_revision_number", of_num _rev);
        ("no_blocks_of_general_trailer",
          VInt no_blocks_of_general_trailer);
        ("extended_record_length_in_ms",
          VInt extended_record_length_in_ms);
        ("general_header_block_number",
          VInt general_header_block_number)]%string.

Definition _read_general_hdr2 : M odict :=
  buf ← read 32;
  header_block_extend buf;;
  lift (decode_general_hdr2 buf).

Definition decode_general_hdr3 (buf : list byte) : result odict :=
  expanded_file_number ← decode_bin (slice 0 3 buf);
  _sln ← decode_bin (slice 3 6 buf);
  let _sln := num_add (NInt _sln) (decode_fraction (slice 6 8 buf)) in
  _spn ← decode_bin (slice 8 11 buf);
  let _spn := num_add (NInt _spn) (decode_fraction (slice 11 13 buf)) in
  phase_control ← decode_bin (slice 14 15 buf);
  vibrator_type ← decode_bin (slice 15 16 buf);
  phase_angle ← decode_bin (slice 16 18 buf);
  general_header_block_number ← decode_bin (slice 18 19 buf);
  source_set_number ← decode_bin (slice 19 20 buf);
  mret [("expanded_file_number", VInt expanded_file_number);
        ("source_line_number", of_num _sln);
        ("source_point_number", of_num _spn);
        ("phase_control", VInt phase_control);
        ("vibrator_type", VInt vibrator_type);
        ("phase_angle", VInt phase_angle);
        ("general_header_block_number",
          VInt general_header_block_number);
        ("source_set_number", VInt source_set_number)]%string.

Definition _read_general_hdr3 : M odict :=
  buf ← read 32;
  header_block_extend buf;;
  lift (decode_general_hdr3 buf).

(** [sum(buf)] *)
Definition bytes_sum (buf : list byte) : Z :=
  fold_left (fun acc b => acc + byte_val b) buf 0.

Definition decode_sch (buf : list byte) : result odict :=
  let _sum := bytes_sum buf in
  if _sum =? 0 then Raise SEGDScanTypeError
  else
    scan_type_header ← decode_bcd (slice 0 1 buf);
    channel_set_number ← decode_bcd (slice 1 2 buf);
    channel_set_starting_time ← decode_bin (slice 2 4 buf);
    channel_set_end_time ← decode_bin (slice 4 6 buf);
    _dm ← decode_bin (rev (slice 6 8 buf));
    number_of_channels ← decode_bcd (slice 8 10 buf);
    b10 ← index 10 buf;
    '(_ctid, _) ← bcd b10;
    b11 ← index 11 buf;
    '(_nse, _cgcm) ← bcd b11;
    alias_filter_freq ← decode_bcd (slice 12 14 buf);
    alias_filter_slope ← decode_bcd (slice 14 16 buf);
    low_cut_filter_freq ← decode_bcd (slice 16 18 buf);
    low_cut_filter_slope ← decode_bcd (slice 18 20 buf);
    first_notch_freq ← decode_bcd (slice 20 22 buf);
    second_notch_freq ← decode_bcd (slice 22 24 buf);
    third_notch_freq ← decode_bcd (slice 24 26 buf);
    extended_channel_set_number ← decode_bcd (slice 26 28 buf);
    b28 ← index 28 buf;
    '(_ehf, _the) ← bcd b28;
    vertical_stack ← decode_bin (slice 29 30 buf);
    streamer_cable_number ← decode_bin (slice 30 31 buf);
    array_forming ← decode_bin (slice 31 32 buf);
    mret [("scan_type_header", VInt scan_type_header);
          ("channel_set_number", VInt channel_set_number);
          ("channel_set_starting_time", VInt channel_set_starting_time);
          ("channel_set_end_time", VInt channel_set_end_time);
          ("number_of_channels", VInt number_of_channels);
          ("channel_type_id", VInt _ctid);
          ("number_of_subscans_exponent", VInt _nse);
          ("channel_gain_control_method", VInt _cgcm);
          ("alias_filter_freq_at_-3dB_in_Hz", VInt alias_filter_freq);
          ("alias_filter_slope_in_dB/octave", VInt alias_filter_slope);
          ("low-cut_filter_freq_in_Hz", VInt low_cut_filter_freq);
          ("low-cut_filter_slope_in_dB/octave",
            VInt low_cut_filter_slope);
          ("first_notch_freq", VInt first_notch_freq);
          ("second_notch_freq", VInt second_notch_freq);
          ("third_notch_freq", VInt third_notch_freq);
          ("extended_channel_set_number",
            VInt extended_channel_set_number);
          ("extended_header_flag", VInt _ehf);
          ("trace_header_extensions", VInt _the);
          ("vertical_stack", VInt vertical_stack);
          ("streamer_cable_number", VInt streamer_cable_number);
          ("array_forming", VInt array_forming)]%string.

Definition _read_sch : M odict :=
  buf ← read 32;
  header_block_extend buf;;
  lift (decode_sch buf).

(** The field decoding of [_read_extended_header] (SERCEL layout). *)
Definition decode_extended_header (buf : list byte) : result odict :=
  acquisition_length_in_ms ← decode_bin (slice 0 4 buf);
  sample_rate_in_us ← decode_bin (slice 4 8 buf);
  total_number_of_traces ← decode_bin (slice 8 12 buf);
  number_of_auxes ← decode_bin (slice 12 16 buf);
  number_of_seis_traces ← decode_bin (slice 16 20 buf);
  number_of_dead_seis_traces ← decode_bin (slice 20 24 buf);
  number_of_live_seis_traces ← decode_bin (slice 24 28 buf);
  _tos ← decode_bin (slice 28 32 buf);
  let num_of_samples_raw := slice 32 36 buf in
  num_of_samples ← decode_bin num_of_samples_raw;
  number_of_samples_in_trace ← decode_bin (slice 32 36 buf);
  shot_number ← decode_bin (slice 36 40 buf);
  TB_window_in_s ← decode_flt (slice 40 44 buf);
  _trt ← decode_bin (slice 44 48 buf);
  spread_first_line ← decode_bin (slice 48 52 buf);
  spread_first_number ← decode_bin (slice 52 56 buf);
  spread_number ← decode_bin (slice 56 60 buf);
  _st ← decode_bin (slice 60 64 buf);
  time_break_in_us ← decode_bin (slice 64 68 buf);
  uphole_time_in_us ← decode_bin (slice 68 72 buf);
  blaster_id ← decode_bin (slice 72 76 buf);
  blaster_status ← decode_bin (slice 76 80 buf);
  refraction_delay_in_ms ← decode_bin (slice 80 84 buf);
  TB_to_T0_time_in_us ← decode_bin (slice 84 88 buf);
  internal_time_break ← decode_bin_bool (slice 88 92 buf);
  prestack_within_field_units ← decode_bin_bool (slice 92 96 buf);
  _net ← decode_bin (slice 96 100 buf);
  low_trace_percentage ← decode_bin (slice 100 104 buf);
  low_trace_value_in_dB ← decode_bin (slice 104 108 buf);
  _value1 ← decode_bin (slice 108 112 buf);
  _value2 ← decode_bin (slice 112 116 buf);
  overlay ←
    (if _net =? 2 then
       mret [("number_of_windows", VInt _value1)]%string
     else if _net =? 3 then
       historic_range ← decode_bin (slice 120 124 buf);
       historic_taper_length_2_exponent ← decode_bin (slice 124 128 buf);
       historic_threshold_init_value ← decode_bin (slice 132 136 buf);
       historic_zeroing_length ← decode_bin (slice 136 140 buf);
       mret [("historic_range", VInt historic_range);
             ("historic_taper_length_2_exponent",
               VInt historic_taper_length_2_exponent);
             ("historic_threshold_init_value",
               VInt historic_threshold_init_value);
             ("historic_zeroing_length",
               VInt historic_zeroing_length)]%string
     else if _net =? 4 then
       mret [("window_length", VInt _value1);
             ("overlap", VInt _value2)]%string
     else mret []);
  noisy_trace_percentage ← decode_bin (slice 116 120 buf);
  _thv ← decode_bin (slice 128 132 buf);
  _top ← decode_bin (slice 140 144 buf);
  acquisition_type_tables ←
    mapM (fun n => decode_bin (slice (144 + n * 4) (144 + (n + 1) * 4) buf))
         (seq 0 32);
  threshold_type_tables ←
    mapM (fun n => decode_bin (slice (272 + n * 4) (272 + (n + 1) * 4) buf))
         (seq 0 32);
  stacking_fold ← decode_bin (slice 400 404 buf);
  record_length_in_ms ← decode_bin (slice 484 488 buf);
  autocorrelation_peak_time_in_ms ← decode_bin (slice 488 492 buf);
  correlation_pilot_number ← decode_bin (slice 496 500 buf);
  pilot_length_in_ms ← decode_bin (slice 500 504 buf);
  sweep_length_in_ms ← decode_bin (slice 504 508 buf);
  acquisition_number ← decode_bin (slice 508 512 buf);
  max_of_max_aux ← decode_flt (slice 512 516 buf);
  max_of_max_seis ← decode_flt (slice 516 520 buf);
  dump_stacking_fold ← decode_bin (slice 520 524 buf);
  let tape_label := decode_asc (slice 524 540 buf) in
  tape_number ← decode_bin (slice 540 544 buf);
  let software_version := decode_asc (slice 544 560 buf) in
  let date := decode_asc (slice 560 572 buf) in
  source_easting ← decode_dbl (slice 572 580 buf);
  source_northing ← decode_dbl (slice 580 588 buf);
  source_elevation ← decode_flt (slice 588 592 buf);
  slip_sweep_mode_used ← decode_bin_bool (slice 592 596 buf);
  files_per_tape ← decode_bin (slice 596 600 buf);
  file_count ← decode_bin (slice 600 604 buf);
  let acquisition_error_description := decode_asc (slice 604 764 buf) in
  _ft ← decode_bin (slice 764 768 buf);
  stack_is_dumped ← decode_bin_bool (slice 768 772 buf);
  _ss ← decode_bin (slice 772 776 buf);
  let _ss := if _ss =? 2 then -1 else _ss in
  PRM_tilt_correction_used ← decode_bin_bool (slice 776 780 buf);
  let swath_name := decode_asc (slice 780 844 buf) in
  _om ← decode_bin (slice 844 848 buf);
  let _op_mode : list value := [] in
  no_log ← decode_bin_bool (slice 852 856 buf);
  listening_time_in_ms ← decode_bin (slice 856 860 buf);
  _tod ← decode_bin (slice 860 864 buf);
  swath_id ← decode_bin (slice 868 872 buf);
  seismic_trace_offset_removal_is_disabled ←
    decode_bin_bool (slice 872 876 buf);
  mret ([("acquisition_length_in_ms", VInt acquisition_length_in_ms);
         ("sample_rate_in_us", VInt sample_rate_in_us);
         ("total_number_of_traces", VInt total_number_of_traces);
         ("number_of_auxes", VInt number_of_auxes);
         ("number_of_seis_traces", VInt number_of_seis_traces);
         ("number_of_dead_seis_traces", VInt number_of_dead_seis_traces);
         ("number_of_live_seis_traces", VInt number_of_live_seis_traces);
         ("number_of_samples_in_trace", VInt number_of_samples_in_trace);
         ("shot_number", VInt shot_number);
         ("TB_window_in_s", of_flt TB_window_in_s);
         ("spread_first_line", VInt spread_first_line);
         ("spread_first_number", VInt spread_first_number);
         ("spread_number", VInt spread_number);
         ("time_break_in_us", VInt time_break_in_us);
         ("uphole_time_in_us", VInt uphole_time_in_us);
         ("blaster_id", VInt blaster_id);
         ("blaster_status", VInt blaster_status);
         ("refraction_delay_in_ms", VInt refraction_delay_in_ms);
         ("TB_to_T0_time_in_us", VInt TB_to_T0_time_in_us);
         ("internal_time_break", VBool internal_time_break);
         ("prestack_within_field_units",
           VBool prestack_within_field_units);
         ("low_trace_percentage", VInt low_trace_percentage);
         ("low_trace_value_in_dB", VInt low_trace_value_in_dB)]%string
        ++ overlay ++
        [("noisy_trace_percentage", VInt noisy_trace_percentage);
         ("acquisition_type_tables",
           VList (map VInt acquisition_type_tables));
         ("threshold_type_tables",
           VList (map VInt threshold_type_tables));
         ("stacking_fold", VInt stacking_fold);
         ("record_length_in_ms", VInt record_length_in_ms);
         ("autocorrelation_peak_time_in_ms",
           VInt autocorrelation_peak_time_in_ms);
         ("correlation_pilot_number", VInt correlation_pilot_number);
         ("pilot_length_in_ms", VInt pilot_length_in_ms);
         ("sweep_length_in_ms", VInt sweep_length_in_ms);
         ("acquisition_number", VInt acquisition_number);
         ("max_of_max_aux", of_flt max_of_max_aux);
         ("max_of_max_seis", of_flt max_of_max_seis);
         ("dump_stacking_fold", VInt dump_stacking_fold);
         ("tape_label", of_asc tape_label);
         ("tape_number", VInt tape_number);
         ("software_version", of_asc software_version);
         ("date", of_asc date);
         ("source_easting", VF64 source_easting);
         ("source_northing", VF64 source_northing);
         ("source_elevation", of_flt source_elevation);
         ("slip_sweep_mode_used", VBool slip_sweep_mode_used);
         ("files_per_tape", VInt files_per_tape);
         ("file_count", VInt file_count);
         ("acquisition_error_description",
           of_asc acquisition_error_description);
         ("stack_is_dumped", VBool stack_is_dumped);
         ("stack_sign", VInt _ss);
         ("PRM_tilt_correction_used", VBool PRM_tilt_correction_used);
         ("swath_name", of_asc swath_name);
         ("operating_mode", VList _op_mode);
         ("no_log", VBool no_log);
         ("listening_time_in_ms", VInt listening_time_in_ms);
         ("swath_id", VInt swath_id);
         ("seismic_trace_offset_removal_is_disabled",
           VBool seismic_trace_offset_removal_is_disabled)]%string).

Definition _read_extended_header (size : Z) : M odict :=
  buf ← read size;
  header_block_extend buf;;
  lift (decode_extended_header buf).

Definition _read_external_header (size : Z) : M value :=
  buf ← read size;
  header_block_extend buf;;
  mret (of_asc (decode_asc buf)).

Definition decode_traceh (buf : list byte) : result odict :=
  _fn ← decode_bcd (slice 0 2 buf);
  let _fn := if _fn =? 65535 then VNone else VInt _fn in
  scan_type_number ← decode_bcd (slice 2 3 buf);
  channel_set_number ← decode_bcd (slice 3 4 buf);
  trace_number ← decode_bcd (slice 4 6 buf);
  ftw ← decode_bin (slice 6 9 buf);
  first_timing_word_in_ms ←
    num_div (num_mul (NInt ftw) (NFloat f1)) (NInt 256);
  trace_header_extension ← decode_bin (slice 9 10 buf);
  sample_skew ← decode_bin (slice 10 11 buf);
  trace_edit ← decode_bin (slice 11 12 buf);
  time_break_window ← decode_bin (slice 12 14 buf);
  tbw ← decode_bin (slice 14 15 buf);
  q ← num_div (NInt tbw) (NFloat f100);
  let time_break_window := num_add (NInt time_break_window) q in
  extended_channel_set_number ← decode_bin (slice 15 16 buf);
  extended_file_number ← decode_bin (slice 17 20 buf);
  mret [("file_number", _fn);
        ("scan_type_number", VInt scan_type_number);
        ("channel_set_number", VInt channel_set_number);
        ("trace_number", VInt trace_number);
        ("first_timing_word_in_ms", of_num first_timing_word_in_ms);
        ("trace_header_extension", VInt trace_header_extension);
        ("sample_skew", VInt sample_skew);
        ("trace_edit", VInt trace_edit);
        ("time_break_window", of_num time_break_window);
        ("extended_channel_set_number",
          VInt extended_channel_set_number);
        ("extended_file_number", VInt extended_file_number)]%string.

Definition _read_traceh : M odict :=
  buf ← read 20;
  traceh_list_append buf;;
  lift (decode_traceh buf).

(** Trace header extension block #1, SEGD standard. *)
Definition decode_traceh_eb1 (buf : list byte) : result odict :=
  _rln ← decode_bin (slice 0 3 buf);
  let _rln := if _rln =? 16777215 then VNone else VInt _rln in
  _rpn ← decode_bin (slice 3 6 buf);
  let _rpn := if _rpn =? 16777215 then VNone else VInt _rpn in
  receiver_point_index ← decode_bin (slice 6 7 buf);
  number_of_samples_per_trace ← decode_bin (slice 7 10 buf);
  mret [("receiver_line_number", _rln);
        ("receiver_point_number", _rpn);
        ("receiver_point_index", VInt receiver_point_index);
        ("number_of_samples_per_trace",
          VInt number_of_samples_per_trace)]%string.

(** Trace header extension block #2, SERCEL format. *)
Definition decode_traceh_eb2 (buf : list byte) : result odict :=
  receiver_point_easting ← decode_dbl (slice 0 8 buf);
  receiver_point_northing ← decode_dbl (slice 8 16 buf);
  receiver_point_elevation ← decode_flt (slice 16 20 buf);
  sensor_type_number ← decode_bin (slice 20 21 buf);
  DSD_identification_number ← decode_bin (slice 24 28 buf);
  extended_trace_number ← decode_bin (slice 28 32 buf);
  mret [("receiver_point_easting", VF64 receiver_point_easting);
        ("receiver_point_northing", VF64 receiver_point_northing);
        ("receiver_point_elevation", of_flt receiver_point_elevation);
        ("sensor_type_number", VInt sensor_type_number);
        ("DSD_identification_number", VInt DSD_identification_number);
        ("extended_trace_number", VInt extended_trace_number)]%string.

(** Trace header extension block #3, SERCEL format. *)
Definition decode_traceh_eb3 (buf : list byte) : result odict :=
  resistance_low_limit ← decode_flt (slice 0 4 buf);
  resistance_high_limit ← decode_flt (slice 4 8 buf);
  resistance_calue_in_ohms ← decode_flt (slice 8 12 buf);
  tilt_limit ← decode_flt (slice 12 16 buf);
  tilt_value ← decode_flt (slice 16 20 buf);
  resistance_error ← decode_bin_bool (slice 20 21 buf);
  tilt_error ← decode_bin_bool (slice 21 22 buf);
  mret [("resistance_low_limit", of_flt resistance_low_limit);
        ("resistance_high_limit", of_flt resistance_high_limit);
        ("resistance_calue_in_ohms", of_flt resistance_calue_in_ohms);
        ("tilt_limit", of_flt tilt_limit);
        ("tilt_value", of_flt tilt_value);
        ("resistance_error", VBool resistance_error);
        ("tilt_error", VBool tilt_error)]%string.

(** Trace header extension block #4, SERCEL format. *)
Definition decode_traceh_eb4 (buf : list byte) : result odict :=
  capacitance_low_limit ← decode_flt (slice 0 4 buf);
  capacitance_high_limit ← decode_flt (slice 4 8 buf);
  capacitance_value_in_nano_farads ← decode_flt (slice 8 12 buf);
  cutoff_low_limit ← decode_flt (slice 12 16 buf);
  cutoff_high_limit ← decode_flt (slice 16 20 buf);
  cutoff_value_in_Hz ← decode_flt (slice 20 24 buf);
  capacitance_error ← decode_bin_bool (slice 24 25 buf);
  cutoff_error ← decode_bin_bool (slice 25 26 buf);
  mret [("capacitance_low_limit", of_flt capacitance_low_limit);
        ("capacitance_high_limit", of_flt capacitance_high_limit);
        ("capacitance_value_in_nano_farads",
          of_flt capacitance_value_in_nano_farads);
        ("cutoff_low_limit", of_flt cutoff_low_limit);
        ("cutoff_high_limit", of_flt cutoff_high_limit);
        ("cutoff_value_in_Hz", of_flt cutoff_value_in_Hz);
        ("capacitance_error", VBool capacitance_error);
        ("cutoff_error", VBool cutoff_error)]%string.

(** Trace header extension block #5, SERCEL format. *)
Definition decode_traceh_eb5 (buf : list byte) : result odict :=
  leakage_limit ← decode_flt (slice 0 4 buf);
  leakage_value_in_megahoms ← decode_flt (slice 4 8 buf);
  instrument_longitude ← decode_dbl (slice 8 16 buf);
  instrument_latitude ← decode_dbl (slice 16 24 buf);
  leakage_error ← decode_bin_bool (slice 24 25 buf);
  instrument_horizontal_position_accuracy_in_mm ←
    decode_bin (slice 25 28 buf);
  instrument_elevation_in_mm ← decode_flt (slice 28 32 buf);
  mret [("leakage_limit", of_flt leakage_limit);
        ("leakage_value_in_megahoms", of_flt leakage_value_in_megahoms);
        ("instrument_longitude", VF64 instrument_longitude);
        ("instrument_latitude", VF64 instrument_latitude);
        ("leakage_error", VBool leakage_error);
        ("instrument_horizontal_position_accuracy_in_mm",
          VInt instrument_horizontal_position_accuracy_in_mm);
        ("instrument_elevation_in_mm",
          of_flt instrument_elevation_in_mm)]%string.

(** Trace header extension block #6, SERCEL format. *)
Definition decode_traceh_eb6 (buf : list byte) : result odict :=
  _ut ← decode_bin (slice 0 1 buf);
  unit_serial_number ← decode_bin (slice 1 4 buf);
  channel_number ← decode_bin (slice 4 5 buf);
  assembly_type ← decode_bin (slice 8 9 buf);
  assembly_serial_number ← decode_bin (slice 9 12 buf);
  location_in_assembly ← decode_bin (slice 12 13 buf);
  _st ← decode_bin (slice 16 17 buf);
  _ct ← decode_bin (slice 17 18 buf);
  sensor_sensitivity ← decode_flt (slice 20 24 buf);
  mret [("unit_serial_number", VInt unit_serial_number);
        ("channel_number", VInt channel_number);
        ("assembly_type", VInt assembly_type);
        ("assembly_serial_number", VInt assembly_serial_number);
        ("location_in_assembly", VInt location_in_assembly);
        ("sensor_sensitivity_in_mV/m/s/s",
          of_flt sensor_sensitivity)]%string.

(** Trace header extension block #7, SERCEL format. *)
Definition decode_traceh_eb7 (buf : list byte) : result odict :=
  _cut ← decode_bin (slice 0 1 buf);
  trace_max_value ← decode_flt (slice 16 20 buf);
  trace_max_time_in_us ← decode_bin (slice 20 24 buf);
  number_of_interpolations ← decode_bin (slice 24 28 buf);
  seismic_trace_offset_value ← decode_bin (slice 28 32 buf);
  mret [("trace_max_value", of_flt trace_max_value);
        ("trace_max_time_in_us", VInt trace_max_time_in_us);
        ("number_of_interpolations", VInt number_of_interpolations);
        ("seismic_trace_offset_value",
          VInt seismic_trace_offset_value)]%string.

(** The seven readers [_read_traceh_eb1] .. [_read_traceh_eb7] share
    their effect: read 32 bytes, extend the last capture, decode. *)
Definition read_traceh_eb (decode : list byte → result odict) : M odict :=
  buf ← read 32;
  traceh_list_extend_last buf;;
  lift (decode buf).

Definition _read_traceh_eb1 : M odict := read_traceh_eb decode_traceh_eb1.
Definition _read_traceh_eb2 : M odict := read_traceh_eb decode_traceh_eb2.
Definition _read_traceh_eb3 : M odict := read_traceh_eb decode_traceh_eb3.
Definition _read_traceh_eb4 : M odict := read_traceh_eb decode_traceh_eb4.
Definition _read_traceh_eb5 : M odict := read_traceh_eb decode_traceh_eb5.
Definition _read_traceh_eb6 : M odict := read_traceh_eb decode_traceh_eb6.
Definition _read_traceh_eb7 : M odict := read_traceh_eb decode_traceh_eb7.

(** [array('f').fromstring(tmp)]: the bytes, four by four; raises when
    the length is not a multiple of four.  After [byteswap] each item
    is the big-endian reading of its four bytes (the host is little
    endian). *)
Fixpoint fromstring (tmp : list byte) : result (list Z) :=
  match tmp with
  | [] => Ok []
  | b0 :: b1 :: b2 :: b3 :: rest =>
      l ← fromstring rest; mret (be_uint [b0; b1; b2; b3] :: l)
  | _ => Raise ValueError
  end.

Definition _read_trace_data (size : Z) : M (list Z) :=
  tmp ← read (size * 4);
  lift (fromstring tmp).

(** The list [_read_traceh_eb] of [_read_trace_data_block]. *)
Definition _read_traceh_eb : list (M odict) :=
  [_read_traceh_eb1; _read_traceh_eb2; _read_traceh_eb3;
   _read_traceh_eb4; _read_traceh_eb5; _read_traceh_eb6;
   _read_traceh_eb7].

(** [for n in ns: traceh.update(_read_traceh_eb[n]())] *)
Fixpoint read_extensions (ns : list nat) (traceh : odict) : M odict :=
  match ns with
  | [] => mret traceh
  | n :: ns' =>
      match _read_traceh_eb !! n with
      | None => lift (Raise IndexError)
      | Some reader =>
          ext ← reader;
          read_extensions ns' (od_update traceh ext)
      end
  end.

(** [range(n)] *)
Definition range (n : Z) : list nat := seq 0 (Z.to_nat n).

Definition _read_trace_data_block (size : Z) : M (odict * list Z) :=
  traceh ← _read_traceh;
  th_ext ← lift (getitem traceh "trace_header_extension" ≫= as_int);
  traceh ← read_extensions (range th_ext) traceh;
  data ← _read_trace_data size;
  mret (traceh, data).

Definition _build_segd_header (generalh : odict) (sch : gmap Z odict)
    (extdh : odict) (extrh : value) (traceh : odict) : result odict :=
  let segd : odict := [] in
  let segd := od_update segd generalh in
  channel_set_number ← getitem traceh "channel_set_number" ≫= as_int;
  match sch !! channel_set_number with
  | None => Raise KeyError
  | Some s =>
      let segd := od_update segd s in
      let segd := od_update segd extdh in
      let segd := od_set "external_header" extrh segd in
      let segd := od_update segd traceh in
      mret segd
  end.

(** [try: m except SEGDScanTypeError: continue] *)
Definition try_scan_type {A} (m : M A) : M (option A) := fun p =>
  match m p with
  | (Ok a, p') => (Ok (Some a), p')
  | (Raise SEGDScanTypeError, p') => (Ok None, p')
  | (Raise e, p') => (Raise e, p')
  end.

(** The scan type header loop of [read_segd]. *)
Fixpoint read_sch_table (ns : list nat) (sch : gmap Z odict)
  : M (gmap Z odict) :=
  match ns with
  | [] => mret sch
  | _ :: ns' =>
      r ← try_scan_type _read_sch;
      match r with
      | None => read_sch_table ns' sch
      | Some _sch =>
          k ← lift (getitem _sch "channel_set_number" ≫= as_int);
          read_sch_table ns' (<[k := _sch]> sch)
      end
  end.

(** The trace loop of [read_segd], on the locals [st] and
    [convert_to_int]. *)
Fixpoint read_traces (ns : list nat) (size : Z) (generalh : odict)
    (sch : gmap Z odict) (extdh : odict) (extrh : value)
    (sample_rate : num) (st : list trace) (convert_to_int : bool)
  : M (list trace * bool) :=
  match ns with
  | [] => mret (st, convert_to_int)
  | _ :: ns' =>
      '(traceh, data) ← _read_trace_data_block size;
      let convert_to_int :=
        convert_to_int && Numpy.all (map Numpy.mod_1_eq_0 data) in
      rate ← lift (num_div (NFloat f1) sample_rate);
      let channel := band_code rate in
      starttime ← lift (getitem generalh "time");
      segd ← lift (_build_segd_header generalh sch extdh extrh traceh);
      let tr := mkTrace data channel sample_rate starttime segd in
      read_traces ns' size generalh sch extdh extrh sample_rate
                  (st ++ [tr]) convert_to_int
  end.

(** [for i in range(len(st)):
       self.traces_data[i, :] = np.asarray(st[i].data)] *)
Fixpoint assign_rows (cols i : nat) (st : list trace) : M () :=
  match st with
  | [] => mret ()
  | tr :: st' =>
      traces_data_setitem cols i (data tr);;
      assign_rows cols (S i) st'
  end.

(** The three general header blocks and the scan type table. *)
Definition read_general_headers : M (odict * gmap Z odict) :=
  generalh ← _read_general_hdr1;
  g2 ← _read_general_hdr2;
  let generalh := od_update generalh g2 in
  g3 ← _read_general_hdr3;
  let generalh := od_update generalh g3 in
  n ← lift (getitem generalh "n_channel_sets_per_record" ≫= as_int);
  sch ← read_sch_table (range n) ∅;
  mret (generalh, sch).

(** The size [read_segd] passes to [_read_external_header]. *)
Definition external_header_size (generalh : odict) : result Z :=
  ext_hdr_lng ← getitem generalh "external_header_length";
  ext_hdr_lng ← (if eq_int ext_hdr_lng 165
                 then getitem generalh "external_header_blocks"
                 else Ok ext_hdr_lng);
  ext_hdr_lng ← as_int ext_hdr_lng;
  mret (ext_hdr_lng * 32).

(** The header part of [read_segd]: general headers, scan type table,
    extended header and external header. *)
Definition read_headers : M (odict * gmap Z odict * odict * value) :=
  '(generalh, sch) ← read_general_headers;
  ehl ← lift (getitem generalh "extended_header_length" ≫= as_int);
  let size := ehl * 32 in
  extdh ← _read_extended_header size;
  size ← lift (external_header_size generalh);
  extrh ← _read_external_header size;
  mret (generalh, sch, extdh, extrh).

(** [read_segd], for a file that holds [file].  The method returns
    nothing; the model returns the locals [st] and [convert_to_int] as
    they are after the trace loop (the last statement narrows the
    arrays of the local [st] when [convert_to_int] holds, and [st] is
    then dropped). *)
Definition read_segd (file : list byte) : M (list trace * bool) :=
  open file;;
  '(generalh, sch, extdh, extrh) ← read_headers;
  sr ← lift (getitem extdh "sample_rate_in_us" ≫= as_int);
  sample_rate ← lift (num_div (NInt sr) (NFloat f1e6));
  npts ← lift (getitem extdh "number_of_samples_in_trace" ≫= as_int);
  let size := npts in
  ntr ← lift (getitem extdh "total_number_of_traces" ≫= as_int);
  '(st, convert_to_int) ←
    read_traces (range ntr) size generalh sch extdh extrh sample_rate
                [] true;
  close;;
  let rows := Z.to_nat ntr in
  let cols := Z.to_nat npts in
  set_traces_data (Numpy.zeros rows cols);;
  assign_rows cols 0 st;;
  mret (st, convert_to_int).

End Readers.

End SegDParser.

(* ================================================================== *)
(** ** Vocabulary of the specification *)
(* ================================================================== *)

Module Spec.

(** The nibbles of a byte string, high nibble first. *)
Definition nibbles (bs : list byte) : list Z :=
  flat_map (fun b => [byte_val b / 16; byte_val b mod 16]) bs.

(** The integer whose base-10 digits are [ds], most significant first. *)
Fixpoint digits_value (ds : list Z) : Z :=
  match ds with
  | [] => 0
  | d :: ds' => d * 10 ^ Z.of_nat (length ds') + digits_value ds'
  end.

(** The parser object while its file is open, with [unread] left to
    read. *)
Definition reading (unread hb : list byte) (tl : list (list byte))
    (td : option (list (list Z))) : SegDParser.parser :=
  SegDParser.mkParser (Some (SegDParser.mkStream unread false)) hb tl td.

(** A block "consisting entirely of zero bytes". *)
Definition all_zero (block : list byte) : bool :=
  forallb (fun b => byte_val b =? 0) block.

(** The channel set number a scan type block carries in its byte 1
    (binary-coded decimal). *)
Definition channel_set_number_of (block : list byte) : Z :=
  digits_value (nibbles (slice 1 2 block)).

(** The blocks of a scan type section that are not all zero. *)
Definition non_empty_blocks (blocks : list (list byte)) : list (list byte) :=
  List.filter (fun b => negb (all_zero b)) blocks.

(** The field layouts of the trace header extension blocks #1 .. #7. *)
Definition extension_decoders : list (list byte → result odict) :=
  [SegDParser.decode_traceh_eb1; SegDParser.decode_traceh_eb2;
   SegDParser.decode_traceh_eb3; SegDParser.decode_traceh_eb4;
   SegDParser.decode_traceh_eb5; SegDParser.decode_traceh_eb6;
   SegDParser.decode_traceh_eb7].

(** The blocks [exts] decoded in order, the first one with the layout of
    extension block #[n+1], the next with that of #[n+2], and so on. *)
Fixpoint decode_extensions (n : nat) (exts : list (list byte))
  : result (list odict) :=
  match exts with
  | [] => Ok []
  | e :: exts' =>
      match extension_decoders !! n with
      | None => Raise IndexError
      | Some decode =>
          d ← decode e;
          ds ← decode_extensions (S n) exts';
          mret (d :: ds)
      end
  end.

(** A binary32 sample that is a whole number: finite, and equal to an
    integer. *)
Definition whole (bits : Z) : Prop :=
  ∃ (q : Q) (z : Z), F32.to_Q bits = Some q ∧ Qeq q (inject_Z z).

(** The [n] low decimal digits of [v], most significant first. *)
Definition decimal_digits (n : nat) (v : Z) : list Z :=
  map (fun i => (v / 10 ^ Z.of_nat (n - 1 - i)) mod 10) (seq 0 n).


(** The matrix [m] after the rows [i], [i + 1], ... have been assigned
    the sample arrays of [st], when every assignment is accepted. *)
Fixpoint assigned_rows (cols i : nat) (st : list SegDParser.trace)
    (m : list (list Z)) : result (list (list Z)) :=
  match st with
  | [] => Ok m
  | tr :: st' =>
      m' ← Numpy.setitem_row m cols i (SegDParser.data tr);
      assigned_rows cols (S i) st' m'
  end.

End Spec.

(* ================================================================== *)
(** ** Encodings and invariants used to state further properties *)
(* ================================================================== *)

(* ================================================================== *)
(** ** The double-precision sum of [decode_fraction] *)
(* ================================================================== *)

Module Rounding.
Import PyFloat.

(** The number of low bits of the [L]-bit pattern [P] that a double does
    not keep: those below its 53 significant bits, and those below
    [2^-1074]. *)
Definition shift (P L : Z) : Z :=
  Z.max (Z.max (Z.log2 P - 52) (L - 1074)) 0.

(** Whether the running sum is rounded up: the first dropped bit is one,
    the kept bits are odd (a tie, rounded to even), and that bit is not
    below [2^-1074]. *)
Definition up (P L : Z) : bool :=
  let s := shift P L in
  (0 <? s) && (L - 1074 <? s) && (2 ^ (s - 1) <=? P mod 2 ^ s)
  && Z.odd (P / 2 ^ s).

(** The sum of the [L] bits of [P], scaled by [2^L]. *)
Definition round (P L : Z) : Z :=
  let s := shift P L in
  (P / 2 ^ s + Z.b2z (up P L)) * 2 ^ s.

(** The running sum [acc] after the [L] bits of the pattern [P]: a
    double [R * 2^c] of value [round P L / 2^L]. *)
Definition sums_to (acc : num) (P L : Z) : Prop :=
  ∃ R c,
    to_float acc = mkF R c
    ∧ (num2Q acc == F2Q (mkF R c))%Q
    ∧ -1074 <= c ∧ - L <= c <= 0 ∧ 0 <= R <= 2 ^ 53
    ∧ R * 2 ^ (c + L) = round P L.

End Rounding.

Module Codec.

(** The byte of value [z], for [0 <= z < 256]. *)
Definition byte_of (z : Z) : byte :=
  match Byte.of_N (Z.to_N z) with Some b => b | None => x00 end.

(** The four bytes of a 32-bit pattern, most significant first. *)
Definition be32 (x : Z) : list byte :=
  [byte_of (x / 16777216 mod 256); byte_of (x / 65536 mod 256);
   byte_of (x / 256 mod 256); byte_of (x mod 256)].

End Codec.

Module Table.

(** The last block of a scan type section that is not all zero and
    carries the channel set number [k]. *)
Definition last_block_for (k : Z) (blocks : list (list byte))
  : option (list byte) :=
  last (List.filter
          (fun b => negb (Spec.all_zero b)
                    && (Spec.channel_set_number_of b =? k))
          blocks).

End Table.

Module Inv.

(** The stream of the parser object is open. *)
Definition is_open (p : SegDParser.parser) : Prop :=
  ∃ u, SegDParser.byte_stream p = Some (SegDParser.mkStream u false).

(** The stream of the parser object is open on a suffix of [file]. *)
Definition reading_suffix (file : list byte) (p : SegDParser.parser) : Prop :=
  ∃ n, SegDParser.byte_stream p
       = Some (SegDParser.mkStream (drop n file) false).

(** A method keeps the property [P] of the object, whether it returns or
    raises. *)
Definition preserves {A} (P : SegDParser.parser → Prop)
    (m : SegDParser.M A) : Prop :=
  ∀ p r p', P p → m p = (r, p') → P p'.

End Inv.

(* ================================================================== *)
(** ** Sample records *)
(* ================================================================== *)

(** Small synthetic SEG-D records, used to exercise the theorems. *)
Module Examples.

(** An acceptance test for [UTCDateTime]: day of year, hour, minute and
    second in range. *)
Definition utc_valid (year julday hour minute second : Z) : bool :=
  (1 <=? julday) && (julday <=? 366) && (hour <? 24) && (minute <? 60)
  && (second <? 60).

(** General header #1: file 1, format 8058, year 21, day 100, 10:20:30,
    base scan interval 1.0 ms, [ncs] channel sets, extended header of
    [ehl] blocks, external header length byte [xhl]. *)
Definition general_hdr1 (ncs ehl xhl : byte) : list byte :=
  [x00; x01; x80; x58] ++ repeat x00 6
  ++ [x21; x01; x00; x10; x20; x30] ++ repeat x00 6
  ++ [x10] ++ repeat x00 4 ++ [x01; ncs; x00; ehl; xhl].

(** General header #2 with [external_header_blocks = blocks]
    (one byte), revision 2.1. *)
Definition general_hdr2 (blocks : byte) : list byte :=
  repeat x00 8 ++ [blocks; x00; x02; x01] ++ repeat x00 20.

Definition general_hdr3 : list byte := repeat x00 32.

(** A scan type header for channel set [n]. *)
Definition scan_type_hdr (n : byte) : list byte :=
  [x01; n] ++ repeat x00 30.

(** A SERCEL extended header of 1024 bytes: sample rate 1000 us,
    [ntr] traces of [npts] samples. *)
Definition extended_hdr (ntr npts : byte) : list byte :=
  [x00; x00; x03; xe8; x00; x00; x03; xe8; x00; x00; x00; ntr]
  ++ repeat x00 20 ++ [x00; x00; x00; npts] ++ repeat x00 988.

(** A trace header for channel set 1 that declares [k] extensions. *)
Definition trace_hdr (k : byte) : list byte :=
  [x00; x01; x01; x01; x00; x01; x00; x00; x00; k] ++ repeat x00 10.

(** The samples 1.0, 2.0, 3.0 and 1.0, 2.0, 2.5 (big-endian binary32). *)
Definition samples_whole : list byte :=
  [x3f; x80; x00; x00; x40; x00; x00; x00; x40; x40; x00; x00].
Definition samples_fractional : list byte :=
  [x3f; x80; x00; x00; x40; x00; x00; x00; x40; x20; x00; x00].

(** One channel set, no extension, two traces of three samples. *)
Definition record (samples1 samples2 : list byte) : list byte :=
  general_hdr1 x01 x32 x00 ++ general_hdr2 x00 ++ general_hdr3
  ++ scan_type_hdr x01 ++ extended_hdr x02 x03
  ++ trace_hdr x00 ++ samples1 ++ trace_hdr x00 ++ samples2.

(** The header section of a record whose external header length byte
    is [0xFF], with two external header blocks declared in general
    header #2, followed by one more byte. *)
Definition overflow_headers : list byte :=
  general_hdr1 x01 x32 xff ++ general_hdr2 x02 ++ general_hdr3
  ++ scan_type_hdr x01 ++ extended_hdr x00 x00
  ++ repeat x41 64 ++ [xee].

End Examples.

Import PyFloat Decoder Spec SegDParser.

(* ================================================================== *)
(** * Properties of the primitive decoders *)
(* ================================================================== *)

Section Bytes.

Lemma byte_val_range (b : byte) : 0 <= byte_val b < 256.
Proof.
  unfold byte_val. pose proof (Byte.to_N_bounded b). lia.
Qed.

Lemma length_slice {A} (a b : nat) (buf : list A) :
  length (slice a b buf) = (Nat.min b (length buf) - a)%nat.
Proof. unfold slice. rewrite length_take, length_drop. lia. Qed.

Lemma length_slice_le {A} (a b : nat) (buf : list A) :
  (length (slice a b buf) <= b - a)%nat.
Proof. rewrite length_slice. lia. Qed.

Lemma slice_take {A} (a b n : nat) (buf : list A) :
  (b <= n)%nat → slice a b (take n buf) = slice a b buf.
Proof.
  intros Hb. unfold slice.
  rewrite skipn_firstn_comm, take_take. f_equal. lia.
Qed.

Lemma be_uint_acc (l : list byte) (acc : Z) :
  fold_left (fun a b => a * 256 + byte_val b) l acc
  = acc * 256 ^ Z.of_nat (length l) + be_uint l.
Proof.
  unfold be_uint. revert acc.
  induction l as [|b l IH]; intros acc; simpl fold_left.
  - simpl. lia.
  - rewrite IH, (IH (0 * 256 + byte_val b)).
    rewrite length_cons, Nat2Z.inj_succ, Z.pow_succ_r by lia. lia.
Qed.

Lemma be_uint_cons (b : byte) (l : list byte) :
  be_uint (b :: l) = byte_val b * 256 ^ Z.of_nat (length l) + be_uint l.
Proof. unfold be_uint at 1. simpl fold_left. apply be_uint_acc. Qed.

Lemma be_uint_zeros (n : nat) (l : list byte) :
  be_uint (repeat x00 n ++ l) = be_uint l.
Proof.
  induction n as [|n IH]; [reflexivity|].
  simpl repeat. rewrite <- app_comm_cons, be_uint_cons, IH.
  change (byte_val x00) with 0. lia.
Qed.

Lemma be_uint_range (l : list byte) :
  0 <= be_uint l < 256 ^ Z.of_nat (length l).
Proof.
  induction l as [|b l IH].
  - cbn. lia.
  - rewrite be_uint_cons, length_cons, Nat2Z.inj_succ, Z.pow_succ_r by lia.
    pose proof (byte_val_range b). nia.
Qed.

End Bytes.


Section BCD.

Lemma bcd_byte (b : byte) :
  bcd (byte_val b) = Ok (byte_val b / 16, byte_val b mod 16).
Proof.
  pose proof (byte_val_range b) as Hb. unfold bcd.
  destruct (255 <? byte_val b) eqn:E; [apply Z.ltb_lt in E; lia|].
  rewrite Z.shiftr_div_pow2 by lia.
  change 15 with (Z.ones 4). rewrite Z.land_ones by lia.
  reflexivity.
Qed.

Lemma decode_bcd_loop_value (bs : list byte) (v : Z) :
  decode_bcd_loop bs v (Z.of_nat (length bs) * 2 - 1)
  = Ok (v + digits_value (nibbles bs)).
Proof.
  revert v. induction bs as [|b bs IH]; intros v.
  - cbn. f_equal. lia.
  - cbn [decode_bcd_loop]. rewrite bcd_byte. cbn [mbind result_bind].
    replace (Z.of_nat (length (b :: bs)) * 2 - 1 - 2)
      with (Z.of_nat (length bs) * 2 - 1) by (rewrite length_cons; lia).
    rewrite IH. f_equal.
    cbn [nibbles flat_map app digits_value].
    fold (nibbles bs).
    assert (Hlen : length (nibbles bs) = (2 * length bs)%nat).
    { clear. induction bs as [|c bs IH]; [reflexivity|].
      cbn [nibbles flat_map app length]. fold (nibbles bs). lia. }
    rewrite length_cons, Hlen, length_cons.
    replace (Z.of_nat (S (length bs)) * 2 - 1)
      with (Z.of_nat (S (2 * length bs))) by lia.
    replace (Z.of_nat (S (2 * length bs)) - 1)
      with (Z.of_nat (2 * length bs)) by lia.
    rewrite Hlen. lia.
Qed.

Lemma decode_bcd_value (bs : list byte) :
  decode_bcd bs = Ok (digits_value (nibbles bs)).
Proof. unfold decode_bcd. rewrite decode_bcd_loop_value. f_equal. Qed.

Lemma length_nibbles (bs : list byte) :
  length (nibbles bs) = (2 * length bs)%nat.
Proof.
  induction bs as [|c bs IH]; [reflexivity|].
  cbn [nibbles flat_map app length]. fold (nibbles bs). lia.
Qed.

Lemma nibbles_range (bs : list byte) :
  Forall (fun d => 0 <= d <= 15) (nibbles bs).
Proof.
  induction bs as [|c bs IH]; [constructor|].
  cbn [nibbles flat_map app]. fold (nibbles bs).
  pose proof (byte_val_range c).
  assert (0 <= byte_val c / 16) by (apply Z.div_pos; lia).
  assert (byte_val c / 16 < 16) by (apply Z.div_lt_upper_bound; lia).
  pose proof (Z.mod_pos_bound (byte_val c) 16).
  repeat constructor; try apply IH; lia.
Qed.

Lemma digits_value_range (ds : list Z) :
  Forall (fun d => 0 <= d <= 9) ds →
  0 <= digits_value ds < 10 ^ Z.of_nat (length ds).
Proof.
  induction 1 as [|d ds Hd _ IH]; cbn [digits_value length].
  - cbn. lia.
  - rewrite Nat2Z.inj_succ, Z.pow_succ_r by lia.
    assert (0 < 10 ^ Z.of_nat (length ds)) by (apply Z.pow_pos_nonneg; lia).
    nia.
Qed.

Lemma decimal_digits_value (ds : list Z) :
  Forall (fun d => 0 <= d <= 9) ds →
  decimal_digits (length ds) (digits_value ds) = ds.
Proof.
  induction 1 as [|d ds Hd Hds IH]; [reflexivity|].
  pose proof (digits_value_range ds Hds) as Hr.
  set (n := length ds) in *.
  assert (Hp : 0 < 10 ^ Z.of_nat n) by (apply Z.pow_pos_nonneg; lia).
  unfold decimal_digits. cbn [length seq map digits_value]. fold n.
  f_equal.
  - replace (S n - 1 - 0)%nat with n by lia.
    rewrite Z.div_add_l by lia.
    rewrite (Z.div_small (digits_value ds)) by lia.
    rewrite Z.add_0_r. apply Z.mod_small. lia.
  - etransitivity; [|exact IH]. unfold decimal_digits. fold n.
    rewrite <- seq_shift, map_map.
    apply map_ext_in. intros i Hi. apply in_seq in Hi.
    replace (S n - 1 - S i)%nat with (n - 1 - i)%nat by lia.
    set (k := (n - 1 - i)%nat).
    replace (10 ^ Z.of_nat n) with (10 ^ Z.of_nat (S i) * 10 ^ Z.of_nat k).
    2:{ rewrite <- Z.pow_add_r by lia. f_equal. lia. }
    assert (0 < 10 ^ Z.of_nat k) by (apply Z.pow_pos_nonneg; lia).
    rewrite Z.mul_assoc, Z.div_add_l by lia.
    rewrite Nat2Z.inj_succ, Z.pow_succ_r by lia.
    rewrite Z.add_comm.
    replace (d * (10 * 10 ^ Z.of_nat i)) with ((d * 10 ^ Z.of_nat i) * 10) by lia.
    apply Z.mod_add. lia.
Qed.

End BCD.


Section Lengths.

Lemma decode_bin_length (bs : list byte) :
  decode_bin bs
  = if (length bs <=? 4)%nat then Ok (be_uint bs) else Raise StructError.
Proof.
  unfold decode_bin, unpack_I. rewrite length_app, repeat_length.
  destruct (Nat.leb_spec (length bs) 4) as [Hle|Hgt].
  - replace (4 - length bs + length bs)%nat with 4%nat by lia.
    cbn [Nat.eqb]. now rewrite be_uint_zeros.
  - destruct (Nat.eqb_spec (4 - length bs + length bs) 4); [lia|reflexivity].
Qed.

Lemma decode_flt_length (bs : list byte) :
  decode_flt bs
  = if (length bs <=? 4)%nat
    then Ok (if F32.isnan (be_uint bs) then None else Some (be_uint bs))
    else Raise StructError.
Proof.
  unfold decode_flt, unpack_f. rewrite length_app, repeat_length.
  destruct (Nat.leb_spec (length bs) 4) as [Hle|Hgt].
  - replace (4 - length bs + length bs)%nat with 4%nat by lia.
    cbn [Nat.eqb mbind result_bind]. now rewrite be_uint_zeros.
  - destruct (Nat.eqb_spec (4 - length bs + length bs) 4); [lia|reflexivity].
Qed.

Lemma decode_bin_slice (a b : nat) (buf : list byte) :
  (b - a <= 4)%nat →
  decode_bin (slice a b buf) = Ok (be_uint (slice a b buf)).
Proof.
  intros H. rewrite decode_bin_length.
  pose proof (length_slice_le a b buf).
  destruct (Nat.leb_spec (length (slice a b buf)) 4); [reflexivity|lia].
Qed.

Lemma decode_bin_bool_slice (a b : nat) (buf : list byte) :
  (b - a <= 4)%nat →
  decode_bin_bool (slice a b buf) = Ok (0 <? be_uint (slice a b buf)).
Proof.
  intros H. unfold decode_bin_bool. now rewrite decode_bin_slice.
Qed.

Lemma decode_flt_slice (a b : nat) (buf : list byte) :
  (b - a <= 4)%nat →
  decode_flt (slice a b buf)
  = Ok (if F32.isnan (be_uint (slice a b buf)) then None
        else Some (be_uint (slice a b buf))).
Proof.
  intros H. rewrite decode_flt_length.
  pose proof (length_slice_le a b buf).
  destruct (Nat.leb_spec (length (slice a b buf)) 4); [reflexivity|lia].
Qed.

Lemma decode_dbl_slice (a b : nat) (buf : list byte) :
  (b - a = 8)%nat → (b <= length buf)%nat →
  decode_dbl (slice a b buf) = Ok (be_uint (slice a b buf)).
Proof.
  intros H1 H2. unfold decode_dbl, unpack_d. rewrite length_slice.
  replace (Nat.min b (length buf) - a)%nat with 8%nat by lia.
  reflexivity.
Qed.

Lemma index_lt (i : nat) (buf : list byte) :
  (i < length buf)%nat → ∃ b, buf !! i = Some b ∧ index i buf = Ok (byte_val b).
Proof.
  intros H. destruct (lookup_lt_is_Some_2 buf i H) as [b Hb].
  exists b. unfold index. now rewrite Hb.
Qed.

Lemma num_div_nz (a b : num) :
  fm (to_float b) ≠ 0 →
  num_div a b = Ok (NFloat (fquot (to_float a) (to_float b))).
Proof.
  intros H. unfold num_div, fdiv.
  destruct (Z.eqb_spec (fm (to_float b)) 0); [contradiction|reflexivity].
Qed.

(** A successful bind: both halves succeeded. *)
Lemma result_bind_ok {A B} (x : result A) (f : A → result B) (b : B) :
  x ≫= f = Ok b → ∃ a, x = Ok a ∧ f a = Ok b.
Proof. destruct x as [a|e]; [eauto|discriminate]. Qed.

End Lengths.

(** Symbolic evaluation of a field decoder, one bind at a time. *)
Ltac decode_step :=
  first
    [ rewrite decode_bcd_value
    | rewrite decode_bin_slice by (cbn; lia)
    | rewrite decode_bin_bool_slice by (cbn; lia)
    | rewrite decode_flt_slice by (cbn; lia)
    | rewrite (num_div_nz _ (NFloat f10)) by (vm_compute; discriminate)
    | rewrite (num_div_nz _ (NFloat f100)) by (vm_compute; discriminate)
    | rewrite (num_div_nz _ (NInt 256)) by (vm_compute; discriminate)
    | rewrite decode_dbl_slice by (cbn; lia)
    | rewrite bcd_byte
    | match goal with
      | H : index ?i ?buf = Ok _ |- context [index ?i ?buf] => rewrite H
      end ];
  cbn [mbind result_bind mret result_ret].


(** Inversion of a successful field decoder, one bind at a time. *)
Ltac invert_binds H :=
  repeat (cbv zeta in H;
          let a := fresh "a" in
          let Ha := fresh "Ha" in
          apply result_bind_ok in H as (a & Ha & H)).

Ltac resolve_decode_bin :=
  repeat match goal with
         | H : decode_bin (slice _ _ _) = Ok _ |- _ =>
             rewrite decode_bin_slice in H by (cbn; lia); injection H as <-
         | H : decode_bcd _ = Ok _ |- _ =>
             rewrite decode_bcd_value in H; injection H as <-
         end.

(* ================================================================== *)
(** * Binary-coded decimals (C6) *)
(* ================================================================== *)

(** C6, as stated, fails: [decode_bcd] has no test on the nibbles.  The
    byte [0xFF] holds two nibbles of value 15, and decodes to
    [15 * 10 + 15 = 165] instead of raising. *)
Lemma decode_bcd_ff_not_rejected :
  Exists (fun d => 10 <= d) (nibbles [xff]) ∧ decode_bcd [xff] = Ok 165.
Proof.
  split; [|reflexivity].
  apply Exists_cons_hd. vm_compute. discriminate.
Qed.

(** C6, amended: [decode_bcd] never fails; it returns the sum of the
    nibbles weighted by descending powers of ten, and when every nibble
    is a decimal digit (0-9) the decimal digits of the result are exactly
    the nibbles, in order. *)
Theorem decode_bcd_positional (bs : list byte) :
  decode_bcd bs = Ok (digits_value (nibbles bs)) ∧
  (Forall (fun d => d <= 9) (nibbles bs) →
   0 <= digits_value (nibbles bs) < 10 ^ Z.of_nat (2 * length bs) ∧
   decimal_digits (2 * length bs) (digits_value (nibbles bs)) = nibbles bs).
Proof.
  split; [apply decode_bcd_value|].
  intros Hd.
  assert (Hds : Forall (fun d => 0 <= d <= 9) (nibbles bs)).
  { pose proof (nibbles_range bs) as Hr.
    rewrite Forall_forall in *. intros d Hin.
    specialize (Hd d Hin). specialize (Hr d Hin). lia. }
  rewrite <- length_nibbles. split.
  - now apply digits_value_range.
  - now apply decimal_digits_value.
Qed.

Lemma decode_bcd_positional_witness :
  decode_bcd [x80; x58] = Ok 8058 ∧ decimal_digits 4 8058 = [8; 0; 5; 8].
Proof.
  destruct (decode_bcd_positional [x80; x58]) as [H1 H2].
  split; [exact H1|].
  apply H2. repeat constructor; vm_compute; discriminate.
Defined.

(* ================================================================== *)
(** * Lengths accepted by the primitive decoders (C7) *)
(* ================================================================== *)

(** C7, as stated, fails: [decode_bin] pads the empty byte string to four
    zero bytes and returns 0. *)
Lemma decode_bin_empty_not_rejected : decode_bin [] = Ok 0.
Proof. reflexivity. Qed.

(** C7, amended: [decode_bin], [decode_bin_bool] and [decode_flt] fail
    exactly when given more than four bytes, and [decode_dbl] exactly when
    not given eight; on the empty byte string only [decode_dbl] fails, the
    others return 0, false, 0, 0, +0.0 and absent. *)
Theorem decoders_by_length (bs : list byte) :
  decode_bin bs
  = (if (length bs <=? 4)%nat then Ok (be_uint bs) else Raise StructError) ∧
  decode_bin_bool bs
  = (if (length bs <=? 4)%nat then Ok (0 <? be_uint bs)
     else Raise StructError) ∧
  decode_flt bs
  = (if (length bs <=? 4)%nat
     then Ok (if F32.isnan (be_uint bs) then None else Some (be_uint bs))
     else Raise StructError) ∧
  decode_dbl bs
  = (if (length bs =? 8)%nat then Ok (be_uint bs) else Raise StructError) ∧
  decode_bin [] = Ok 0 ∧
  decode_bin_bool [] = Ok false ∧
  decode_bcd [] = Ok 0 ∧
  decode_fraction [] = NInt 0 ∧
  decode_flt [] = Ok (Some 0) ∧
  decode_asc [] = None ∧
  decode_dbl [] = Raise StructError.
Proof.
  repeat split; try reflexivity.
  - apply decode_bin_length.
  - unfold decode_bin_bool. rewrite decode_bin_length.
    now destruct (length bs <=? 4)%nat.
  - apply decode_flt_length.
Qed.

(* ================================================================== *)
(** * The file number of a trace header (C8) *)
(* ================================================================== *)

(** [decode_traceh] never raises. *)
Lemma decode_traceh_total (buf : list byte) : ∃ d, decode_traceh buf = Ok d.
Proof. unfold decode_traceh. repeat decode_step. eauto. Qed.

(** Two bytes decode, as binary-coded decimal, to at most 16665. *)
Lemma decode_bcd_2_bound (bs : list byte) :
  (length bs <= 2)%nat → digits_value (nibbles bs) <= 16665.
Proof.
  intros H. pose proof (nibbles_range bs) as Hr.
  destruct bs as [|a [|b [|c bs]]]; cbn [length] in H; try lia.
  - cbn. lia.
  - cbn [nibbles flat_map app] in *.
    repeat match goal with
           | H : Forall _ (_ :: _) |- _ => inversion H; subst; clear H
           end.
    cbn [digits_value length]. cbn. lia.
  - cbn [nibbles flat_map app] in *.
    repeat match goal with
           | H : Forall _ (_ :: _) |- _ => inversion H; subst; clear H
           end.
    cbn [digits_value length]. cbn. lia.
Qed.

(** C8, on the code: the two file-number bytes [0xFF 0xFF] are read as
    binary-coded decimal, which gives 16665; the comparison with [0xFFFF]
    fails and the trace header keeps the integer 16665 as its
    [file_number] instead of the absent value. *)
Theorem traceh_file_number_ff_ff (rest : list byte) :
  ∃ d, decode_traceh (xff :: xff :: rest) = Ok d
       ∧ od_get "file_number" d = Some (VInt 16665).
Proof.
  unfold decode_traceh. repeat decode_step.
  eexists; split; reflexivity.
Qed.

(** The normalisation branch is dead: no trace header has an absent file
    number. *)
Lemma traceh_file_number_never_absent (buf : list byte) (d : odict) :
  decode_traceh buf = Ok d → od_get "file_number" d ≠ Some VNone.
Proof.
  unfold decode_traceh. repeat decode_step.
  intros [= <-]. cbn [od_get String.eqb Ascii.eqb Bool.eqb].
  pose proof (decode_bcd_2_bound (slice 0 2 buf) (length_slice_le 0 2 buf)).
  destruct (Z.eqb_spec (digits_value (nibbles (slice 0 2 buf))) 65535);
    [lia|discriminate].
Qed.

(* ================================================================== *)
(** * Binary fractions (C9) *)
(* ================================================================== *)

Section Fraction.

Lemma rnd_pos_exact (m e : Z) :
  0 <= m < 2 ^ 53 → -1074 <= e → rnd_pos m e = mkF m e.
Proof.
  intros Hm He. unfold rnd_pos.
  assert (Hl : Z.log2 m <= 52).
  { destruct (Z.eq_dec m 0) as [->|Hnz]; [cbn; lia|].
    assert (Z.log2 m < 53) by (apply Z.log2_lt_pow2; lia). lia. }
  destruct (Z.leb_spec (Z.max (e + Z.log2 m - 52) (-1074)) e); [reflexivity|lia].
Qed.

Lemma rnd_exact (m e : Z) :
  0 <= m < 2 ^ 53 → -1074 <= e → rnd m e = mkF m e.
Proof.
  intros Hm He. unfold rnd.
  destruct (Z.ltb_spec m 0); [lia|]. now apply rnd_pos_exact.
Qed.

Lemma fm_rnd_0 (e : Z) : fm (rnd 0 e) = 0.
Proof.
  unfold rnd, rnd_pos. cbn [Z.ltb Z.compare Z.log2].
  destruct (Z.leb_spec (Z.max (e + 0 - 52) (-1074)) e) as [|Hlt]; [reflexivity|].
  cbn [fm]. unfold rne. rewrite Z.shiftr_0_l, Z.land_0_l.
  set (sh := Z.max (e + 0 - 52) (-1074) - e).
  assert (0 < 2 ^ (sh - 1)) by (apply Z.pow_pos_nonneg; lia).
  destruct (Z.ltb_spec 0 (2 ^ (sh - 1))); [reflexivity|lia].
Qed.

(** One term [int(x) * 2 ** -n] of the sum, for a bit [x]. *)
Lemma term_exact (n x : Z) :
  1 <= n <= 1074 → 0 <= x <= 1 →
  num_mul (NInt x) (NFloat (pow2_neg n)) = NFloat (mkF x (- n)).
Proof.
  intros Hn Hx. unfold num_mul, to_float, fmul, of_int, pow2_neg.
  destruct (Z.ltb_spec 1074 n); [lia|].
  rewrite (rnd_exact x 0) by lia. cbn [fm fe].
  rewrite Z.mul_1_r, Z.add_0_l. f_equal. apply rnd_exact; lia.
Qed.

Lemma term_0 (n : Z) :
  ∃ f, num_mul (NInt 0) (NFloat (pow2_neg n)) = NFloat f ∧ fm f = 0.
Proof.
  eexists. split; [reflexivity|]. unfold to_float, fmul.
  change (fm (of_int 0)) with 0. rewrite Z.mul_0_l. apply fm_rnd_0.
Qed.

Lemma fadd_exact (M k x : Z) :
  0 <= M → 0 <= x → 2 * M + x < 2 ^ 53 → 0 <= k < 1074 →
  fadd (mkF M (- k)) (mkF x (- (k + 1))) = mkF (2 * M + x) (- (k + 1)).
Proof.
  intros HM Hx Hb Hk. unfold fadd. cbn [fm fe].
  replace (Z.min (- k) (- (k + 1))) with (- (k + 1)) by lia.
  replace (- k - - (k + 1)) with 1 by lia.
  replace (- (k + 1) - - (k + 1)) with 0 by lia.
  rewrite Z.pow_1_r, Z.pow_0_r, Z.mul_1_r.
  replace (M * 2 + x) with (2 * M + x) by lia.
  apply rnd_exact; lia.
Qed.

(** The running sum over the bits after position [k], while at most 53
    bits have been read: no addition rounds. *)
Lemma sum_bits_exact (bits : list Z) (k M : Z) (acc : num) :
  Forall (fun x => 0 <= x <= 1) bits →
  to_float acc = mkF M (- k) →
  0 <= k → 0 <= M < 2 ^ k → k + Z.of_nat (length bits) <= 53 →
  bits ≠ [] →
  fold_left num_add (map (fun '(n, x) => num_mul (NInt x) (NFloat (pow2_neg n)))
                         (enumerate bits (k + 1))) acc
  = NFloat (mkF (fold_left (fun a x => 2 * a + x) bits M)
                (- (k + Z.of_nat (length bits)))).
Proof.
  intros Hbits. revert k M acc.
  induction Hbits as [|x bits Hx Hbits IH]; intros k M acc Hacc Hk HM Hlen Hne;
    [congruence|].
  cbn [enumerate map fold_left]. cbn [length] in Hlen.
  rewrite term_exact by lia.
  assert (Hstep : num_add acc (NFloat (mkF x (- (k + 1))))
                  = NFloat (mkF (2 * M + x) (- (k + 1)))).
  { assert (2 ^ (k + 1) <= 2 ^ 53) by (apply Z.pow_le_mono_r; lia).
    assert (2 ^ (k + 1) = 2 * 2 ^ k) by (rewrite Z.pow_add_r; lia).
    destruct acc; cbn [num_add]; f_equal;
      cbn [to_float] in *; rewrite Hacc; apply fadd_exact; lia. }
  rewrite Hstep.
  destruct bits as [|y bits'].
  - cbn [enumerate map fold_left length]. do 2 f_equal; lia.
  - rewrite (IH (k + 1) (2 * M + x)); try reflexivity; try lia; try discriminate.
    + cbn [length]. do 2 f_equal; lia.
    + rewrite Z.pow_add_r by lia. lia.
Qed.

Lemma format_08b_bits (b : byte) : Forall (fun x => 0 <= x <= 1) (format_08b b).
Proof.
  unfold format_08b. apply Forall_map, Forall_forall. intros i _.
  cbn. destruct (Z.testbit (byte_val b) i); cbn; lia.
Qed.

Lemma format_08b_value (b : byte) (M : Z) :
  fold_left (fun a x => 2 * a + x) (format_08b b) M = M * 256 + byte_val b.
Proof.
  assert (H : fold_left (fun a x => 2 * a + x) (format_08b b) 0 = byte_val b)
    by (destruct b; reflexivity).
  unfold format_08b in *. cbn [map fold_left] in *. lia.
Qed.

Lemma bits_value (bs : list byte) (M : Z) :
  fold_left (fun a x => 2 * a + x) (flat_map format_08b bs) M
  = fold_left (fun a b => a * 256 + byte_val b) bs M.
Proof.
  revert M. induction bs as [|b bs IH]; intros M; [reflexivity|].
  cbn [flat_map fold_left]. rewrite fold_left_app, format_08b_value. apply IH.
Qed.

Lemma length_bits (bs : list byte) :
  length (flat_map format_08b bs) = (8 * length bs)%nat.
Proof.
  induction bs as [|b bs IH]; [reflexivity|].
  cbn [flat_map]. rewrite length_app, IH. cbn [format_08b length map]. lia.
Qed.

Lemma bits_Forall (bs : list byte) :
  Forall (fun x => 0 <= x <= 1) (flat_map format_08b bs).
Proof.
  induction bs as [|b bs IH]; [constructor|].
  cbn [flat_map]. apply Forall_app. split; [apply format_08b_bits|apply IH].
Qed.

(** Up to six bytes, [decode_fraction] is exact. *)
Lemma decode_fraction_short (bs : list byte) :
  bs ≠ [] → (length bs <= 6)%nat →
  decode_fraction bs
  = NFloat (mkF (be_uint bs) (- Z.of_nat (8 * length bs))).
Proof.
  intros Hne Hlen. unfold decode_fraction, sum.
  change 1 with (0 + 1).
  rewrite (sum_bits_exact _ 0 0 (NInt 0)).
  - rewrite bits_value, length_bits. reflexivity.
  - apply bits_Forall.
  - reflexivity.
  - lia.
  - cbn. lia.
  - rewrite length_bits. lia.
  - destruct bs; [congruence|]. discriminate.
Qed.

Lemma F2Q_dyadic (M : Z) (L : nat) :
  F2Q (mkF M (- Z.of_nat L)) == inject_Z M / inject_Z (2 ^ Z.of_nat L).
Proof.
  unfold F2Q. cbn [fm fe]. unfold Qdiv.
  apply Qmult_comp; [reflexivity|].
  rewrite Qpower_opp. apply Qinv_comp.
  symmetry. apply (Zpower_Qpower 2). lia.
Qed.

(** The sum over all-zero bits is zero, whatever the length. *)
Lemma sum_zero_bits (bits : list Z) (k : Z) (acc : num) :
  Forall (fun x => x = 0) bits →
  (acc = NInt 0 ∨ ∃ f, acc = NFloat f ∧ fm f = 0) →
  let r := fold_left num_add
             (map (fun '(n, x) => num_mul (NInt x) (NFloat (pow2_neg n)))
                  (enumerate bits k)) acc in
  r = NInt 0 ∨ ∃ f, r = NFloat f ∧ fm f = 0.
Proof.
  intros Hbits. revert k acc.
  induction Hbits as [|x bits -> _ IH]; intros k acc Hacc; [exact Hacc|].
  cbn [enumerate map fold_left]. apply IH. right.
  destruct (term_0 k) as (f & -> & Hf).
  assert (Hadd : ∀ a b, fm a = 0 → fm b = 0 → fm (fadd a b) = 0).
  { intros a b Ha Hb. unfold fadd. rewrite Ha, Hb.
    rewrite !Z.mul_0_l. apply fm_rnd_0. }
  destruct Hacc as [->|(g & -> & Hg)]; cbn [num_add to_float];
    eexists; (split; [reflexivity|]); apply Hadd; auto.
Qed.

Lemma decode_fraction_zeros (n : nat) :
  num2Q (decode_fraction (repeat x00 n)) == 0.
Proof.
  assert (H : Forall (fun x => x = 0) (flat_map format_08b (repeat x00 n))).
  { induction n as [|n IH]; [constructor|].
    cbn [repeat flat_map]. apply Forall_app. split; [|exact IH].
    repeat constructor. }
  destruct (sum_zero_bits _ 1 (NInt 0) H (or_introl eq_refl))
    as [E|(f & E & Hf)];
    unfold decode_fraction, sum; rewrite E; cbn [num2Q].
  - reflexivity.
  - unfold F2Q. rewrite Hf. reflexivity.
Qed.

End Fraction.

(* ================================================================== *)
(** * The running sum at every length *)
(* ================================================================== *)

Section Rounded.

Import Rounding.

Lemma rne_div (m sh : Z) :
  0 <= m → 0 < sh →
  rne m sh
  = m / 2 ^ sh
    + (if m mod 2 ^ sh <? 2 ^ (sh - 1) then 0
       else if 2 ^ (sh - 1) <? m mod 2 ^ sh then 1
       else if Z.even (m / 2 ^ sh) then 0 else 1).
Proof.
  intros Hm Hsh. unfold rne.
  rewrite Z.shiftr_div_pow2, Z.land_ones by lia.
  repeat destruct (_ <? _); try destruct (Z.even _); lia.
Qed.

Lemma log2_scaled (q x sh : Z) :
  0 < q → 0 <= sh → 0 <= x < 2 ^ sh →
  Z.log2 (q * 2 ^ sh + x) = Z.log2 q + sh.
Proof.
  intros Hq Hsh Hx.
  pose proof (Z.log2_spec q Hq) as [Hlo Hhi].
  pose proof (Z.log2_nonneg q) as Hl.
  apply Z.log2_unique; [lia|].
  replace (Z.succ (Z.log2 q + sh)) with (Z.succ (Z.log2 q) + sh) by lia.
  rewrite !Z.pow_add_r by lia. nia.
Qed.

Lemma div_scaled (q x sh : Z) :
  0 <= sh → 0 <= x < 2 ^ sh →
  (q * 2 ^ sh + x) / 2 ^ sh = q ∧ (q * 2 ^ sh + x) mod 2 ^ sh = x.
Proof.
  intros Hsh Hx.
  assert (0 < 2 ^ sh) by (apply Z.pow_pos_nonneg; lia).
  split.
  - rewrite Z.add_comm, Z.div_add by lia. rewrite Z.div_small by lia. lia.
  - rewrite Z.add_comm, Z.mod_add by lia. apply Z.mod_small. lia.
Qed.

(** What is below half a unit in the last place is dropped. *)
Lemma rnd_pos_small_rem (q x sh e : Z) :
  2 ^ 52 <= q < 2 ^ 53 → 1 <= sh → 0 <= x < 2 ^ (sh - 1) →
  -1074 <= e + sh →
  rnd_pos (q * 2 ^ sh + x) e = mkF q (e + sh).
Proof.
  intros Hq Hsh Hx He. unfold rnd_pos.
  assert (Hpow : 2 ^ sh = 2 * 2 ^ (sh - 1)).
  { replace sh with (1 + (sh - 1)) at 1 by lia.
    rewrite Z.pow_add_r by lia. reflexivity. }
  assert (Hlog : Z.log2 q = 52) by (apply Z.log2_unique; lia).
  rewrite log2_scaled, Hlog by lia.
  replace (Z.max (e + (52 + sh) - 52) (-1074)) with (e + sh) by lia.
  destruct (Z.leb_spec (e + sh) e); [lia|].
  replace (e + sh - e) with sh by lia.
  destruct (div_scaled q x sh) as [Hd Hr]; [lia|lia|].
  rewrite rne_div by lia. rewrite Hd, Hr.
  destruct (Z.ltb_spec x (2 ^ (sh - 1))); [|lia].
  f_equal. lia.
Qed.

(** A tie is rounded to even. *)
Lemma rnd_pos_tie (q x e : Z) :
  2 ^ 52 <= q < 2 ^ 53 → 0 <= x <= 1 → -1074 <= e + 1 →
  rnd_pos (2 * q + x) e
  = mkF (q + Z.b2z ((1 <=? x) && Z.odd q)) (e + 1).
Proof.
  intros Hq Hx He. unfold rnd_pos.
  assert (Hlog : Z.log2 q = 52) by (apply Z.log2_unique; lia).
  replace (2 * q + x) with (q * 2 ^ 1 + x) by lia.
  rewrite log2_scaled, Hlog by lia.
  replace (Z.max (e + (52 + 1) - 52) (-1074)) with (e + 1) by lia.
  destruct (Z.leb_spec (e + 1) e); [lia|].
  replace (e + 1 - e) with 1 by lia.
  destruct (div_scaled q x 1) as [Hd Hr]; [lia|cbn; lia|].
  rewrite rne_div by lia. rewrite Hd, Hr.
  change (2 ^ (1 - 1)) with 1.
  rewrite <- Z.negb_odd.
  f_equal.
  destruct (Z.ltb_spec x 1), (Z.leb_spec 1 x); try lia;
    destruct (Z.ltb_spec 1 x); try lia;
    destruct (Z.odd q); cbn; lia.
Qed.

Lemma log2_le_52 (P : Z) : 0 <= P < 2 ^ 53 → Z.log2 P <= 52.
Proof.
  intros HP. destruct (Z.eq_dec P 0) as [->|Hnz]; [cbn; lia|].
  assert (Z.log2 P < 53) by (apply Z.log2_lt_pow2; lia). lia.
Qed.

Lemma log2_ge_53 (P : Z) : 2 ^ 53 <= P → 53 <= Z.log2 P.
Proof. intros HP. apply Z.log2_le_pow2; lia. Qed.

Lemma log2_lt (P L : Z) : 0 <= L → 0 <= P < 2 ^ L → Z.log2 P <= L.
Proof.
  intros HL HP. destruct (Z.eq_dec P 0) as [->|Hnz]; [cbn; lia|].
  assert (Z.log2 P < L) by (apply Z.log2_lt_pow2; lia). lia.
Qed.

(** The kept bits and the dropped bits of a pattern. *)
Lemma round_cases (P L : Z) :
  0 <= P →
  let s := shift P L in
  0 <= s
  ∧ P / 2 ^ s * 2 ^ s <= P
  ∧ ((up P L = false ∧ round P L = P / 2 ^ s * 2 ^ s)
     ∨ (up P L = true ∧ s = Z.log2 P - 52 ∧ 0 < s ∧ L - 1074 < s ∧ 0 < P
        ∧ Z.odd (P / 2 ^ s) = true
        ∧ 2 ^ (s - 1) <= P mod 2 ^ s
        ∧ round P L = (P / 2 ^ s + 1) * 2 ^ s)).
Proof.
  intros HP s.
  assert (Hs : 0 <= s) by (unfold s, shift; lia).
  assert (H2 : 0 < 2 ^ s) by (apply Z.pow_pos_nonneg; lia).
  split; [exact Hs|]. split.
  { pose proof (Z.mul_div_le P (2 ^ s) H2). lia. }
  unfold round. fold s. destruct (up P L) eqn:Hup.
  - right. unfold up in Hup. fold s in Hup.
    apply andb_prop in Hup as [Hup Hodd].
    apply andb_prop in Hup as [Hup Htie].
    apply andb_prop in Hup as [H0 H1].
    apply Z.ltb_lt in H0, H1. apply Z.leb_le in Htie.
    split; [reflexivity|].
    assert (Hse : s = Z.log2 P - 52) by (unfold s, shift in *; lia).
    split; [exact Hse|]. split; [exact H0|]. split; [exact H1|]. split.
    { destruct (Z.eq_dec P 0) as [->|]; [|lia].
      rewrite Z.div_0_l in Hodd by lia. discriminate. }
    split; [exact Hodd|]. split; [exact Htie|]. reflexivity.
  - left. split; [reflexivity|]. cbn [Z.b2z]. lia.
Qed.

Lemma round_nonneg (P L : Z) : 0 <= P → 0 <= round P L.
Proof.
  intros HP. unfold round.
  assert (0 <= shift P L) by (unfold shift; lia).
  assert (0 < 2 ^ shift P L) by (apply Z.pow_pos_nonneg; lia).
  assert (0 <= P / 2 ^ shift P L) by (apply Z.div_pos; lia).
  destruct (up P L); cbn [Z.b2z]; nia.
Qed.

(** The rounded sum does not pass the next power of two. *)
Lemma round_le_pow2 (P L k : Z) :
  0 <= k → 0 <= P < 2 ^ k → round P L <= 2 ^ k.
Proof.
  intros Hk HP.
  destruct (round_cases P L) as (Hs & Hle & [[_ ->]|(_ & Hse & H0 & _ & HP0 & _ & _ & ->)]);
    [lia|lia|].
  set (s := shift P L) in *.
  assert (Hlog : Z.log2 P < k) by (apply Z.log2_lt_pow2; lia).
  assert (H2 : 0 < 2 ^ s) by (apply Z.pow_pos_nonneg; lia).
  assert (Hsplit : 2 ^ k = 2 ^ (k - s) * 2 ^ s).
  { rewrite <- Z.pow_add_r by lia. f_equal. lia. }
  assert (P / 2 ^ s < 2 ^ (k - s)).
  { apply Z.div_lt_upper_bound; [lia|]. lia. }
  rewrite Hsplit. apply Z.mul_le_mono_nonneg_r; lia.
Qed.

(** The rounded sum is monotonic in the pattern. *)
Lemma round_mono (P P' L : Z) :
  0 <= P <= P' → round P L <= round P' L.
Proof.
  intros HP.
  destruct (round_cases P L ltac:(lia)) as (Hs & Hle & Hc).
  destruct (round_cases P' L ltac:(lia)) as (Hs' & Hle' & Hc').
  set (s := shift P L) in *. set (s' := shift P' L) in *.
  assert (H2 : 0 < 2 ^ s) by (apply Z.pow_pos_nonneg; lia).
  assert (H2' : 0 < 2 ^ s') by (apply Z.pow_pos_nonneg; lia).
  assert (Hlog : Z.log2 P <= Z.log2 P') by (apply Z.log2_le_mono; lia).
  assert (Hss : s <= s') by (unfold s, s', shift; lia).
  assert (Hge' : P' / 2 ^ s' * 2 ^ s' <= round P' L).
  { destruct Hc' as [[_ ->]|(_ & _ & _ & _ & _ & _ & _ & ->)]; lia. }
  destruct (Z.eq_dec s s') as [E|E].
  - (* the same grid *)
    rewrite <- E in *.
    assert (HT : P / 2 ^ s <= P' / 2 ^ s) by (apply Z.div_le_mono; lia).
    destruct Hc as [[_ ->]|(_ & Hse & H0 & H1 & HP0 & Hodd & Htie & ->)].
    + nia.
    + destruct (Z.eq_dec (P / 2 ^ s) (P' / 2 ^ s)) as [ET|ET]; [|nia].
      assert (Hup' : up P' L = true).
      { unfold up. fold s'. rewrite <- E.
        pose proof (Z.div_mod P (2 ^ s) ltac:(lia)).
        pose proof (Z.div_mod P' (2 ^ s) ltac:(lia)).
        rewrite <- ET, Hodd.
        destruct (Z.ltb_spec 0 s); [|lia].
        destruct (Z.ltb_spec (L - 1074) s); [|lia].
        destruct (Z.leb_spec (2 ^ (s - 1)) (P' mod 2 ^ s)); [reflexivity|].
        nia. }
      destruct Hc' as [[Hf _]|(_ & _ & _ & _ & _ & _ & _ & ->)];
        [congruence|]. nia.
  - (* a coarser grid for the larger pattern *)
    assert (Hse' : s' = Z.log2 P' - 52) by (unfold s, s', shift in *; lia).
    assert (HP' : 0 < P').
    { destruct (Z.eq_dec P' 0) as [E0|]; [|lia].
      rewrite E0 in Hse'. cbn in Hse'. lia. }
    assert (Hlt : Z.log2 P < Z.log2 P') by (unfold s, s', shift in *; lia).
    pose proof (Z.log2_spec P' HP') as [Hlo' _].
    assert (Hbig : 2 ^ Z.log2 P' <= round P' L).
    { assert (2 ^ 52 <= P' / 2 ^ s').
      { apply Z.div_le_lower_bound; [lia|].
        rewrite Z.mul_comm, <- Z.pow_add_r by lia.
        replace (52 + s') with (Z.log2 P') by lia. exact Hlo'. }
      replace (Z.log2 P') with (52 + s') by lia.
      rewrite Z.pow_add_r by lia. nia. }
    destruct (Z.eq_dec P 0) as [->|HP0].
    { assert (round 0 L = 0).
      { destruct Hc as [[_ ->]|(_ & _ & _ & _ & ? & _)]; [|lia].
        rewrite Z.div_0_l by lia. lia. }
      lia. }
    pose proof (Z.log2_spec P ltac:(lia)) as [_ Hhi].
    pose proof (Z.log2_nonneg P).
    assert (round P L <= 2 ^ Z.succ (Z.log2 P))
      by (apply round_le_pow2; lia).
    assert (2 ^ Z.succ (Z.log2 P) <= 2 ^ Z.log2 P')
      by (apply Z.pow_le_mono_r; lia).
    lia.
Qed.

Lemma round_exact (P L : Z) :
  0 <= P < 2 ^ 53 → L <= 1074 → round P L = P.
Proof.
  intros HP HL. pose proof (log2_le_52 P HP).
  assert (Hs : shift P L = 0) by (unfold shift; lia).
  unfold round, up. rewrite Hs. cbn. rewrite Z.div_1_r. lia.
Qed.

Lemma round_first_tie (P L x : Z) :
  2 ^ 52 <= P < 2 ^ 53 → L + 1 <= 1074 → 0 <= x <= 1 →
  round (2 * P + x) (L + 1) = 2 * (P + Z.b2z ((1 <=? x) && Z.odd P)).
Proof.
  intros HP HL Hx.
  assert (Hlog : Z.log2 P = 52) by (apply Z.log2_unique; lia).
  assert (Hs : shift (2 * P + x) (L + 1) = 1).
  { unfold shift. replace (2 * P + x) with (P * 2 ^ 1 + x) by lia.
    rewrite log2_scaled by lia. lia. }
  destruct (div_scaled P x 1) as [Hd Hr]; [lia|cbn; lia|].
  replace (P * 2 ^ 1 + x) with (2 * P + x) in Hd, Hr by lia.
  unfold round, up. rewrite Hs. change (2 ^ (1 - 1)) with 1.
  rewrite Hd, Hr.
  destruct (Z.ltb_spec (L + 1 - 1074) 1); [|lia].
  cbn [Z.ltb Z.compare andb]. lia.
Qed.

(** Once bits are being dropped, one more bit does not change the sum. *)
Lemma round_frozen (P L x : Z) :
  0 <= P → 0 <= x <= 1 → 1074 <= L ∨ 2 ^ 53 <= P →
  round (2 * P + x) (L + 1) = 2 * round P L.
Proof.
  intros HP Hx Hcase.
  set (s := shift P L).
  assert (Hs0 : 0 <= s) by (unfold s, shift; lia).
  assert (Hs : shift (2 * P + x) (L + 1) = s + 1).
  { unfold s, shift. destruct (Z.eq_dec P 0) as [->|HP0].
    - assert (Z.log2 (2 * 0 + x) = 0)
        by (assert (x = 0 ∨ x = 1) as [->| ->] by lia; reflexivity).
      cbn [Z.log2]. lia.
    - replace (2 * P + x) with (P * 2 ^ 1 + x) by lia.
      rewrite log2_scaled by lia.
      destruct Hcase as [|HP53]; [lia|]. pose proof (log2_ge_53 P HP53). lia. }
  assert (H2 : 0 < 2 ^ s) by (apply Z.pow_pos_nonneg; lia).
  assert (Hpow : 2 ^ (s + 1) = 2 ^ s * 2) by (rewrite Z.pow_add_r; lia).
  pose proof (Z.div_mod P (2 ^ s) ltac:(lia)) as Hdm.
  pose proof (Z.mod_pos_bound P (2 ^ s) H2) as Hmod.
  destruct (div_scaled (P / 2 ^ s) (2 * (P mod 2 ^ s) + x) (s + 1))
    as [Hd Hr]; [lia|lia|].
  replace (P / 2 ^ s * 2 ^ (s + 1) + (2 * (P mod 2 ^ s) + x))
    with (2 * P + x) in Hd, Hr by lia.
  assert (Hup : up (2 * P + x) (L + 1) = up P L).
  { unfold up. rewrite Hs. fold s. rewrite Hd, Hr.
    replace (s + 1 - 1) with s by lia.
    destruct (Z.ltb_spec 0 (s + 1)); [|lia].
    destruct (Z.ltb_spec 0 s) as [Hpos|Hzero].
    - assert (2 ^ s = 2 * 2 ^ (s - 1)).
      { replace s with (1 + (s - 1)) at 1 by lia.
        rewrite Z.pow_add_r by lia. reflexivity. }
      destruct (Z.ltb_spec (L + 1 - 1074) (s + 1)),
               (Z.ltb_spec (L - 1074) s); try lia; cbn [andb];
        try reflexivity.
      destruct (Z.leb_spec (2 ^ s) (2 * (P mod 2 ^ s) + x)),
               (Z.leb_spec (2 ^ (s - 1)) (P mod 2 ^ s)); try lia; reflexivity.
    - cbn [andb].
      destruct (Z.ltb_spec (L + 1 - 1074) (s + 1)); [|reflexivity].
      destruct Hcase as [|HP53]; [lia|].
      pose proof (log2_ge_53 P HP53). unfold s, shift in *. lia. }
  unfold round. rewrite Hup, Hs. fold s. rewrite Hd, Hpow. ring.
Qed.

(** Adding the term of bit [L + 1] to a sum of [L] bits. *)
Lemma fadd_bit (R c L x : Z) :
  - L <= c → 0 <= R → 0 <= x →
  fadd (mkF R c) (mkF x (- (L + 1)))
  = rnd_pos (2 * (R * 2 ^ (c + L)) + x) (- (L + 1)).
Proof.
  intros Hc HR Hx. unfold fadd. cbn [fm fe].
  replace (Z.min c (- (L + 1))) with (- (L + 1)) by lia.
  replace (c - - (L + 1)) with (c + L + 1) by lia.
  replace (- (L + 1) - - (L + 1)) with 0 by lia.
  rewrite Z.pow_add_r, Z.pow_0_r, Z.pow_1_r by lia.
  assert (0 <= 2 ^ (c + L)) by (apply Z.pow_nonneg; lia).
  unfold rnd.
  destruct (Z.ltb_spec (R * (2 ^ (c + L) * 2) + x * 1) 0); [nia|].
  f_equal. lia.
Qed.

Lemma frac_step (P L x R c : Z) :
  0 <= L → L + 1 <= 1074 → 0 <= P < 2 ^ L → 0 <= x <= 1 →
  - L <= c → 0 <= R → R * 2 ^ (c + L) = round P L →
  ∃ R' c',
    fadd (mkF R c) (mkF x (- (L + 1))) = mkF R' c'
    ∧ -1074 <= c' ∧ - (L + 1) <= c' <= 0 ∧ 0 <= R' <= 2 ^ 53
    ∧ R' * 2 ^ (c' + (L + 1)) = round (2 * P + x) (L + 1).
Proof.
  intros HL HL' HP Hx Hc HR HW. rewrite fadd_bit, HW by lia.
  destruct (Z.lt_ge_cases P (2 ^ 52)) as [H52|H52].
  { rewrite round_exact by lia. rewrite rnd_pos_exact by lia.
    exists (2 * P + x), (- (L + 1)).
    split; [reflexivity|]. rewrite round_exact by lia.
    replace (- (L + 1) + (L + 1)) with 0 by lia.
    repeat split; lia. }
  destruct (Z.lt_ge_cases P (2 ^ 53)) as [H53|H53].
  { rewrite round_exact by lia. rewrite rnd_pos_tie by lia.
    eexists _, _. split; [reflexivity|].
    rewrite round_first_tie by lia.
    replace (- (L + 1) + 1 + (L + 1)) with 1 by lia.
    destruct ((1 <=? x) && Z.odd P); cbn [Z.b2z]; repeat split; lia. }
  rewrite round_frozen by lia.
  pose proof (log2_ge_53 P H53) as Hlog.
  assert (Hlt : Z.log2 P < L) by (apply Z.log2_lt_pow2; lia).
  pose proof (Z.log2_spec P ltac:(lia)) as [Hlo Hhi].
  assert (Hs : shift P L = Z.log2 P - 52) by (unfold shift; lia).
  set (s := shift P L) in *.
  assert (H2 : 0 < 2 ^ s) by (apply Z.pow_pos_nonneg; lia).
  assert (HT : 2 ^ 52 <= P / 2 ^ s < 2 ^ 53).
  { split.
    - apply Z.div_le_lower_bound; [lia|].
      rewrite Z.mul_comm, <- Z.pow_add_r by lia.
      replace (52 + s) with (Z.log2 P) by lia. exact Hlo.
    - apply Z.div_lt_upper_bound; [lia|].
      rewrite Z.mul_comm, <- Z.pow_add_r by lia.
      replace (53 + s) with (Z.succ (Z.log2 P)) by lia. exact Hhi. }
  assert (Hpow : 2 ^ (s + 1) = 2 * 2 ^ s) by (rewrite Z.pow_add_r; lia).
  assert (Hx' : 0 <= x < 2 ^ s).
  { assert (2 ^ 1 <= 2 ^ s) by (apply Z.pow_le_mono_r; lia). lia. }
  unfold round. fold s.
  destruct (Z.eq_dec (P / 2 ^ s + Z.b2z (up P L)) (2 ^ 53)) as [E|E].
  - rewrite E.
    replace (2 * (2 ^ 53 * 2 ^ s) + x) with (2 ^ 52 * 2 ^ (s + 2) + x)
      by (rewrite (Z.pow_add_r 2 s 2) by lia; lia).
    rewrite rnd_pos_small_rem;
      [|lia|lia|replace (s + 2 - 1) with (s + 1) by lia; lia|lia].
    eexists _, _. split; [reflexivity|].
    replace (- (L + 1) + (s + 2) + (L + 1)) with (s + 2) by lia.
    rewrite (Z.pow_add_r 2 s 2) by lia.
    repeat split; lia.
  - set (R0 := P / 2 ^ s + Z.b2z (up P L)) in *.
    assert (HR0 : 2 ^ 52 <= R0 < 2 ^ 53)
      by (unfold R0 in *; destruct (up P L); cbn [Z.b2z] in *; lia).
    replace (2 * (R0 * 2 ^ s) + x) with (R0 * 2 ^ (s + 1) + x) by lia.
    rewrite rnd_pos_small_rem;
      [|lia|lia|replace (s + 1 - 1) with s by lia; lia|lia].
    eexists _, _. split; [reflexivity|].
    replace (- (L + 1) + (s + 1) + (L + 1)) with (s + 1) by lia.
    repeat split; lia.
Qed.

(** Below [2^-1074] the term is zero and the sum keeps its value. *)
Lemma frac_step_zero (P L x R c : Z) :
  1074 <= L → 0 <= P < 2 ^ L → 0 <= x <= 1 →
  -1074 <= c → - L <= c <= 0 → 0 <= R <= 2 ^ 53 →
  R * 2 ^ (c + L) = round P L →
  ∃ R' c',
    fadd (mkF R c) (mkF 0 0) = mkF R' c'
    ∧ -1074 <= c' ∧ - (L + 1) <= c' <= 0 ∧ 0 <= R' <= 2 ^ 53
    ∧ R' * 2 ^ (c' + (L + 1)) = round (2 * P + x) (L + 1).
Proof.
  intros HL HP Hx Hc1 Hc HR HW.
  rewrite round_frozen by lia. rewrite <- HW.
  unfold fadd. cbn [fm fe].
  replace (Z.min c 0) with c by lia.
  rewrite Z.sub_diag, Z.pow_0_r, Z.mul_1_r, Z.mul_0_l, Z.add_0_r.
  unfold rnd. destruct (Z.ltb_spec R 0); [lia|].
  destruct (Z.eq_dec R (2 ^ 53)) as [->|HR53].
  - assert (Hle : 2 ^ 53 * 2 ^ (c + L) <= 2 ^ L)
      by (rewrite HW; apply round_le_pow2; lia).
    rewrite <- Z.pow_add_r in Hle by lia.
    apply Z.pow_le_mono_r_iff in Hle; [|lia|lia].
    change (rnd_pos (2 ^ 53) c) with (rnd_pos (2 ^ 52 * 2 ^ 1 + 0) c).
    rewrite rnd_pos_small_rem; [|lia|lia|cbn; lia|lia].
    eexists _, _. split; [reflexivity|].
    replace (c + 1 + (L + 1)) with (c + L + 2) by lia.
    rewrite (Z.pow_add_r 2 (c + L) 2) by lia.
    repeat split; lia.
  - rewrite rnd_pos_exact by lia.
    eexists _, _. split; [reflexivity|].
    replace (c + (L + 1)) with (c + L + 1) by lia.
    rewrite (Z.pow_add_r 2 (c + L) 1) by lia.
    repeat split; lia.
Qed.

Lemma term_underflow (n x : Z) :
  1074 < n → 0 <= x <= 1 →
  num_mul (NInt x) (NFloat (pow2_neg n)) = NFloat (mkF 0 0).
Proof.
  intros Hn Hx. unfold num_mul, to_float, fmul, of_int, pow2_neg.
  destruct (Z.ltb_spec 1074 n); [|lia].
  rewrite (rnd_exact x 0) by lia. cbn [fm fe].
  rewrite Z.mul_0_r. reflexivity.
Qed.

(** The running sum of [decode_fraction], at every length. *)
Lemma sum_bits_round (bits : list Z) :
  Forall (fun x => 0 <= x <= 1) bits →
  ∀ (L P : Z) (acc : num),
    0 <= L → 0 <= P < 2 ^ L → sums_to acc P L →
    sums_to
      (fold_left num_add
                 (map (fun '(n, x) => num_mul (NInt x) (NFloat (pow2_neg n)))
                      (enumerate bits (L + 1))) acc)
      (fold_left (fun a x => 2 * a + x) bits P)
      (L + Z.of_nat (length bits)).
Proof.
  induction 1 as [|x bits Hx Hbits IH]; intros L P acc HL HP Hacc.
  - cbn [length enumerate map fold_left]. now rewrite Z.add_0_r.
  - cbn [enumerate map fold_left].
    replace (L + Z.of_nat (length (x :: bits)))
      with (L + 1 + Z.of_nat (length bits)) by (cbn [length]; lia).
    assert (Hpow : 2 ^ (L + 1) = 2 * 2 ^ L) by (rewrite Z.pow_add_r; lia).
    apply IH; [lia|lia|].
    destruct Hacc as (R & c & Hf & _ & Hc1 & Hc & HR & HW).
    assert (Hadd : ∀ t, num_add acc (NFloat t) = NFloat (fadd (mkF R c) t)).
    { intros t. rewrite <- Hf. destruct acc; reflexivity. }
    destruct (Z.le_gt_cases (L + 1) 1074) as [Hn|Hn].
    + rewrite term_exact, Hadd by lia.
      destruct (frac_step P L x R c) as (R' & c' & -> & H1 & H2 & H3 & H4);
        try lia.
      exists R', c'. split; [reflexivity|]. split; [reflexivity|]. auto.
    + rewrite term_underflow, Hadd by lia.
      destruct (frac_step_zero P L x R c) as (R' & c' & -> & H1 & H2 & H3 & H4);
        try lia.
      exists R', c'. split; [reflexivity|]. split; [reflexivity|]. auto.
Qed.

Lemma F2Q_scaled (R c L : Z) :
  0 <= L → - L <= c →
  (F2Q (mkF R c) == inject_Z (R * 2 ^ (c + L)) / inject_Z (2 ^ L))%Q.
Proof.
  intros HL Hc. unfold F2Q. cbn [fm fe].
  replace c with (c + L + - L) at 1 by lia.
  rewrite Qpower_plus by discriminate.
  rewrite Qpower_opp.
  rewrite inject_Z_mult, !(Zpower_Qpower 2) by lia.
  change (inject_Z 2) with 2%Q. unfold Qdiv.
  generalize (Qpower 2 (c + L)), (/ Qpower 2 L)%Q, (inject_Z R).
  intros a b r. ring.
Qed.

(** The value [decode_fraction] returns, for every byte string. *)
Lemma decode_fraction_round (bs : list byte) :
  let L := Z.of_nat (8 * length bs) in
  (num2Q (decode_fraction bs)
     == inject_Z (round (be_uint bs) L) / inject_Z (2 ^ L))%Q.
Proof.
  intros L. unfold decode_fraction, sum.
  pose proof (sum_bits_round (flat_map format_08b bs) (bits_Forall bs)
                0 0 (NInt 0)) as H.
  destruct H as (R & c & _ & Hq & _ & Hc & _ & HW).
  - lia.
  - cbn. lia.
  - exists 0, 0. repeat split; try reflexivity; cbn; lia.
  - rewrite bits_value, length_bits in *.
    change (fold_left (fun a b => a * 256 + byte_val b) bs 0)
      with (be_uint bs) in *.
    rewrite Z.add_0_l in *. fold L in Hc, HW.
    change (0 + 1) with 1 in Hq. rewrite Hq.
    rewrite <- HW. apply F2Q_scaled; lia.
Qed.

End Rounded.

(** C9, as stated, fails: seven bytes [0xFF] hold 56 one-bits; the 54th
    addition of the running double-precision sum, [1 - 2^-53 + 2^-54],
    rounds to even, which is 1.0, and the result stays 1.0: outside
    [0, 1). *)
Lemma decode_fraction_reaches_one :
  num2Q (decode_fraction [xff; xff; xff; xff; xff; xff; xff]) == 1.
Proof. vm_compute. reflexivity. Qed.

(** C9, amended: for every byte sequence the result lies in the closed
    interval [0, 1] and is non-decreasing in the big-endian pattern of
    equal-length inputs, and the all-zero byte sequence of any length
    decodes to exactly 0.  For at most six bytes (48 bits, within the 53
    a double holds) the result is exactly the pattern divided by
    [2 ^ (8 * length)], hence below 1, and the order is strict. *)
Theorem decode_fraction_range_monotone (bs bs' : list byte) (n : nat) :
  length bs' = length bs →
  (0 <= num2Q (decode_fraction bs) <= 1)%Q
  ∧ (be_uint bs <= be_uint bs' →
     (num2Q (decode_fraction bs) <= num2Q (decode_fraction bs'))%Q)
  ∧ (num2Q (decode_fraction (repeat x00 n)) == 0)%Q
  ∧ ((length bs <= 6)%nat →
     (num2Q (decode_fraction bs)
        == inject_Z (be_uint bs) / inject_Z (2 ^ Z.of_nat (8 * length bs)))%Q
     ∧ (num2Q (decode_fraction bs) < 1)%Q
     ∧ (be_uint bs <= be_uint bs'
        ↔ (num2Q (decode_fraction bs) <= num2Q (decode_fraction bs'))%Q)
     ∧ (be_uint bs < be_uint bs'
        ↔ (num2Q (decode_fraction bs) < num2Q (decode_fraction bs'))%Q)).
Proof.
  intros Hlen'.
  set (L := Z.of_nat (8 * length bs)).
  assert (HP : 0 < 2 ^ L) by (apply Z.pow_pos_nonneg; lia).
  assert (HPQ : (0 < inject_Z (2 ^ L))%Q) by (rewrite <- (Zlt_Qlt 0); exact HP).
  assert (HP256 : 256 ^ Z.of_nat (length bs) = 2 ^ L).
  { unfold L. rewrite Nat2Z.inj_mul, Z.pow_mul_r by lia. reflexivity. }
  pose proof (be_uint_range bs) as Hr.
  pose proof (be_uint_range bs') as Hr'.
  rewrite Hlen', HP256 in Hr'. rewrite HP256 in Hr.
  pose proof (decode_fraction_round bs) as Hv. fold L in Hv. cbv zeta in Hv.
  pose proof (decode_fraction_round bs') as Hv'.
  rewrite Hlen' in Hv'. fold L in Hv'. cbv zeta in Hv'.
  assert (Hdiv_le : ∀ a b : Z, a <= b →
            (inject_Z a / inject_Z (2 ^ L) <= inject_Z b / inject_Z (2 ^ L))%Q).
  { intros a b Hab. unfold Qdiv.
    apply Qmult_le_compat_r; [now rewrite <- Zle_Qle|].
    apply Qlt_le_weak, Qinv_lt_0_compat, HPQ. }
  split; [|split; [|split]].
  - rewrite Hv. split.
    + apply Qle_shift_div_l; [exact HPQ|].
      rewrite Qmult_0_l, <- (Zle_Qle 0).
      apply round_nonneg. lia.
    + apply Qle_shift_div_r; [exact HPQ|].
      rewrite Qmult_1_l, <- Zle_Qle.
      apply round_le_pow2; lia.
  - intros Hle. rewrite Hv, Hv'. apply Hdiv_le, round_mono. lia.
  - apply decode_fraction_zeros.
  - intros Hlen.
    assert (Hex : ∀ l : list byte, length l = length bs →
              Rounding.round (be_uint l) L = be_uint l).
    { intros l Hl. pose proof (be_uint_range l) as Hrl.
      rewrite Hl, HP256 in Hrl.
      assert (2 ^ L <= 2 ^ 53) by (apply Z.pow_le_mono_r; unfold L; lia).
      apply round_exact; [lia|unfold L; lia]. }
    rewrite (Hex bs eq_refl) in Hv. rewrite (Hex bs' Hlen') in Hv'.
    split; [exact Hv|].
    split; [rewrite Hv; apply Qlt_shift_div_r; [exact HPQ|];
            rewrite Qmult_1_l, <- Zlt_Qlt; lia|].
    rewrite Hv, Hv'. unfold Qdiv. split; split.
    + apply Hdiv_le.
    + intros H. apply Qmult_le_r in H; [now rewrite Zle_Qle|].
      apply Qinv_lt_0_compat, HPQ.
    + intros H. apply Qmult_lt_r; [apply Qinv_lt_0_compat, HPQ|].
      now rewrite <- Zlt_Qlt.
    + intros H. apply Qmult_lt_r in H; [now rewrite Zlt_Qlt|].
      apply Qinv_lt_0_compat, HPQ.
Qed.

Lemma decode_fraction_range_monotone_witness :
  (num2Q (decode_fraction [x80; x00]) == 1 # 2)%Q
  ∧ (num2Q (decode_fraction [x80; x00])
     < num2Q (decode_fraction [xc0; x00]))%Q
  ∧ (num2Q (decode_fraction [xff; xff; xff; xff; xff; xff; xfe; x00])
     <= num2Q (decode_fraction [xff; xff; xff; xff; xff; xff; xff; x00]))%Q
  ∧ (num2Q (decode_fraction [xff; xff; xff; xff; xff; xff; xff; x00])
     <= 1)%Q.
Proof.
  destruct (decode_fraction_range_monotone [x80; x00] [xc0; x00] 1 eq_refl)
    as (_ & _ & _ & Hshort).
  destruct Hshort as (Hv & _ & _ & Hlt); [cbn; lia|].
  destruct (decode_fraction_range_monotone
              [xff; xff; xff; xff; xff; xff; xfe; x00]
              [xff; xff; xff; xff; xff; xff; xff; x00] 1 eq_refl)
    as (_ & Hmono & _).
  destruct (decode_fraction_range_monotone
              [xff; xff; xff; xff; xff; xff; xff; x00]
              [xff; xff; xff; xff; xff; xff; xff; x00] 1 eq_refl)
    as ([_ Hone] & _).
  split; [rewrite Hv; vm_compute; reflexivity|].
  split; [apply Hlt; vm_compute; reflexivity|].
  split; [apply Hmono; vm_compute; discriminate|exact Hone].
Defined.

(* ================================================================== *)
(** * The block readers on an open file *)
(* ================================================================== *)

Section Readers.

Variable utc_valid : Z → Z → Z → Z → Z → bool.

Lemma open_run (file : list byte) (p : parser) :
  open file p
  = (Ok (), reading file (header_block p) (traceh_list p) (traces_data p)).
Proof. reflexivity. Qed.

Lemma read_run (n : Z) (u hb : list byte) tl td :
  0 <= n →
  read n (reading u hb tl td)
  = (Ok (take (Z.to_nat n) u), reading (drop (Z.to_nat n) u) hb tl td).
Proof.
  intros Hn. unfold read, reading. cbn.
  destruct (Z.ltb_spec n 0); [lia|reflexivity].
Qed.

Lemma _read_general_hdr1_run (u hb : list byte) tl td :
  _read_general_hdr1 utc_valid (reading u hb tl td)
  = (decode_general_hdr1 utc_valid (take 32 u),
     reading (drop 32 u) (hb ++ take 32 u) tl td).
Proof. reflexivity. Qed.

Lemma _read_general_hdr2_run (u hb : list byte) tl td :
  _read_general_hdr2 (reading u hb tl td)
  = (decode_general_hdr2 (take 32 u),
     reading (drop 32 u) (hb ++ take 32 u) tl td).
Proof. reflexivity. Qed.

Lemma _read_general_hdr3_run (u hb : list byte) tl td :
  _read_general_hdr3 (reading u hb tl td)
  = (decode_general_hdr3 (take 32 u),
     reading (drop 32 u) (hb ++ take 32 u) tl td).
Proof. reflexivity. Qed.

Lemma _read_sch_run (u hb : list byte) tl td :
  _read_sch (reading u hb tl td)
  = (decode_sch (take 32 u), reading (drop 32 u) (hb ++ take 32 u) tl td).
Proof. reflexivity. Qed.

Lemma _read_traceh_run (u hb : list byte) tl td :
  _read_traceh (reading u hb tl td)
  = (decode_traceh (take 20 u), reading (drop 20 u) hb (tl ++ [take 20 u]) td).
Proof. reflexivity. Qed.

Lemma decode_general_hdr1_unsupported (buf : list byte) :
  decode_bcd (slice 2 4 buf) ≠ Ok 8058 →
  decode_general_hdr1 utc_valid buf = Raise SEGDNotImplemented.
Proof.
  intros H. unfold decode_general_hdr1.
  rewrite !decode_bcd_value in *. cbn [mbind result_bind].
  destruct (Z.eqb_spec (digits_value (nibbles (slice 2 4 buf))) 8058) as [E|E];
    [rewrite E in H; congruence|reflexivity].
Qed.

End Readers.

(* ================================================================== *)
(** * Unsupported format codes (C1) *)
(* ================================================================== *)

(** C1: when the format code of general header #1 is not 8058,
    [read_segd] raises [SEGDNotImplemented], having read the 32 bytes of
    general header #1 and nothing after them: the rest of the file is
    unread, and only those 32 bytes were captured. *)
Theorem unsupported_format_stops_decode utc_valid (file : list byte) (p : parser) :
  decode_bcd (slice 2 4 file) ≠ Ok 8058 →
  read_segd utc_valid file p
  = (Raise SEGDNotImplemented,
     reading (drop 32 file) (header_block p ++ take 32 file)
             (traceh_list p) (traces_data p)).
Proof.
  intros H.
  unfold read_segd, read_headers, read_general_headers.
  unfold mbind, M_bind. rewrite open_run, _read_general_hdr1_run.
  rewrite decode_general_hdr1_unsupported; [reflexivity|].
  now rewrite slice_take by lia.
Qed.

Lemma unsupported_format_stops_decode_witness :
  read_segd (fun _ _ _ _ _ => true) (repeat x00 40) init
  = (Raise SEGDNotImplemented, reading (repeat x00 8) (repeat x00 32) [] None).
Proof.
  apply (unsupported_format_stops_decode (fun _ _ _ _ _ => true) (repeat x00 40) init).
  vm_compute. discriminate.
Defined.

(* ================================================================== *)
(** * Closing the stream (C4) *)
(* ================================================================== *)

(** C4, on the code: the only [close] of [read_segd] is the statement
    after the trace loop, and no handler runs it when a reader raises.
    For a file of 32 zero bytes general header #1 is rejected and the
    exception leaves [read_segd] with the stream still open. *)
Theorem read_segd_failure_leaves_stream_open utc_valid :
  read_segd utc_valid (repeat x00 32) init
  = (Raise SEGDNotImplemented,
     {| byte_stream := Some {| unread := []; closed := false |};
        header_block := repeat x00 32;
        traceh_list := [];
        traces_data := None |}).
Proof. reflexivity. Qed.

(* ================================================================== *)
(** * The scan type table (C3) *)
(* ================================================================== *)

Section ScanTable.

Lemma bytes_sum_acc (buf : list byte) (acc : Z) :
  fold_left (fun a b => a + byte_val b) buf acc = acc + bytes_sum buf.
Proof.
  unfold bytes_sum. revert acc.
  induction buf as [|b buf IH]; intros acc; cbn [fold_left]; [lia|].
  rewrite IH, (IH (0 + byte_val b)). lia.
Qed.

Lemma bytes_sum_nonneg (buf : list byte) : 0 <= bytes_sum buf.
Proof.
  induction buf as [|b buf IH]; [reflexivity|].
  unfold bytes_sum. cbn [fold_left]. rewrite bytes_sum_acc.
  pose proof (byte_val_range b). lia.
Qed.

Lemma bytes_sum_all_zero (buf : list byte) :
  (bytes_sum buf =? 0) = all_zero buf.
Proof.
  induction buf as [|b buf IH]; [reflexivity|].
  unfold bytes_sum. cbn [fold_left all_zero forallb]. rewrite bytes_sum_acc.
  fold (all_zero buf). rewrite <- IH.
  pose proof (byte_val_range b). pose proof (bytes_sum_nonneg buf).
  destruct (Z.eqb_spec (byte_val b) 0), (Z.eqb_spec (bytes_sum buf) 0);
    cbn [andb]; apply Z.eqb_neq || apply Z.eqb_eq; lia.
Qed.

Lemma decode_sch_empty (buf : list byte) :
  all_zero buf = true → decode_sch buf = Raise SEGDScanTypeError.
Proof.
  intros H. unfold decode_sch. now rewrite bytes_sum_all_zero, H.
Qed.

Lemma decode_sch_non_empty (buf : list byte) :
  length buf = 32%nat → all_zero buf = false →
  ∃ d, decode_sch buf = Ok d
       ∧ (getitem d "channel_set_number" ≫= as_int)
         = Ok (channel_set_number_of buf).
Proof.
  intros Hlen H. unfold decode_sch. rewrite bytes_sum_all_zero, H.
  destruct (index_lt 10 buf) as (b10 & _ & H10); [lia|].
  destruct (index_lt 11 buf) as (b11 & _ & H11); [lia|].
  destruct (index_lt 28 buf) as (b28 & _ & H28); [lia|].
  repeat decode_step.
  rewrite decode_bin_length.
  assert (Hr : (length (rev (slice 6 8 buf)) <= 4)%nat).
  { rewrite length_rev. pose proof (length_slice_le 6 8 buf). lia. }
  destruct (Nat.leb_spec (length (rev (slice 6 8 buf))) 4); [|lia].
  cbn [mbind result_bind mret result_ret].
  repeat decode_step.
  eexists. split; reflexivity.
Qed.

Lemma read_sch_table_run (blocks : list (list byte)) :
  Forall (fun b => length b = 32%nat) blocks →
  ∀ (ns : list nat) (sch0 : gmap Z odict) (rest hb : list byte) tl td,
    length ns = length blocks →
    ∃ sch,
      read_sch_table ns sch0 (reading (concat blocks ++ rest) hb tl td)
      = (Ok sch, reading rest (hb ++ concat blocks) tl td)
      ∧ dom sch
        = dom sch0 ∪ list_to_set (map channel_set_number_of
                                      (non_empty_blocks blocks)).
Proof.
  induction 1 as [|b blocks Hb Hbs IH]; intros ns sch0 rest hb tl td Hns.
  - destruct ns; [|discriminate]. exists sch0. cbn.
    rewrite app_nil_r. split; [reflexivity|]. set_solver.
  - destruct ns as [|n ns]; [discriminate|]. cbn [length] in Hns.
    apply Nat.succ_inj in Hns.
    cbn [concat read_sch_table]. unfold mbind at 1, M_bind, try_scan_type.
    rewrite _read_sch_run.
    rewrite <- app_assoc, take_app_length', drop_app_length' by (symmetry; exact Hb).
    unfold non_empty_blocks. cbn [List.filter].
    destruct (all_zero b) eqn:Hz; cbn [negb].
    + rewrite decode_sch_empty by exact Hz.
      destruct (IH ns sch0 rest (hb ++ b) tl td Hns) as (sch & Hrun & Hdom).
      exists sch. rewrite Hrun, <- app_assoc. split; [reflexivity|exact Hdom].
    + destruct (decode_sch_non_empty b Hb Hz) as (d & -> & Hk).
      unfold mbind at 1, M_bind, lift. rewrite Hk.
      destruct (IH ns (<[channel_set_number_of b := d]> sch0) rest (hb ++ b) tl td Hns)
        as (sch & Hrun & Hdom).
      exists sch. rewrite Hrun, <- app_assoc. split; [reflexivity|].
      rewrite Hdom, dom_insert_L. cbn [map list_to_set].
      fold (non_empty_blocks blocks). set_solver.
Qed.

Lemma size_list_to_set_le (l : list Z) :
  (size (list_to_set l : gset Z) <= length l)%nat.
Proof.
  induction l as [|x l IH]; cbn [list_to_set length].
  - now rewrite size_empty.
  - rewrite size_union_alt, size_singleton.
    assert (size (list_to_set l ∖ {[x]} : gset Z) <= size (list_to_set l : gset Z))%nat
      by (apply subseteq_size; set_solver).
    lia.
Qed.

Lemma length_non_empty_blocks (blocks : list (list byte)) :
  length (non_empty_blocks blocks)
  = (length blocks - length (List.filter all_zero blocks))%nat.
Proof.
  unfold non_empty_blocks.
  pose proof (List.filter_length all_zero blocks). lia.
Qed.

End ScanTable.

(** C3, as stated, fails: the table is keyed by [channel_set_number], so
    two non-empty blocks that carry the same number leave one entry.
    Here N = 2 blocks, M = 0 all-zero blocks, and the table has 1 entry. *)
Lemma scan_table_duplicate_number :
  let b1 := [x01; x07] ++ repeat x00 30 in
  let b2 := [x02; x07] ++ repeat x00 30 in
  length (List.filter all_zero [b1; b2]) = 0%nat ∧
  ∃ sch p,
    read_sch_table (range 2) ∅ (reading (b1 ++ b2) [] [] None) = (Ok sch, p)
    ∧ size sch = 1%nat.
Proof.
  cbv zeta. split; [reflexivity|].
  destruct (read_sch_table (range 2) ∅
              (reading (([x01; x07] ++ repeat x00 30) ++ [x02; x07] ++ repeat x00 30)
                       [] [] None)) as [[sch|e] p] eqn:E.
  - exists sch, p. split; [reflexivity|].
    revert E. vm_compute. intros [= <- _]. reflexivity.
  - exfalso. revert E. vm_compute. discriminate.
Qed.

(** C3, amended: when the stream holds the N declared 32-byte scan type
    blocks, of which M are all zero, the loop reads exactly these N blocks
    without error, skips the all-zero ones, and the table holds one entry
    per distinct channel set number among the N-M others: at most N-M
    entries, and exactly N-M when those numbers are pairwise distinct. *)
Theorem scan_table_entries (blocks : list (list byte)) (rest hb : list byte)
    (tl : list (list byte)) (td : option (list (list Z))) :
  Forall (fun b => length b = 32%nat) blocks →
  let N := length blocks in
  let M := length (List.filter all_zero blocks) in
  ∃ sch,
    read_sch_table (range (Z.of_nat N)) ∅
                   (reading (concat blocks ++ rest) hb tl td)
    = (Ok sch, reading rest (hb ++ concat blocks) tl td)
    ∧ dom sch
      = list_to_set (map channel_set_number_of (non_empty_blocks blocks))
    ∧ (size sch <= N - M)%nat
    ∧ (NoDup (map channel_set_number_of (non_empty_blocks blocks)) →
       size sch = (N - M)%nat).
Proof.
  intros Hb N M.
  destruct (read_sch_table_run blocks Hb (range (Z.of_nat N)) ∅ rest hb tl td)
    as (sch & Hrun & Hdom).
  { unfold range. rewrite length_seq, Nat2Z.id. reflexivity. }
  exists sch. split; [exact Hrun|].
  rewrite dom_empty_L, union_empty_l_L in Hdom.
  split; [exact Hdom|].
  rewrite <- size_dom, Hdom.
  pose proof (length_non_empty_blocks blocks) as Hlen. fold N M in Hlen.
  split.
  - rewrite <- Hlen, <- (length_map channel_set_number_of).
    apply size_list_to_set_le.
  - intros Hnd. rewrite size_list_to_set by exact Hnd.
    now rewrite length_map.
Qed.

Lemma scan_table_entries_witness :
  ∃ sch,
    read_sch_table (range 3) ∅
      (reading (([x01; x01] ++ repeat x00 30) ++ repeat x00 32
                ++ ([x01; x02] ++ repeat x00 30) ++ [xaa])
               [] [] None)
    = (Ok sch, reading [xaa]
                 (([x01; x01] ++ repeat x00 30) ++ repeat x00 32
                  ++ ([x01; x02] ++ repeat x00 30)) [] None)
    ∧ size sch = 2%nat.
Proof.
  assert (Hb : Forall (fun b : list byte => length b = 32%nat)
                 [[x01; x01] ++ repeat x00 30; repeat x00 32;
                  [x01; x02] ++ repeat x00 30])
    by (repeat constructor).
  destruct (scan_table_entries _ [xaa] [] [] None Hb) as (sch & Hrun & _ & _ & Hsize).
  exists sch. split; [exact Hrun|].
  apply Hsize. vm_compute.
  apply NoDup_cons_2; [|apply NoDup_singleton].
  intros H%list_elem_of_singleton. discriminate H.
Defined.

(* ================================================================== *)
(** * Trace header extensions (C2) *)
(* ================================================================== *)

Section TraceBlock.

Lemma decode_traceh_extension_count (hdr : list byte) :
  ∃ th, decode_traceh hdr = Ok th
        ∧ (getitem th "trace_header_extension" ≫= as_int)
          = Ok (be_uint (slice 9 10 hdr)).
Proof.
  unfold decode_traceh. repeat decode_step. eexists. split; reflexivity.
Qed.

Lemma extension_decoders_total (n : nat) (buf : list byte) :
  (n < 7)%nat → length buf = 32%nat →
  ∃ decode d, extension_decoders !! n = Some decode ∧ decode buf = Ok d.
Proof.
  intros Hn Hlen.
  destruct n as [|[|[|[|[|[|[|n]]]]]]]; [..|lia];
    (eexists; eexists; split; [reflexivity|]).
  - unfold decode_traceh_eb1. repeat decode_step. reflexivity.
  - unfold decode_traceh_eb2. repeat decode_step. reflexivity.
  - unfold decode_traceh_eb3. repeat decode_step. reflexivity.
  - unfold decode_traceh_eb4. repeat decode_step. reflexivity.
  - unfold decode_traceh_eb5. repeat decode_step. reflexivity.
  - unfold decode_traceh_eb6. repeat decode_step. reflexivity.
  - unfold decode_traceh_eb7. repeat decode_step. reflexivity.
Qed.

Lemma _read_traceh_eb_lookup (n : nat) :
  _read_traceh_eb !! n = read_traceh_eb <$> (extension_decoders !! n).
Proof. destruct n as [|[|[|[|[|[|[|n]]]]]]]; reflexivity. Qed.

Lemma read_traceh_eb_run (decode : list byte → result odict)
    (u hb cap : list byte) tl td :
  read_traceh_eb decode (reading u hb (tl ++ [cap]) td)
  = (decode (take 32 u), reading (drop 32 u) hb (tl ++ [cap ++ take 32 u]) td).
Proof.
  unfold read_traceh_eb. unfold mbind, M_bind.
  rewrite read_run by lia.
  unfold traceh_list_extend_last, reading. cbn [traceh_list].
  rewrite last_snoc, removelast_last. reflexivity.
Qed.

(** The extension loop over a stream that holds the declared blocks. *)
Lemma read_extensions_run (exts : list (list byte)) :
  Forall (fun e => length e = 32%nat) exts →
  ∀ (n : nat) (traceh : odict) (rest hb cap : list byte) tl td,
    (n + length exts <= 7)%nat →
    ∃ ds,
      decode_extensions n exts = Ok ds
      ∧ read_extensions (seq n (length exts)) traceh
          (reading (concat exts ++ rest) hb (tl ++ [cap]) td)
        = (Ok (fold_left od_update ds traceh),
           reading rest hb (tl ++ [cap ++ concat exts]) td).
Proof.
  induction 1 as [|e exts He Hes IH]; intros n traceh rest hb cap tl td Hn.
  - exists []. cbn. rewrite app_nil_r. split; reflexivity.
  - cbn [length] in Hn.
    destruct (extension_decoders_total n e) as (decode & d & Hdec & Hd);
      [lia|exact He|].
    destruct (IH (S n) (od_update traceh d) rest hb (cap ++ e) tl td)
      as (ds & Hds & Hrun); [lia|].
    exists (d :: ds). split.
    + cbn [decode_extensions]. rewrite Hdec, Hd. cbn [mbind result_bind].
      rewrite Hds. reflexivity.
    + cbn [length seq read_extensions concat].
      rewrite _read_traceh_eb_lookup, Hdec. cbn [fmap option_fmap option_map].
      unfold mbind at 1, M_bind. rewrite read_traceh_eb_run.
      rewrite <- app_assoc, take_app_length', drop_app_length'
        by (symmetry; exact He).
      rewrite Hd, Hrun, <- app_assoc. reflexivity.
Qed.

End TraceBlock.

(** C2: for a trace whose 20-byte header declares [k] extensions, [k] at
    most 7, followed by the [k] 32-byte blocks, the reader decodes the
    blocks in order with the layouts of extension #1 .. #k, merges them
    into the trace header in that order, captures the header and exactly
    these blocks, and has consumed nothing further when it turns to the
    samples: the sample read starts at the first byte after block #k. *)
Theorem trace_block_reads_declared_extensions (size : Z)
    (hdr : list byte) (exts : list (list byte)) (rest hb : list byte)
    (tl : list (list byte)) (td : option (list (list Z))) :
  length hdr = 20%nat →
  Forall (fun e => length e = 32%nat) exts →
  (length exts <= 7)%nat →
  be_uint (slice 9 10 hdr) = Z.of_nat (length exts) →
  ∃ th ds,
    decode_traceh hdr = Ok th
    ∧ decode_extensions 0 exts = Ok ds
    ∧ _read_trace_data_block size (reading (hdr ++ concat exts ++ rest) hb tl td)
      = match _read_trace_data size
                (reading rest hb (tl ++ [hdr ++ concat exts]) td) with
        | (Ok data, p) => (Ok (fold_left od_update ds th, data), p)
        | (Raise e, p) => (Raise e, p)
        end.
Proof.
  intros Hhdr Hexts Hk Hdecl.
  destruct (decode_traceh_extension_count hdr) as (th & Hth & Hcount).
  destruct (read_extensions_run exts Hexts 0 th rest hb hdr tl td)
    as (ds & Hds & Hrun); [lia|].
  exists th, ds. split; [exact Hth|]. split; [exact Hds|].
  unfold _read_trace_data_block. unfold mbind at 1, M_bind.
  rewrite _read_traceh_run.
  rewrite take_app_length', drop_app_length' by (symmetry; exact Hhdr).
  rewrite Hth. unfold mbind at 1, M_bind, lift. rewrite Hcount, Hdecl.
  unfold range. rewrite Nat2Z.id.
  unfold mbind at 1, M_bind. rewrite Hrun.
  unfold mbind at 1, M_bind.
  destruct (_read_trace_data size _) as [[data|e] p]; reflexivity.
Qed.

Lemma trace_block_reads_declared_extensions_witness :
  ∃ th ds,
    decode_traceh ([x00; x01; x01; x01; x00; x01; x00; x00; x00; x03]
                   ++ repeat x00 10) = Ok th
    ∧ decode_extensions 0 [repeat x01 32; repeat x02 32; repeat x03 32]
      = Ok ds
    ∧ od_keys (fold_left od_update ds th)
      = od_keys th
        ++ ["receiver_line_number"; "receiver_point_number";
            "receiver_point_index"; "number_of_samples_per_trace";
            "receiver_point_easting"; "receiver_point_northing";
            "receiver_point_elevation"; "sensor_type_number";
            "DSD_identification_number"; "extended_trace_number";
            "resistance_low_limit"; "resistance_high_limit";
            "resistance_calue_in_ohms"; "tilt_limit"; "tilt_value";
            "resistance_error"; "tilt_error"]%string
    ∧ _read_trace_data_block 1
        (reading (([x00; x01; x01; x01; x00; x01; x00; x00; x00; x03]
                   ++ repeat x00 10)
                  ++ concat [repeat x01 32; repeat x02 32; repeat x03 32]
                  ++ [x3f; x80; x00; x00; xee])
                 [] [] None)
      = (Ok (fold_left od_update ds th, [1065353216]),
         reading [xee] []
           [([x00; x01; x01; x01; x00; x01; x00; x00; x00; x03]
             ++ repeat x00 10)
            ++ concat [repeat x01 32; repeat x02 32; repeat x03 32]]
           None).
Proof.
  destruct (trace_block_reads_declared_extensions 1
              ([x00; x01; x01; x01; x00; x01; x00; x00; x00; x03] ++ repeat x00 10)
              [repeat x01 32; repeat x02 32; repeat x03 32]
              [x3f; x80; x00; x00; xee] [] [] None)
    as (th & ds & Hth & Hds & Hrun).
  - reflexivity.
  - repeat constructor.
  - cbn. lia.
  - reflexivity.
  - exists th, ds. split; [exact Hth|]. split; [exact Hds|]. split.
    + revert Hth Hds. vm_compute. intros [= <-] [= <-]. reflexivity.
    + rewrite Hrun. reflexivity.
Defined.

(* ================================================================== *)
(** * The header section and the external header length (C5) *)
(* ================================================================== *)

Section Headers.

Variable utc_valid : Z → Z → Z → Z → Z → bool.

(** A successful bind: both halves succeeded. *)
Lemma M_bind_ok {A B} (m : M A) (f : A → M B) (p p' : parser) (b : B) :
  (m ≫= f) p = (Ok b, p') →
  ∃ a p1, m p = (Ok a, p1) ∧ f a p1 = (Ok b, p').
Proof.
  unfold mbind, M_bind. destruct (m p) as [[a|e] p1]; [eauto|discriminate].
Qed.

Lemma lift_ok {A} (r : result A) (p p' : parser) (a : A) :
  lift r p = (Ok a, p') → r = Ok a ∧ p' = p.
Proof. unfold lift. intros [= -> ->]. auto. Qed.

Lemma slice_singleton (i : nat) (buf : list byte) (b : byte) :
  buf !! i = Some b → slice i (S i) buf = [b].
Proof.
  intros H. unfold slice. replace (S i - i)%nat with 1%nat by lia.
  revert i H. induction buf as [|c buf IH]; intros [|i] H; try discriminate.
  - cbn in *. now injection H as ->.
  - cbn [drop]. apply IH. exact H.
Qed.

Lemma slice_drop {A} (a b n : nat) (buf : list A) :
  slice a b (drop n buf) = slice (n + a) (n + b) buf.
Proof.
  unfold slice. rewrite drop_drop. f_equal. lia.
Qed.

(** What a successful decode of general header #1 stores. *)
Lemma decode_general_hdr1_ok (buf : list byte) (g : odict) :
  decode_general_hdr1 utc_valid buf = Ok g →
  getitem g "n_channel_sets_per_record"
    = Ok (VInt (digits_value (nibbles (slice 28 29 buf))))
  ∧ getitem g "extended_header_length"
    = Ok (VInt (digits_value (nibbles (slice 30 31 buf))))
  ∧ getitem g "external_header_length"
    = Ok (let _ehl := digits_value (nibbles (slice 31 32 buf)) in
          if _ehl =? 255 then VNone else VInt _ehl)
  ∧ od_keys g
    = ["file_number"; "format_code"; "general_constants";
       "n_additional_blocks"; "time"; "manufacture_code";
       "manufacture_serial_number"; "bytes_per_scan";
       "base_scan_interval_in_ms"; "polarity"; "record_length";
       "scan_type_per_record"; "n_channel_sets_per_record";
       "n_sample_skew_32bit_extensions"; "extended_header_length";
       "external_header_length"]%string.
Proof.
  unfold decode_general_hdr1.
  repeat decode_step.
  destruct (negb _); [discriminate|].
  repeat decode_step.
  destruct (mapM decode_bcd_int _) as [gc|]; [|discriminate].
  cbn [mbind result_bind]. repeat decode_step.
  destruct (index 11 buf) as [b11|] eqn:H11; [|discriminate].
  cbn [mbind result_bind].
  destruct (bcd b11) as [[nb jd]|]; [|discriminate].
  cbn [mbind result_bind]. repeat decode_step.
  destruct (UTCDateTime _ _ _ _ _ _) as [time|]; [|discriminate].
  cbn [mbind result_bind]. repeat decode_step.
  match goal with
  | |- context [mbind _ (if ?c then ?x else ?y)] =>
      destruct (if c then x else y) as [bsi|]; [|discriminate]
  end.
  cbn [mbind result_bind].
  destruct (index 23 buf) as [b23|] eqn:H23; [|discriminate].
  cbn [mbind result_bind].
  destruct (bcd b23) as [[pol ?]|]; [|discriminate].
  cbn [mbind result_bind].
  destruct (index 25 buf) as [b25|] eqn:H25; [|discriminate].
  cbn [mbind result_bind].
  destruct (bcd b25) as [[rt rl]|]; [|discriminate].
  cbn [mbind result_bind]. repeat decode_step.
  intros [= <-]. repeat split; reflexivity.
Qed.

Lemma decode_general_hdr2_ok (buf : list byte) (g : odict) :
  decode_general_hdr2 buf = Ok g →
  getitem g "external_header_blocks" = Ok (VInt (be_uint (slice 7 9 buf)))
  ∧ od_keys g
    = ["expanded_file_number"; "external_header_blocks";
       "segd_revision_number"; "no_blocks_of_general_trailer";
       "extended_record_length_in_ms";
       "general_header_block_number"]%string.
Proof.
  unfold decode_general_hdr2. repeat decode_step.
  destruct (ord (slice 10 11 buf)) as [r|]; [|discriminate].
  cbn [mbind result_bind].
  destruct (ord (slice 11 12 buf)) as [o|]; [|discriminate].
  cbn [mbind result_bind]. repeat decode_step.
  intros [= <-]. split; reflexivity.
Qed.

Lemma decode_general_hdr3_ok (buf : list byte) (g : odict) :
  decode_general_hdr3 buf = Ok g →
  od_keys g
  = ["expanded_file_number"; "source_line_number"; "source_point_number";
     "phase_control"; "vibrator_type"; "phase_angle";
     "general_header_block_number"; "source_set_number"]%string.
Proof.
  unfold decode_general_hdr3. repeat decode_step.
  intros [= <-]. reflexivity.
Qed.

Lemma od_get_set (k k' : string) (v : value) (d : odict) :
  od_get k' (od_set k v d) = if String.eqb k k' then Some v else od_get k' d.
Proof.
  induction d as [|[k1 v1] d IH]; cbn [od_set od_get].
  - reflexivity.
  - destruct (String.eqb_spec k1 k) as [->|Hne]; cbn [od_get].
    + now destruct (String.eqb k k').
    + destruct (String.eqb_spec k1 k') as [->|Hne'].
      * destruct (String.eqb_spec k k'); [congruence|reflexivity].
      * exact IH.
Qed.

Lemma od_get_absent (k : string) (d : odict) :
  k ∉ od_keys d → od_get k d = None.
Proof.
  induction d as [|[k1 v1] d IH]; cbn [od_keys map fst od_get]; [reflexivity|].
  intros H. apply not_elem_of_cons in H as [Hne Hd].
  destruct (String.eqb_spec k1 k); [congruence|]. now apply IH.
Qed.

(** [d.update(d2)] leaves the keys that [d2] does not have. *)
Lemma od_get_update_absent (k : string) (d d2 : odict) :
  k ∉ od_keys d2 → od_get k (od_update d d2) = od_get k d.
Proof.
  unfold od_update. revert d.
  induction d2 as [|[k1 v1] d2 IH]; intros d H; cbn [fold_left fst snd].
  - reflexivity.
  - cbn [od_keys map fst] in H. apply not_elem_of_cons in H as [Hne Hd].
    rewrite IH by exact Hd. rewrite od_get_set.
    destruct (String.eqb_spec k1 k); [congruence|reflexivity].
Qed.

(** [d.update(d2)] takes the value of [d2] for a key of [d2]. *)
Lemma od_get_update_present (k : string) (v : value) (d d2 : odict) :
  NoDup (od_keys d2) → od_get k d2 = Some v →
  od_get k (od_update d d2) = Some v.
Proof.
  unfold od_update. revert d.
  induction d2 as [|[k1 v1] d2 IH]; intros d Hnd H; [discriminate|].
  cbn [fold_left fst snd]. cbn [od_keys map fst] in Hnd.
  apply NoDup_cons in Hnd as [Hk1 Hnd]. cbn [od_get] in H.
  destruct (String.eqb_spec k1 k) as [->|Hne].
  - injection H as ->.
    change (fold_left _ d2 ?x) with (od_update x d2).
    rewrite od_get_update_absent by exact Hk1.
    rewrite od_get_set. now rewrite String.eqb_refl.
  - now apply IH.
Qed.

Lemma getitem_get (d : odict) (k : string) (v : value) :
  getitem d k = Ok v ↔ od_get k d = Some v.
Proof.
  unfold getitem. destruct (od_get k d); split; intros [= ->]; reflexivity.
Qed.

Lemma _read_extended_header_run (size : Z) (u hb : list byte) tl td :
  0 <= size →
  _read_extended_header size (reading u hb tl td)
  = (decode_extended_header (take (Z.to_nat size) u),
     reading (drop (Z.to_nat size) u) (hb ++ take (Z.to_nat size) u) tl td).
Proof.
  intros H. unfold _read_extended_header. unfold mbind, M_bind.
  rewrite read_run by exact H. reflexivity.
Qed.

Lemma _read_external_header_run (size : Z) (u hb : list byte) tl td :
  0 <= size →
  _read_external_header size (reading u hb tl td)
  = (Ok (of_asc (decode_asc (take (Z.to_nat size) u))),
     reading (drop (Z.to_nat size) u) (hb ++ take (Z.to_nat size) u) tl td).
Proof.
  intros H. unfold _read_external_header. unfold mbind, M_bind.
  rewrite read_run by exact H. reflexivity.
Qed.

(** The scan type loop, when it succeeds, has read 32 bytes per
    iteration, whatever they hold. *)
Lemma read_sch_table_ok (ns : list nat) :
  ∀ (sch0 sch : gmap Z odict) (u hb : list byte) tl td (p : parser),
    read_sch_table ns sch0 (reading u hb tl td) = (Ok sch, p) →
    p = reading (drop (32 * length ns) u)
                (hb ++ take (32 * length ns) u) tl td.
Proof.
  induction ns as [|n ns IH]; intros sch0 sch u hb tl td p.
  - cbn. intros [= _ <-]. now rewrite app_nil_r.
  - cbn [read_sch_table]. unfold mbind at 1, M_bind, try_scan_type.
    rewrite _read_sch_run.
    assert (Hfin : ∀ s, read_sch_table ns s
                          (reading (drop 32 u) (hb ++ take 32 u) tl td)
                        = (Ok sch, p) →
              p = reading (drop (32 * length (n :: ns)) u)
                          (hb ++ take (32 * length (n :: ns)) u) tl td).
    { intros s Hs. apply IH in Hs. rewrite Hs.
      rewrite drop_drop, <- app_assoc, take_take_drop. cbn [length].
      replace (32 + 32 * length ns)%nat with (32 * S (length ns))%nat by lia.
      reflexivity. }
    destruct (decode_sch (take 32 u)) as [d|e].
    + unfold mbind at 1, M_bind, lift.
      destruct (getitem d "channel_set_number" ≫= as_int) as [k|]; [|discriminate].
      apply Hfin.
    + destruct e; try discriminate. apply Hfin.
Qed.

Lemma digits_value_nonneg (ds : list Z) :
  Forall (fun d => 0 <= d <= 15) ds → 0 <= digits_value ds.
Proof.
  induction 1 as [|d ds Hd _ IH]; cbn [digits_value]; [lia|].
  assert (0 < 10 ^ Z.of_nat (length ds)) by (apply Z.pow_pos_nonneg; lia).
  nia.
Qed.

End Headers.

(** The general headers and the scan type table, when they decode: what
    the merged general header holds, and where the stream stands. *)
Lemma read_general_headers_ok utc_valid (file hb : list byte) tl td
    (generalh : odict) (sch : gmap Z odict) (p : parser) :
  read_general_headers utc_valid (reading file hb tl td)
  = (Ok (generalh, sch), p) →
  let ncs := digits_value (nibbles (slice 28 29 file)) in
  let _ehl := digits_value (nibbles (slice 31 32 file)) in
  getitem generalh "extended_header_length"
    = Ok (VInt (digits_value (nibbles (slice 30 31 file))))
  ∧ getitem generalh "external_header_length"
    = Ok (if _ehl =? 255 then VNone else VInt _ehl)
  ∧ getitem generalh "external_header_blocks"
    = Ok (VInt (be_uint (slice 39 41 file)))
  ∧ p = reading (drop (Z.to_nat (96 + 32 * ncs)) file)
                (hb ++ take (Z.to_nat (96 + 32 * ncs)) file) tl td.
Proof.
  intros Hrun ncs _ehl. unfold read_general_headers in Hrun.
  apply M_bind_ok in Hrun as (g1 & p1 & H1 & Hrun).
  rewrite _read_general_hdr1_run in H1. injection H1 as H1 <-.
  apply M_bind_ok in Hrun as (g2 & p2 & H2 & Hrun).
  rewrite _read_general_hdr2_run in H2. injection H2 as H2 <-.
  apply M_bind_ok in Hrun as (g3 & p3 & H3 & Hrun).
  rewrite _read_general_hdr3_run in H3. injection H3 as H3 <-.
  apply M_bind_ok in Hrun as (n & p4 & Hn & Hrun).
  apply lift_ok in Hn as [Hn ->].
  apply M_bind_ok in Hrun as (sch' & p5 & Hsch & Hrun).
  injection Hrun as <- <- <-.
  apply decode_general_hdr1_ok in H1 as (Hncs & Hxl & Hel & Hk1).
  apply decode_general_hdr2_ok in H2 as (Hblocks & Hk2).
  apply decode_general_hdr3_ok in H3 as Hk3.
  rewrite !slice_take in Hncs, Hxl, Hel by lia.
  rewrite slice_take, slice_drop in Hblocks by lia. cbn [Nat.add] in Hblocks.
  assert (Hg1 : ∀ k v, getitem g1 k = Ok v →
                 k ∉ od_keys g2 → k ∉ od_keys g3 →
                 getitem (od_update (od_update g1 g2) g3) k = Ok v).
  { intros k v Hv Hn2 Hn3. apply getitem_get. apply getitem_get in Hv.
    now rewrite !od_get_update_absent. }
  assert (Hin : ∀ k (l : list string), bool_decide (k ∉ l) = true → k ∉ l)
    by (intros k l; apply bool_decide_eq_true_1).
  split; [|split; [|split]].
  - apply Hg1; [exact Hxl| |]; rewrite ?Hk2, ?Hk3; apply Hin; reflexivity.
  - apply Hg1; [exact Hel| |]; rewrite ?Hk2, ?Hk3; apply Hin; reflexivity.
  - apply getitem_get. rewrite od_get_update_absent
      by (rewrite Hk3; apply Hin; reflexivity).
    apply od_get_update_present; [|now apply getitem_get].
    rewrite Hk2. apply (bool_decide_unpack _). reflexivity.
  - rewrite (Hg1 _ _ Hncs) in Hn
      by (rewrite ?Hk2, ?Hk3; apply Hin; reflexivity).
    cbn [mbind result_bind as_int] in Hn. injection Hn as <-.
    apply read_sch_table_ok in Hsch. rewrite Hsch.
    unfold range. rewrite length_seq.
    rewrite <- !app_assoc, !take_take_drop, !drop_drop.
    fold ncs.
    assert (0 <= ncs) by apply digits_value_nonneg, nibbles_range.
    unfold reading. do 3 f_equal; f_equal; lia.
Qed.

(** C5: when byte 31 of general header #1 is [0xFF] and the headers
    decode, the external header length is taken from the field
    [external_header_blocks] of general header #2 (bytes 39-40 of the
    file), and the external header read consumes that many 32-byte blocks
    after the extended header (as many of them as the file still holds). *)
Theorem external_header_length_overflow utc_valid (file hb : list byte)
    (tl : list (list byte)) (td : option (list (list Z)))
    (generalh : odict) (sch : gmap Z odict) (extdh : odict) (extrh : value)
    (p : parser) :
  file !! 31%nat = Some xff →
  read_headers utc_valid (reading file hb tl td)
  = (Ok (generalh, sch, extdh, extrh), p) →
  let ncs := digits_value (nibbles (slice 28 29 file)) in
  let ehl := digits_value (nibbles (slice 30 31 file)) in
  let blocks := be_uint (slice 39 41 file) in
  let start := Z.to_nat (96 + 32 * ncs + 32 * ehl) in
  let stop := Z.to_nat (96 + 32 * ncs + 32 * ehl + 32 * blocks) in
  getitem generalh "external_header_blocks" = Ok (VInt blocks)
  ∧ external_header_size generalh = Ok (blocks * 32)
  ∧ extrh = of_asc (decode_asc (slice start stop file))
  ∧ p = reading (drop stop file) (hb ++ take stop file) tl td.
Proof.
  intros Hff Hrun ncs ehl blocks start stop. unfold read_headers in Hrun.
  apply M_bind_ok in Hrun as ([g sch'] & p1 & Hgen & Hrun).
  apply read_general_headers_ok in Hgen as (Hxl & Hel & Hblocks & ->).
  fold ncs ehl blocks in Hxl, Hblocks |- *.
  assert (0 <= ncs) by apply digits_value_nonneg, nibbles_range.
  rewrite (slice_singleton 31 file xff Hff) in Hel.
  change (digits_value (nibbles [xff])) with 165 in Hel. cbn [Z.eqb] in Hel.
  cbv zeta in Hel. change (165 =? 255) with false in Hel. cbv iota in Hel.
  assert (Hsize : external_header_size g = Ok (blocks * 32)).
  { unfold external_header_size. rewrite Hel. cbn [mbind result_bind eq_int].
    change (165 =? 165) with true. cbv iota. rewrite Hblocks. reflexivity. }
  assert (0 <= ehl).
  { apply digits_value_nonneg, nibbles_range. }
  assert (0 <= blocks) by apply be_uint_range.
  apply M_bind_ok in Hrun as (x & p2 & Hx & Hrun).
  apply lift_ok in Hx as [Hx ->].
  rewrite Hxl in Hx. cbn [mbind result_bind as_int] in Hx. injection Hx as <-.
  apply M_bind_ok in Hrun as (extdh' & p3 & Hext & Hrun).
  rewrite _read_extended_header_run in Hext by lia. injection Hext as Hext <-.
  apply M_bind_ok in Hrun as (size & p4 & Hs & Hrun).
  apply lift_ok in Hs as [Hs ->]. rewrite Hsize in Hs. injection Hs as <-.
  apply M_bind_ok in Hrun as (extrh' & p5 & Hxr & Hrun).
  rewrite _read_external_header_run in Hxr by lia. injection Hxr as <- <-.
  injection Hrun as <- <- <- <- <-.
  split; [exact Hblocks|]. split; [exact Hsize|].
  split.
  - change (slice start stop file) with (take (stop - start) (drop start file)).
    rewrite !drop_drop.
    replace (stop - start)%nat with (Z.to_nat (blocks * 32))
      by (unfold stop, start; lia).
    fold ncs. do 4 f_equal. unfold start. lia.
  - rewrite <- !app_assoc, !take_take_drop, !drop_drop.
    fold ncs. unfold reading. do 3 f_equal; f_equal; unfold stop, start; lia.
Qed.

Lemma external_header_length_overflow_witness :
  ∃ generalh sch extdh,
    read_headers Examples.utc_valid
                 (reading Examples.overflow_headers [] [] None)
    = (Ok (generalh, sch, extdh,
           VStr "A"),
       reading [xee] (take 1216 Examples.overflow_headers) [] None)
    ∧ external_header_size generalh = Ok 64.
Proof.
  destruct (read_headers Examples.utc_valid
              (reading Examples.overflow_headers [] [] None))
    as [[[[[generalh sch] extdh] extrh]|e] p] eqn:E.
  - destruct (external_header_length_overflow Examples.utc_valid
                Examples.overflow_headers [] [] None generalh sch extdh extrh p
                eq_refl E) as (_ & Hsize & -> & ->).
    exists generalh, sch, extdh. split; [reflexivity|exact Hsize].
  - exfalso. revert E. vm_compute. discriminate.
Defined.

(* ================================================================== *)
(** * The integer-representability flag (C10) *)
(* ================================================================== *)

Section Matrix.

Lemma mod_1_eq_0_whole (bits : Z) :
  Numpy.mod_1_eq_0 bits = true ↔ whole bits.
Proof.
  unfold Numpy.mod_1_eq_0, whole.
  destruct (F32.to_Q bits) as [q|]; split.
  - intros H. apply Qeq_bool_iff in H.
    exists q, (Qfloor q). split; [reflexivity|]. lra.
  - intros (q' & z & [= <-] & Hz). apply Qeq_bool_iff.
    assert (Hf : Qfloor q = z) by (rewrite Hz; apply Qfloor_Z).
    rewrite Hf. lra.
  - discriminate.
  - intros (q' & z & [=] & _).
Qed.

Lemma all_mod_1_whole (l : list Z) :
  Numpy.all (map Numpy.mod_1_eq_0 l) = true ↔ Forall whole l.
Proof.
  unfold Numpy.all. induction l as [|x l IH]; cbn [map forallb].
  - split; [constructor|reflexivity].
  - unfold id at 1. rewrite andb_true_iff, IH, mod_1_eq_0_whole.
    split; [intros []; now constructor|inversion 1; auto].
Qed.

Lemma fromstring_length (tmp : list byte) (l : list Z) :
  fromstring tmp = Ok l → (4 * length l = length tmp)%nat.
Proof.
  revert l. induction tmp as [tmp IH] using (induction_ltof1 _ (@length _)).
  unfold ltof in IH. intros l.
  destruct tmp as [|b0 [|b1 [|b2 [|b3 rest]]]]; cbn [fromstring];
    try discriminate.
  - intros [= <-]. reflexivity.
  - destruct (fromstring rest) as [l'|] eqn:E; [|discriminate].
    intros [= <-]. cbn [length].
    assert (Hlt : (length rest < length (b0 :: b1 :: b2 :: b3 :: rest))%nat)
      by (cbn [length]; lia).
    pose proof (IH rest Hlt l' E). lia.
Qed.

Lemma _read_trace_data_length (size : Z) (p p' : parser) (l : list Z) :
  0 <= size → _read_trace_data size p = (Ok l, p') →
  (length l <= Z.to_nat size)%nat.
Proof.
  intros Hs H. unfold _read_trace_data in H.
  apply M_bind_ok in H as (tmp & p1 & Hread & H).
  apply lift_ok in H as [H _]. apply fromstring_length in H.
  unfold read in Hread.
  destruct (byte_stream p) as [s|]; [|discriminate].
  destruct (closed s); [discriminate|].
  destruct (Z.ltb_spec (size * 4) 0); [lia|].
  injection Hread as <- _.
  rewrite length_take in H. lia.
Qed.

Lemma _read_trace_data_block_length (size : Z) (p p' : parser)
    (traceh : odict) (l : list Z) :
  0 <= size → _read_trace_data_block size p = (Ok (traceh, l), p') →
  (length l <= Z.to_nat size)%nat.
Proof.
  intros Hs H. unfold _read_trace_data_block in H.
  apply M_bind_ok in H as (th & p1 & _ & H).
  apply M_bind_ok in H as (k & p2 & _ & H).
  apply M_bind_ok in H as (th' & p3 & _ & H).
  apply M_bind_ok in H as (l' & p4 & Hd & H).
  injection H as _ <- _.
  eapply _read_trace_data_length; eauto.
Qed.

(** The trace loop: one trace per iteration; the flag is the
    conjunction of the tests on the arrays read. *)
Lemma read_traces_ok (ns : list nat) (size : Z) generalh sch extdh extrh
    sample_rate :
  0 <= size →
  ∀ (st0 st : list trace) (c0 c : bool) (p p' : parser),
    read_traces ns size generalh sch extdh extrh sample_rate st0 c0 p
    = (Ok (st, c), p') →
    ∃ new,
      st = st0 ++ new
      ∧ length new = length ns
      ∧ Forall (fun tr => (length (data tr) <= Z.to_nat size)%nat) new
      ∧ (c = true ↔ c0 = true ∧ Forall (fun tr => Forall whole (data tr)) new).
Proof.
  intros Hs. induction ns as [|n ns IH]; intros st0 st c0 c p p' H.
  - injection H as <- <- _. exists []. rewrite app_nil_r.
    repeat split; auto. now intros [].
  - cbn [read_traces] in H.
    apply M_bind_ok in H as ([traceh l] & p1 & Hblock & H).
    apply _read_trace_data_block_length in Hblock; [|exact Hs].
    apply M_bind_ok in H as (rate & p2 & _ & H).
    apply M_bind_ok in H as (starttime & p3 & _ & H).
    apply M_bind_ok in H as (segd & p4 & _ & H).
    apply IH in H as (new & -> & Hlen & Hbound & Hflag).
    eexists (_ :: new). rewrite <- app_assoc. split; [reflexivity|].
    split; [cbn [length]; now rewrite Hlen|].
    split; [constructor; [exact Hblock|exact Hbound]|].
    rewrite Hflag, andb_true_iff, all_mod_1_whole, Forall_cons.
    cbn [data]. tauto.
Qed.

(** What a successful decode of the extended header stores for the
    trace count and the trace length. *)
Lemma decode_extended_header_ok (buf : list byte) (extdh : odict) :
  decode_extended_header buf = Ok extdh →
  getitem extdh "total_number_of_traces"
    = Ok (VInt (be_uint (slice 8 12 buf)))
  ∧ getitem extdh "number_of_samples_in_trace"
    = Ok (VInt (be_uint (slice 32 36 buf))).
Proof.
  intros H. unfold decode_extended_header in H.
  invert_binds H. injection H as <-.
  resolve_decode_bin. split; reflexivity.
Qed.

Lemma setitem_row_ok (m m' : list (list Z)) (cols i : nat) (arr : list Z) :
  Numpy.setitem_row m cols i arr = Ok m' →
  (i < length m)%nat
  ∧ ∃ row, m' = <[i := row]> m
           ∧ ((length arr = cols ∧ row = arr)
              ∨ ∃ x, arr = [x] ∧ row = repeat x cols).
Proof.
  unfold Numpy.setitem_row.
  destruct (Nat.ltb_spec i (length m)) as [Hi|]; [|discriminate].
  destruct (Nat.eqb_spec (length arr) cols) as [Hc|Hc].
  - intros [= <-]. split; [exact Hi|]. exists arr. auto.
  - destruct arr as [|x [|y arr]]; try discriminate.
    intros [= <-]. split; [exact Hi|]. exists (repeat x cols). eauto.
Qed.

(** The rows written by the assignment loop, one per trace, from row
    [i] on; the other rows are untouched. *)
Lemma assigned_rows_ok (cols : nat) (st : list trace) :
  ∀ (i : nat) (m m' : list (list Z)),
    assigned_rows cols i st m = Ok m' →
    length m' = length m
    ∧ (∀ j, (j < i)%nat → m' !! j = m !! j)
    ∧ (∀ j, (i + length st <= j)%nat → m' !! j = m !! j)
    ∧ ∀ k tr, st !! k = Some tr →
        ∃ row, m' !! (i + k)%nat = Some row
               ∧ ((length (data tr) = cols ∧ row = data tr)
                  ∨ ∃ x, data tr = [x] ∧ row = repeat x cols).
Proof.
  induction st as [|tr st IH]; intros i m m' H.
  - injection H as <-. repeat split; auto. intros k tr [=].
  - cbn [assigned_rows] in H.
    destruct (Numpy.setitem_row m cols i (data tr)) as [m1|] eqn:E;
      [|discriminate].
    cbn [mbind result_bind] in H.
    apply setitem_row_ok in E as (Hi & row & -> & Hrow).
    apply IH in H as (Hlen & Hlow & Hhigh & Hrows).
    rewrite length_insert in Hlen.
    split; [exact Hlen|]. split; [|split].
    + intros j Hj. rewrite Hlow by lia. apply list_lookup_insert_ne. lia.
    + intros j Hj. cbn [length] in Hj. rewrite Hhigh by lia.
      apply list_lookup_insert_ne. lia.
    + intros [|k] tr' Hk.
      * injection Hk as <-. exists row. split; [|exact Hrow].
        rewrite Nat.add_0_r, Hlow by lia.
        now apply list_lookup_insert_eq.
      * destruct (Hrows k tr' Hk) as (row' & Hr & Hok).
        exists row'. split; [|exact Hok].
        rewrite <- Hr. f_equal. lia.
Qed.

(** The assignment loop on the object: it leaves the stream and the
    captures alone, and the matrix it leaves is the one [assigned_rows]
    computes when no assignment is refused. *)
Lemma assign_rows_inv (cols : nat) (st : list trace) :
  ∀ (i : nat) (p p' : parser) (m : list (list Z)) (r : result ()),
    traces_data p = Some m →
    assign_rows cols i st p = (r, p') →
    byte_stream p' = byte_stream p
    ∧ header_block p' = header_block p
    ∧ traceh_list p' = traceh_list p
    ∧ match r with
      | Ok _ => ∃ m', assigned_rows cols i st m = Ok m'
                      ∧ traces_data p' = Some m'
      | Raise e => assigned_rows cols i st m = Raise e
                   ∧ ∃ m', traces_data p' = Some m'
      end.
Proof.
  induction st as [|tr st IH]; intros i p p' m r Hp H.
  - injection H as <- <-. cbn [assigned_rows]. eauto 6.
  - cbn [assign_rows assigned_rows] in *.
    unfold mbind at 1, M_bind, traces_data_setitem in H. rewrite Hp in H.
    destruct (Numpy.setitem_row m cols i (data tr)) as [m1|e1] eqn:E.
    + cbn [mbind result_bind].
      eapply IH in H; [|reflexivity]. exact H.
    + injection H as <- <-. cbn [mbind result_bind]. eauto 6.
Qed.

Lemma Forall_whole_row (cols : nat) (d row : list Z) :
  (length d <= cols)%nat →
  (length d = cols ∧ row = d) ∨ (∃ x, d = [x] ∧ row = repeat x cols) →
  Forall whole row ↔ Forall whole d.
Proof.
  intros Hlen [[_ ->]|(x & -> & ->)]; [reflexivity|].
  cbn [length] in Hlen. destruct cols as [|cols]; [lia|].
  cbn [repeat]. split.
  - inversion 1; subst. repeat constructor. assumption.
  - inversion 1; subst. constructor; [assumption|].
    apply Forall_forall. intros y Hy%list_elem_of_In%repeat_spec. now subst.
Qed.

(** The assembled matrix holds whole numbers only exactly when the
    arrays of the traces do. *)
Lemma assembled_whole (cols : nat) (st : list trace) (m m' : list (list Z)) :
  assigned_rows cols 0 st m = Ok m' →
  length m = length st →
  Forall (fun tr => (length (data tr) <= cols)%nat) st →
  Forall (Forall whole) m' ↔ Forall (fun tr => Forall whole (data tr)) st.
Proof.
  intros H Hm Hbound.
  apply assigned_rows_ok in H as (Hlen & _ & _ & Hrows).
  rewrite !Forall_lookup. split.
  - intros Hall k tr Hk.
    destruct (Hrows k tr Hk) as (row & Hr & Hok).
    apply (Forall_whole_row cols _ row);
      [exact (proj1 (Forall_lookup _ _) Hbound k tr Hk)|exact Hok|].
    exact (Hall _ _ Hr).
  - intros Hall j row Hj.
    assert (Hjlt : (j < length st)%nat).
    { apply lookup_lt_Some in Hj. lia. }
    destruct (lookup_lt_is_Some_2 st j Hjlt) as [tr Htr].
    destruct (Hrows j tr Htr) as (row' & Hr & Hok).
    cbn [Nat.add] in Hr. rewrite Hj in Hr. injection Hr as <-.
    apply (Forall_whole_row cols (data tr) row);
      [exact (proj1 (Forall_lookup _ _) Hbound j tr Htr)|exact Hok|].
    exact (Hall _ _ Htr).
Qed.

End Matrix.

(** C10: after a successful decode, the flag [convert_to_int] is true
    exactly when every sample of every trace is a whole number, and
    exactly when every entry of the assembled matrix [traces_data] is;
    the matrix has one row per trace. *)
Theorem convert_to_int_iff_whole utc_valid (file : list byte)
    (p p' : parser) (st : list trace) (convert_to_int : bool) :
  read_segd utc_valid file p = (Ok (st, convert_to_int), p') →
  ∃ m,
    traces_data p' = Some m
    ∧ length m = length st
    ∧ (convert_to_int = true
       ↔ Forall (fun tr => Forall whole (data tr)) st)
    ∧ (convert_to_int = true ↔ Forall (Forall whole) m).
Proof.
  intros H. unfold read_segd in H.
  apply M_bind_ok in H as ([] & p0 & _ & H).
  apply M_bind_ok in H as ([[[generalh sch] extdh] extrh] & p1 & Hhdr & H).
  apply M_bind_ok in H as (sr & p2 & _ & H).
  apply M_bind_ok in H as (sample_rate & p3 & _ & H).
  apply M_bind_ok in H as (npts & p4 & Hnpts & H).
  apply M_bind_ok in H as (ntr & p5 & Hntr & H).
  apply M_bind_ok in H as ([st' c] & p6 & Hloop & H).
  apply M_bind_ok in H as ([] & p7 & _ & H).
  apply M_bind_ok in H as ([] & p8 & Hset & H).
  apply M_bind_ok in H as ([] & p9 & Hm & H).
  injection H as <- <- <-.
  injection Hset as <-.
  eapply assign_rows_inv in Hm as (_ & _ & _ & m & Hm & Hset);
    [|reflexivity].
  apply lift_ok in Hnpts as [Hnpts _]. apply lift_ok in Hntr as [Hntr _].
  (* the extended header gives non-negative sizes *)
  assert (Hext : ∃ buf, decode_extended_header buf = Ok extdh).
  { unfold read_headers in Hhdr.
    apply M_bind_ok in Hhdr as ([g s] & q1 & _ & Hhdr).
    apply M_bind_ok in Hhdr as (ehl & q2 & _ & Hhdr).
    apply M_bind_ok in Hhdr as (extdh' & q3 & Hx & Hhdr).
    apply M_bind_ok in Hhdr as (size & q4 & _ & Hhdr).
    apply M_bind_ok in Hhdr as (extrh' & q5 & _ & Hhdr).
    injection Hhdr as _ _ <- _ _.
    unfold _read_extended_header in Hx.
    apply M_bind_ok in Hx as (buf & q6 & _ & Hx).
    apply M_bind_ok in Hx as ([] & q7 & _ & Hx).
    apply lift_ok in Hx as [Hx _]. eauto. }
  destruct Hext as (buf & Hext).
  apply decode_extended_header_ok in Hext as (Hgt & Hgn).
  rewrite Hgn in Hnpts. injection Hnpts as <-.
  rewrite Hgt in Hntr. injection Hntr as <-.
  pose proof (be_uint_range (slice 32 36 buf)) as [Hn0 _].
  apply read_traces_ok in Hloop as (new & -> & Hlen & Hbound & Hflag);
    [|exact Hn0].
  cbn [app] in *.
  unfold range in Hlen. rewrite length_seq in Hlen.
  exists m. split; [|split; [|split]].
  - exact Hset.
  - apply assigned_rows_ok in Hm as (Hl & _). rewrite Hl.
    unfold Numpy.zeros. rewrite repeat_length. now rewrite Hlen.
  - rewrite Hflag. tauto.
  - rewrite Hflag.
    rewrite (assembled_whole _ _ _ _ Hm); [tauto| |exact Hbound].
    unfold Numpy.zeros. rewrite repeat_length. now rewrite Hlen.
Qed.

Lemma convert_to_int_iff_whole_witness :
  (∃ st p,
     read_segd Examples.utc_valid
       (Examples.record Examples.samples_whole Examples.samples_whole) init
     = (Ok (st, true), p)
     ∧ traces_data p
       = Some [[1065353216; 1073741824; 1077936128];
               [1065353216; 1073741824; 1077936128]]
     ∧ Forall (fun tr => Forall whole (data tr)) st)
  ∧ (∃ st p,
       read_segd Examples.utc_valid
         (Examples.record Examples.samples_whole Examples.samples_fractional)
         init
       = (Ok (st, false), p)
       ∧ traces_data p
         = Some [[1065353216; 1073741824; 1077936128];
                 [1065353216; 1073741824; 1075838976]]
       ∧ ¬ Forall (fun tr => Forall whole (data tr)) st).
Proof.
  split.
  - destruct (read_segd Examples.utc_valid
                (Examples.record Examples.samples_whole Examples.samples_whole)
                init) as [[[st c]|e] p] eqn:E.
    + destruct (convert_to_int_iff_whole _ _ _ _ _ _ E) as (m & Hm & _ & Hst & _).
      assert (Hc : c = true) by (revert E; vm_compute; now intros [= _ <- _]).
      assert (Hd : traces_data p
                   = Some [[1065353216; 1073741824; 1077936128];
                           [1065353216; 1073741824; 1077936128]])
        by (revert E; vm_compute; now intros [= _ _ <-]).
      subst c. exists st, p. split; [reflexivity|]. split; [exact Hd|].
      now apply Hst.
    + exfalso. revert E. vm_compute. discriminate.
  - destruct (read_segd Examples.utc_valid
                (Examples.record Examples.samples_whole
                                 Examples.samples_fractional)
                init) as [[[st c]|e] p] eqn:E.
    + destruct (convert_to_int_iff_whole _ _ _ _ _ _ E) as (m & Hm & _ & Hst & _).
      assert (Hc : c = false) by (revert E; vm_compute; now intros [= _ <- _]).
      assert (Hd : traces_data p
                   = Some [[1065353216; 1073741824; 1077936128];
                           [1065353216; 1073741824; 1075838976]])
        by (revert E; vm_compute; now intros [= _ _ <-]).
      subst c. exists st, p. split; [reflexivity|]. split; [exact Hd|].
      intros Hall. apply Hst in Hall. discriminate.
    + exfalso. revert E. vm_compute. discriminate.
Defined.

(* ================================================================== *)
(** * Further properties of the primitive decoders *)
(* ================================================================== *)

Section DecoderExtra.

Lemma byte_val_inj (a b : byte) : byte_val a = byte_val b → a = b.
Proof.
  unfold byte_val. intros H. apply N2Z.inj in H.
  pose proof (Byte.of_to_N a) as Ha. rewrite H, Byte.of_to_N in Ha.
  now injection Ha.
Qed.

Lemma be_uint_inj (a b : list byte) :
  length a = length b → be_uint a = be_uint b → a = b.
Proof.
  revert b. induction a as [|x a IH]; intros [|y b] Hlen H; try discriminate.
  - reflexivity.
  - cbn [length] in Hlen. apply Nat.succ_inj in Hlen.
    rewrite !be_uint_cons, Hlen in H.
    pose proof (be_uint_range a) as Ha. pose proof (be_uint_range b) as Hb.
    rewrite Hlen in Ha.
    pose proof (byte_val_range x). pose proof (byte_val_range y).
    assert (byte_val x = byte_val y) by nia.
    f_equal; [now apply byte_val_inj|]. apply IH; [exact Hlen|nia].
Qed.

Lemma be_uint_zero (bs : list byte) : (be_uint bs =? 0) = all_zero bs.
Proof.
  induction bs as [|b bs IH]; [reflexivity|].
  rewrite be_uint_cons. cbn [all_zero forallb]. fold (all_zero bs).
  rewrite <- IH.
  pose proof (byte_val_range b). pose proof (be_uint_range bs).
  assert (0 < 256 ^ Z.of_nat (length bs)) by (apply Z.pow_pos_nonneg; lia).
  destruct (Z.eqb_spec (byte_val b) 0) as [E|E],
           (Z.eqb_spec (be_uint bs) 0) as [E'|E']; cbn [andb];
    apply Z.eqb_eq || apply Z.eqb_neq; nia.
Qed.

Lemma iter_contains_found (x : Z) (it it' : list Z) :
  iter_contains x it = (true, it') → ∃ pre, it = pre ++ x :: it'.
Proof.
  induction it as [|y it IH]; cbn [iter_contains]; [discriminate|].
  destruct (Z.eqb_spec y x) as [->|Hne].
  - intros [= <-]. now exists [].
  - intros H. destruct (IH H) as (pre & ->). now exists (y :: pre).
Qed.

Lemma iter_contains_missing (x : Z) (it it' : list Z) :
  iter_contains x it = (false, it') → it' = [] ∧ x ∉ it.
Proof.
  induction it as [|y it IH]; cbn [iter_contains].
  - intros [= <-]. split; [reflexivity|]. apply not_elem_of_nil.
  - destruct (Z.eqb_spec y x) as [->|Hne]; [discriminate|].
    intros H. destruct (IH H) as [-> Hn]. split; [reflexivity|].
    apply not_elem_of_cons. split; [congruence|exact Hn].
Qed.

(** The bytes [decode_asc] keeps are a subsequence of the input, and their
    code points are a subsequence of the remaining iterator. *)
Lemma decode_asc_loop_sublist (bs : list byte) :
  ∀ it : list Z,
    decode_asc_loop bs it `sublist_of` bs
    ∧ map byte_val (decode_asc_loop bs it) `sublist_of` it.
Proof.
  induction bs as [|b bs IH]; intros it; cbn [decode_asc_loop].
  - split; [constructor|apply sublist_nil_l].
  - destruct (iter_contains (byte_val b) it) as [[|] it'] eqn:E.
    + apply iter_contains_found in E as (pre & ->).
      destruct (IH it') as [H1 H2]. split.
      * now apply sublist_skip.
      * cbn [map]. apply sublist_inserts_l. now apply sublist_skip.
    + destruct (IH it') as [H1 H2]. split.
      * now apply sublist_cons.
      * apply iter_contains_missing in E as [-> _].
        apply sublist_nil_r in H2. rewrite H2. apply sublist_nil_l.
Qed.

Lemma fleb_spec (x y : float) : fleb x y = true ↔ (F2Q x <= F2Q y)%Q.
Proof.
  unfold fleb, F2Q. destruct x as [mx ex], y as [my ey]. cbn [fm fe].
  set (e := Z.min ex ey).
  assert (Hx : (2 ^ ex == inject_Z (2 ^ (ex - e)) * 2 ^ e)%Q).
  { rewrite (Zpower_Qpower 2) by lia.
    change (inject_Z 2) with 2%Q.
    rewrite <- Qpower_plus by discriminate. now replace (ex - e + e) with ex by lia. }
  assert (Hy : (2 ^ ey == inject_Z (2 ^ (ey - e)) * 2 ^ e)%Q).
  { rewrite (Zpower_Qpower 2) by lia.
    change (inject_Z 2) with 2%Q.
    rewrite <- Qpower_plus by discriminate. now replace (ey - e + e) with ey by lia. }
  assert (Hp : (0 < 2 ^ e)%Q) by (apply Qpower_0_lt; reflexivity).
  rewrite Hx, Hy, !Qmult_assoc, <- !inject_Z_mult.
  rewrite Z.leb_le, Zle_Qle. split; intros H.
  - apply Qmult_le_compat_r; [exact H|now apply Qlt_le_weak].
  - apply Qmult_le_r in H; [exact H|exact Hp].
Qed.

Lemma num_geb_int (r : num) (k : Z) :
  0 <= k < 2 ^ 53 → num_geb r (NInt k) = true ↔ (inject_Z k <= num2Q r)%Q.
Proof.
  intros Hk. destruct r as [x|f]; cbn [num_geb num2Q].
  - rewrite Z.leb_le, Zle_Qle. reflexivity.
  - rewrite fleb_spec. cbn [to_float]. unfold of_int.
    rewrite rnd_exact by lia. unfold F2Q at 1. cbn [fm fe].
    change (2 ^ 0)%Q with 1%Q. now rewrite Qmult_1_r.
Qed.

End DecoderExtra.

(** The text [decode_asc] returns is never empty; its characters are a
    subsequence of the input and, in code points, a subsequence of
    [string.printable] in that constant's own order, so no character
    occurs twice in it. *)
Theorem decode_asc_subsequence (bs : list byte) (s : string) :
  decode_asc bs = Some s →
  let kept := String.list_byte_of_string s in
  kept ≠ []
  ∧ kept `sublist_of` bs
  ∧ map byte_val kept `sublist_of` string_printable
  ∧ NoDup kept.
Proof.
  intros H. cbv zeta. unfold decode_asc in H.
  destruct (decode_asc_loop_sublist bs string_printable) as [H1 H2].
  destruct (decode_asc_loop bs string_printable) as [|b l] eqn:E; [discriminate|].
  injection H as <-.
  rewrite String.list_byte_of_string_of_list_byte.
  split; [discriminate|]. split; [exact H1|]. split; [exact H2|].
  apply (NoDup_fmap_1 byte_val).
  apply (sublist_NoDup _ string_printable); [|exact H2].
  apply (bool_decide_unpack _). vm_compute. exact I.
Qed.

Lemma decode_asc_subsequence_witness :
  String.list_byte_of_string "0aA " `sublist_of`
    String.list_byte_of_string "0aA A0"
  ∧ NoDup (String.list_byte_of_string "0aA ").
Proof.
  assert (H : decode_asc (String.list_byte_of_string "0aA A0")
              = Some "0aA "%string) by reflexivity.
  destruct (decode_asc_subsequence _ _ H) as (_ & H1 & _ & H2).
  split; [exact H1|exact H2].
Defined.

(** [decode_bin] is injective on byte strings of equal length (at most
    four bytes), and padding the input with zero bytes on the left up to
    four bytes does not change the result. *)
Theorem decode_bin_injective (a b : list byte) :
  (length a <= 4)%nat → length a = length b →
  (decode_bin a = decode_bin b → a = b)
  ∧ decode_bin (repeat x00 (4 - length a) ++ a) = decode_bin a.
Proof.
  intros Ha Hlen. split.
  - rewrite !decode_bin_length, <- Hlen.
    destruct (Nat.leb_spec (length a) 4); [|lia].
    intros [= Heq]. now apply be_uint_inj.
  - rewrite !decode_bin_length, length_app, repeat_length.
    destruct (Nat.leb_spec (length a) 4); [|lia].
    destruct (Nat.leb_spec (4 - length a + length a) 4); [|lia].
    now rewrite be_uint_zeros.
Qed.

Lemma decode_bin_injective_witness :
  (decode_bin [x01; x00] = decode_bin [x00; x01] → [x01; x00] = [x00; x01])
  ∧ decode_bin [x00; x00; x01; x00] = decode_bin [x01; x00].
Proof.
  destruct (decode_bin_injective [x01; x00] [x00; x01]) as [H1 H2].
  - cbn. lia.
  - reflexivity.
  - split; [exact H1|exact H2].
Defined.

(** [decode_bin_bool] is true exactly when some byte of its (at most
    four-byte) input is not zero. *)
Theorem decode_bin_bool_nonzero (bs : list byte) :
  decode_bin_bool bs
  = if (length bs <=? 4)%nat then Ok (negb (all_zero bs))
    else Raise StructError.
Proof.
  unfold decode_bin_bool. rewrite decode_bin_length.
  destruct (length bs <=? 4)%nat; [|reflexivity].
  cbn [mbind result_bind mret result_ret]. f_equal.
  rewrite <- be_uint_zero. pose proof (be_uint_range bs).
  destruct (Z.ltb_spec 0 (be_uint bs)), (Z.eqb_spec (be_uint bs) 0);
    cbn [negb]; (reflexivity || lia).
Qed.

(** [band_code] maps a sample rate to its band by the thresholds 1000,
    250, 80 and 10 Hz, and gives no code below 10 Hz, for an integer or a
    floating-point rate alike. *)
Theorem band_code_thresholds (r : num) :
  (band_code r = Some "G"%string ↔ (1000 <= num2Q r)%Q)
  ∧ (band_code r = Some "D"%string ↔ (250 <= num2Q r < 1000)%Q)
  ∧ (band_code r = Some "E"%string ↔ (80 <= num2Q r < 250)%Q)
  ∧ (band_code r = Some "S"%string ↔ (10 <= num2Q r < 80)%Q)
  ∧ (band_code r = None ↔ (num2Q r < 10)%Q).
Proof.
  pose proof (num_geb_int r 1000 ltac:(lia)) as H1.
  pose proof (num_geb_int r 250 ltac:(lia)) as H2.
  pose proof (num_geb_int r 80 ltac:(lia)) as H3.
  pose proof (num_geb_int r 10 ltac:(lia)) as H4.
  change (inject_Z 1000) with 1000%Q in H1.
  change (inject_Z 250) with 250%Q in H2.
  change (inject_Z 80) with 80%Q in H3.
  change (inject_Z 10) with 10%Q in H4.
  unfold band_code.
  destruct (num_geb r (NInt 1000)), (num_geb r (NInt 250)),
           (num_geb r (NInt 80)), (num_geb r (NInt 10));
    repeat split; intros; try discriminate; try reflexivity;
    repeat match goal with
           | H : true = true ↔ _ |- _ => apply proj1 in H; specialize (H eq_refl)
           | H : false = true ↔ _ |- _ =>
               apply proj2 in H;
               assert (¬ _) by (let X := fresh in intro X; apply H in X; discriminate X);
               clear H
           | H : _ ∧ _ |- _ => destruct H
           end; lra.
Qed.

(* ================================================================== *)
(** * What every method keeps of the parser object *)
(* ================================================================== *)

Section Preservation.

Import Inv.

Lemma preserves_ret {A} (P : parser → Prop) (a : A) : preserves P (mret a).
Proof. intros p r p' HP [= _ <-]. exact HP. Qed.

Lemma preserves_lift {A} (P : parser → Prop) (x : result A) :
  preserves P (lift x).
Proof. intros p r p' HP [= _ <-]. exact HP. Qed.

Lemma preserves_bind {A B} (P : parser → Prop) (m : M A) (f : A → M B) :
  preserves P m → (∀ a, preserves P (f a)) → preserves P (m ≫= f).
Proof.
  intros Hm Hf p r p' HP. unfold mbind, M_bind.
  destruct (m p) as [[a|e] p1] eqn:E.
  - intros H. exact (Hf a p1 r p' (Hm p _ p1 HP E) H).
  - intros [= _ <-]. exact (Hm p _ p1 HP E).
Qed.

Lemma preserves_try_scan_type {A} (P : parser → Prop) (m : M A) :
  preserves P m → preserves P (try_scan_type m).
Proof.
  intros Hm p r p' HP. unfold try_scan_type.
  destruct (m p) as [[a|e] p1] eqn:E.
  - intros [= _ <-]. exact (Hm p _ p1 HP E).
  - destruct e; intros [= _ <-]; exact (Hm p _ p1 HP E).
Qed.

Lemma M_bind_cases {A B} (m : M A) (f : A → M B) (p p' : parser)
    (r : result B) :
  (m ≫= f) p = (r, p') →
  (∃ e, m p = (Raise e, p') ∧ r = Raise e)
  ∨ (∃ a p1, m p = (Ok a, p1) ∧ f a p1 = (r, p')).
Proof.
  unfold mbind, M_bind. destruct (m p) as [[a|e] p1].
  - intros H. right. eauto.
  - intros [= <- <-]. left. eauto.
Qed.

Variable utc_valid : Z → Z → Z → Z → Z → bool.

(** A property of the object, and which of the four primitive effects
    keep it. *)
Variable P : parser → Prop.
Hypothesis Hread : ∀ n, preserves P (read n).
Hypothesis Hblock : ∀ buf, preserves P (header_block_extend buf).
Hypothesis Happend : ∀ buf, preserves P (traceh_list_append buf).
Hypothesis Hextend : ∀ buf, preserves P (traceh_list_extend_last buf).

Ltac preserve :=
  repeat first
    [ apply preserves_ret
    | apply preserves_lift
    | apply Hread
    | apply Hblock
    | apply Happend
    | apply Hextend
    | apply preserves_bind; [|intros ?]
    | apply preserves_try_scan_type ].

Lemma preserves_headers :
  preserves P (_read_general_hdr1 utc_valid)
  ∧ preserves P _read_general_hdr2
  ∧ preserves P _read_general_hdr3
  ∧ preserves P _read_sch
  ∧ (∀ size, preserves P (_read_extended_header size))
  ∧ (∀ size, preserves P (_read_external_header size)).
Proof.
  repeat split; try intros size;
    unfold _read_general_hdr1, _read_general_hdr2, _read_general_hdr3,
      _read_sch, _read_extended_header, _read_external_header; preserve.
Qed.

Lemma preserves_read_sch_table (ns : list nat) (sch : gmap Z odict) :
  preserves P (read_sch_table ns sch).
Proof.
  revert sch. induction ns as [|n ns IH]; intros sch; cbn [read_sch_table].
  - preserve.
  - apply preserves_bind.
    + apply preserves_try_scan_type, preserves_headers.
    + intros [d|]; [|apply IH]. apply preserves_bind; [preserve|].
      intros k. apply IH.
Qed.

Lemma preserves_read_headers : preserves P (read_headers utc_valid).
Proof.
  destruct preserves_headers as (H1 & H2 & H3 & _ & H5 & H6).
  unfold read_headers, read_general_headers.
  repeat (apply preserves_bind; [|intros ?]);
    try match goal with a : _ * _ |- _ => destruct a end;
    try assumption; try apply preserves_read_sch_table; preserve; auto.
Qed.

Lemma preserves_read_extensions (ns : list nat) (traceh : odict) :
  preserves P (read_extensions ns traceh).
Proof.
  revert traceh. induction ns as [|n ns IH]; intros traceh;
    cbn [read_extensions]; [preserve|].
  destruct (_read_traceh_eb !! n) as [reader|] eqn:E; [|preserve].
  apply preserves_bind; [|intros ext; apply IH].
  rewrite _read_traceh_eb_lookup in E.
  destruct (extension_decoders !! n) as [decode|]; [|discriminate].
  injection E as <-. unfold read_traceh_eb. preserve.
Qed.

Lemma preserves_read_trace_data_block (size : Z) :
  preserves P (_read_trace_data_block size).
Proof.
  unfold _read_trace_data_block, _read_traceh, _read_trace_data.
  apply preserves_bind; [preserve|]. intros th.
  apply preserves_bind; [preserve|]. intros k.
  apply preserves_bind; [apply preserves_read_extensions|]. intros th'.
  preserve.
Qed.

Lemma preserves_read_traces (ns : list nat) size generalh sch extdh extrh
    sample_rate :
  ∀ st c,
    preserves P (read_traces ns size generalh sch extdh extrh sample_rate st c).
Proof.
  induction ns as [|n ns IH]; intros st c; cbn [read_traces]; [preserve|].
  apply preserves_bind; [apply preserves_read_trace_data_block|].
  intros [traceh l]. preserve. apply IH.
Qed.

End Preservation.

Section StreamFacts.

Import Inv.

Lemma reading_suffix_read (file : list byte) (n : Z) :
  preserves (reading_suffix file) (read n).
Proof.
  intros p r p' (k & Hk). unfold read. rewrite Hk. cbn [closed unread].
  intros [= _ <-]. cbn [byte_stream]. rewrite drop_drop. eexists. reflexivity.
Qed.

Lemma reading_suffix_block (file buf : list byte) :
  preserves (reading_suffix file) (header_block_extend buf).
Proof. intros p r p' (u & Hu) [= _ <-]. exists u. exact Hu. Qed.

Lemma reading_suffix_append (file buf : list byte) :
  preserves (reading_suffix file) (traceh_list_append buf).
Proof. intros p r p' (u & Hu) [= _ <-]. exists u. exact Hu. Qed.

Lemma reading_suffix_extend (file buf : list byte) :
  preserves (reading_suffix file) (traceh_list_extend_last buf).
Proof.
  intros p r p' (u & Hu). unfold traceh_list_extend_last.
  destruct (last (traceh_list p)); intros [= _ <-]; exists u; exact Hu.
Qed.

Lemma header_block_read (hb : list byte) (n : Z) :
  preserves (fun p => header_block p = hb) (read n).
Proof.
  intros p r p' Hp. unfold read.
  destruct (byte_stream p) as [s|]; [|intros [= _ <-]; exact Hp].
  destruct (closed s); intros [= _ <-]; exact Hp.
Qed.

Lemma header_block_append (hb buf : list byte) :
  preserves (fun p => header_block p = hb) (traceh_list_append buf).
Proof. intros p r p' Hp [= _ <-]. exact Hp. Qed.

Lemma header_block_extend_last (hb buf : list byte) :
  preserves (fun p => header_block p = hb) (traceh_list_extend_last buf).
Proof.
  intros p r p' Hp. unfold traceh_list_extend_last.
  destruct (last (traceh_list p)); intros [= _ <-]; exact Hp.
Qed.

Lemma traceh_list_read (tl : list (list byte)) (n : Z) :
  preserves (fun p => traceh_list p = tl) (read n).
Proof.
  intros p r p' Hp. unfold read.
  destruct (byte_stream p) as [s|]; [|intros [= _ <-]; exact Hp].
  destruct (closed s); intros [= _ <-]; exact Hp.
Qed.

Lemma traceh_list_block (tl : list (list byte)) (buf : list byte) :
  preserves (fun p => traceh_list p = tl) (header_block_extend buf).
Proof. intros p r p' Hp [= _ <-]. exact Hp. Qed.

Lemma last_capture_read (tl : list (list byte)) (n : Z) :
  preserves (fun p => ∃ cap, traceh_list p = tl ++ [cap]) (read n).
Proof.
  intros p r p' Hp. unfold read.
  destruct (byte_stream p) as [s|]; [|intros [= _ <-]; exact Hp].
  destruct (closed s); intros [= _ <-]; exact Hp.
Qed.

Lemma last_capture_extend (tl : list (list byte)) (buf : list byte) :
  preserves (fun p => ∃ cap, traceh_list p = tl ++ [cap])
            (traceh_list_extend_last buf).
Proof.
  intros p r p' (cap & Hp). unfold traceh_list_extend_last.
  rewrite Hp, last_snoc, removelast_last. intros [= _ <-]. cbn. eauto.
Qed.

Lemma assigned_rows_error (cols : nat) (st : list trace) :
  ∀ (i : nat) (m : list (list Z)) (e : exn),
    (i + length st <= length m)%nat →
    assigned_rows cols i st m = Raise e → e = ValueError.
Proof.
  induction st as [|tr st IH]; intros i m e Hlen; cbn [assigned_rows];
    [discriminate|].
  cbn [length] in Hlen.
  destruct (Numpy.setitem_row m cols i (data tr)) as [m1|e1] eqn:E.
  - cbn [mbind result_bind]. apply setitem_row_ok in E as (_ & row & -> & _).
    apply IH. rewrite length_insert. lia.
  - cbn [mbind result_bind]. intros [= <-].
    unfold Numpy.setitem_row in E.
    destruct (Nat.ltb_spec i (length m)); [|lia].
    destruct (length (data tr) =? cols)%nat; [discriminate|].
    destruct (data tr) as [|x [|y l]]; try discriminate; now injection E.
Qed.

End StreamFacts.

(* ================================================================== *)
(** * Further properties of [read_segd] *)
(* ================================================================== *)

Section ReadSegd.

Import Inv.

Variable utc_valid : Z → Z → Z → Z → Z → bool.

(** The extended header of a successful header pass was decoded from
    some byte string. *)
Lemma read_headers_extdh (p p1 : parser) generalh sch extdh extrh :
  read_headers utc_valid p = (Ok (generalh, sch, extdh, extrh), p1) →
  ∃ buf, decode_extended_header buf = Ok extdh.
Proof.
  intros Hhdr. unfold read_headers in Hhdr.
  apply M_bind_ok in Hhdr as ([g s] & q1 & _ & Hhdr).
  apply M_bind_ok in Hhdr as (ehl & q2 & _ & Hhdr).
  apply M_bind_ok in Hhdr as (extdh' & q3 & Hx & Hhdr).
  apply M_bind_ok in Hhdr as (size & q4 & _ & Hhdr).
  apply M_bind_ok in Hhdr as (extrh' & q5 & _ & Hhdr).
  injection Hhdr as _ _ <- _ _.
  unfold _read_extended_header in Hx.
  apply M_bind_ok in Hx as (buf & q6 & _ & Hx).
  apply M_bind_ok in Hx as ([] & q7 & _ & Hx).
  apply lift_ok in Hx as [Hx _]. eauto.
Qed.

Lemma close_run (p : parser) (n : nat) (file : list byte) :
  byte_stream p = Some (mkStream (drop n file) false) →
  ∃ p', close p = (Ok (), p')
        ∧ byte_stream p' = Some (mkStream (drop n file) true)
        ∧ header_block p' = header_block p
        ∧ traceh_list p' = traceh_list p.
Proof.
  intros H. unfold close. rewrite H. eexists. split; [reflexivity|].
  cbn. auto.
Qed.

End ReadSegd.

(** After [read_segd], whatever its outcome, the stream holds a suffix of
    the file.  It is closed when the decode returned.  When the decode
    raised, the stream is still open, unless the exception is the
    [ValueError] of the matrix assembly, which runs after [close]. *)
Theorem read_segd_stream_state utc_valid (file : list byte) (p p' : parser)
    (r : result (list trace * bool)) :
  read_segd utc_valid file p = (r, p') →
  ∃ (n : nat) (c : bool),
    byte_stream p' = Some (mkStream (drop n file) c)
    ∧ (is_ok r = true → c = true)
    ∧ (is_ok r = false → c = true → r = Raise ValueError).
Proof.
  intros H. unfold read_segd in H.
  apply M_bind_cases in H as [(e & He & _)|([] & p0 & Hopen & H)];
    [discriminate|].
  assert (H0 : Inv.reading_suffix file p0).
  { injection Hopen as <-. exists 0%nat. reflexivity. }
  assert (Hopen_case : ∀ q e, Inv.reading_suffix file q →
            ∃ (n : nat) (c : bool),
              byte_stream q = Some (mkStream (drop n file) c)
              ∧ (is_ok (@Raise (list trace * bool) e) = true → c = true)
              ∧ (is_ok (@Raise (list trace * bool) e) = false → c = true →
                 @Raise (list trace * bool) e = Raise ValueError)).
  { intros q e (n & Hn). exists n, false. split; [exact Hn|].
    split; discriminate. }
  apply M_bind_cases in H as [(e & He & ->)|([[[generalh sch] extdh] extrh] & p1 & Hhdr & H)].
  { apply Hopen_case.
    eapply (preserves_read_headers utc_valid (Inv.reading_suffix file));
      eauto using reading_suffix_read, reading_suffix_block. }
  assert (H1 : Inv.reading_suffix file p1).
  { eapply (preserves_read_headers utc_valid (Inv.reading_suffix file));
      eauto using reading_suffix_read, reading_suffix_block. }
  apply M_bind_cases in H as [(e & He & ->)|(sr & p2 & Hsr & H)].
  { injection He as _ <-. now apply Hopen_case. }
  injection Hsr as Hsr <-.
  apply M_bind_cases in H as [(e & He & ->)|(sample_rate & p3 & Hrate & H)].
  { injection He as _ <-. now apply Hopen_case. }
  injection Hrate as Hrate <-.
  apply M_bind_cases in H as [(e & He & ->)|(npts & p4 & Hnpts & H)].
  { injection He as _ <-. now apply Hopen_case. }
  injection Hnpts as Hnpts <-.
  apply M_bind_cases in H as [(e & He & ->)|(ntr & p5 & Hntr & H)].
  { injection He as _ <-. now apply Hopen_case. }
  injection Hntr as Hntr <-.
  apply M_bind_cases in H as [(e & He & ->)|([st c] & p6 & Hloop & H)].
  { apply Hopen_case.
    eapply (preserves_read_traces (Inv.reading_suffix file));
      eauto using reading_suffix_read, reading_suffix_append,
                  reading_suffix_extend. }
  assert (H6 : Inv.reading_suffix file p6).
  { eapply (preserves_read_traces (Inv.reading_suffix file));
      eauto using reading_suffix_read, reading_suffix_append,
                  reading_suffix_extend. }
  destruct H6 as (n & Hn).
  destruct (close_run p6 n file Hn) as (p7 & Hclose & Hs7 & _).
  apply M_bind_cases in H as [(e & He & ->)|([] & p7' & Hc & H)];
    [rewrite Hclose in He; discriminate|].
  rewrite Hclose in Hc. injection Hc as <-.
  exists n, true.
  apply M_bind_cases in H as [(e & He & _)|([] & p8 & Hset & H)];
    [discriminate|].
  injection Hset as <-.
  apply M_bind_cases in H as [(e & He & ->)|([] & p9 & Hm & H)].
  - eapply assign_rows_inv in He as (Hs & _ & _ & He & _); [|reflexivity].
    split; [rewrite Hs; exact Hs7|]. split; [reflexivity|].
    intros _ _. f_equal.
    destruct (read_headers_extdh _ _ _ _ _ _ _ Hhdr) as (buf & Hext).
    apply decode_extended_header_ok in Hext as (Hgt & Hgn).
    rewrite Hgn in Hnpts. injection Hnpts as <-.
    rewrite Hgt in Hntr. injection Hntr as <-.
    pose proof (be_uint_range (slice 32 36 buf)) as [Hn0 _].
    apply read_traces_ok in Hloop as (new & -> & Hlen & _); [|exact Hn0].
    unfold range in Hlen. rewrite length_seq in Hlen.
    eapply assigned_rows_error; [|exact He].
    unfold Numpy.zeros. rewrite repeat_length. cbn [app Nat.add]. lia.
  - eapply assign_rows_inv in Hm as (Hs & _); [|reflexivity].
    injection H as <- <-.
    split; [rewrite Hs; exact Hs7|]. split; [reflexivity|discriminate].
Qed.

Lemma read_segd_stream_state_witness :
  ∃ (n : nat) (c : bool),
    byte_stream (snd (read_segd Examples.utc_valid
                        (Examples.record Examples.samples_whole
                                         Examples.samples_whole) init))
    = Some (mkStream
              (drop n (Examples.record Examples.samples_whole
                                       Examples.samples_whole)) c)
    ∧ c = true.
Proof.
  destruct (read_segd Examples.utc_valid
              (Examples.record Examples.samples_whole Examples.samples_whole)
              init) as [r p] eqn:E.
  destruct (read_segd_stream_state _ _ _ _ _ E) as (n & c & Hs & Hok & _).
  exists n, c. split; [exact Hs|]. apply Hok.
  revert E. vm_compute. now intros [= <- _].
Defined.

(* ================================================================== *)
(** * The shape of the matrix and the raw captures *)
(* ================================================================== *)

Section ShapeCapture.

Import Inv.

Variable utc_valid : Z → Z → Z → Z → Z → bool.

Lemma decode_bcd_1_bound (bs : list byte) :
  (length bs <= 1)%nat → 0 <= digits_value (nibbles bs) <= 165.
Proof.
  intros H. pose proof (nibbles_range bs) as Hr.
  destruct bs as [|a [|b bs]]; cbn [length] in H; try lia.
  - cbn. lia.
  - cbn [nibbles flat_map app] in *.
    repeat match goal with
           | H : Forall _ (_ :: _) |- _ => inversion H; subst; clear H
           end.
    cbn [digits_value length]. cbn. lia.
Qed.

(** A decoded extended header has at least the 588 bytes that hold its
    two double-precision fields. *)
Lemma decode_extended_header_length (buf : list byte) (extdh : odict) :
  decode_extended_header buf = Ok extdh → (588 <= length buf)%nat.
Proof.
  intros H. unfold decode_extended_header in H.
  invert_binds H.
  repeat match goal with
         | H : decode_dbl (slice ?a ?b buf) = Ok _ |- _ =>
             unfold decode_dbl, unpack_d in H; rewrite length_slice in H;
             destruct (Nat.eqb_spec (Nat.min b (length buf) - a) 8);
             [clear H|discriminate H]
         end.
  lia.
Qed.

(** The header pass, when it succeeds: which bytes each header was
    decoded from, and where the stream stands afterwards. *)
Lemma read_headers_ok (file hb : list byte) tl td generalh sch extdh extrh
    (p : parser) :
  read_headers utc_valid (reading file hb tl td)
  = (Ok (generalh, sch, extdh, extrh), p) →
  let ncs := digits_value (nibbles (slice 28 29 file)) in
  let ehl := digits_value (nibbles (slice 30 31 file)) in
  let v := digits_value (nibbles (slice 31 32 file)) in
  let xl := if v =? 165 then be_uint (slice 39 41 file) else v in
  let first := Z.to_nat (96 + 32 * ncs) in
  let start := Z.to_nat (96 + 32 * ncs + 32 * ehl) in
  let stop := Z.to_nat (96 + 32 * ncs + 32 * ehl + 32 * xl) in
  decode_extended_header (slice first start file) = Ok extdh
  ∧ extrh = of_asc (decode_asc (slice start stop file))
  ∧ p = reading (drop stop file) (hb ++ take stop file) tl td.
Proof.
  intros Hrun ncs ehl v xl first start stop. unfold read_headers in Hrun.
  apply M_bind_ok in Hrun as ([g sch'] & p1 & Hgen & Hrun).
  apply read_general_headers_ok in Hgen as (Hxl & Hel & Hblocks & ->).
  fold ncs ehl v in Hxl, Hel, Hblocks |- *.
  assert (Hncs : 0 <= ncs) by apply digits_value_nonneg, nibbles_range.
  assert (Hehl : 0 <= ehl) by apply digits_value_nonneg, nibbles_range.
  assert (Hv : 0 <= v <= 165) by apply decode_bcd_1_bound, length_slice_le.
  assert (Hxl0 : 0 <= xl).
  { unfold xl. destruct (v =? 165); [apply be_uint_range|lia]. }
  cbv zeta in Hel.
  destruct (Z.eqb_spec v 255) as [|_]; [lia|].
  assert (Hsize : external_header_size g = Ok (xl * 32)).
  { unfold external_header_size. rewrite Hel. cbn [mbind result_bind eq_int].
    unfold xl. destruct (v =? 165); [rewrite Hblocks|]; reflexivity. }
  apply M_bind_ok in Hrun as (x & p2 & Hx & Hrun).
  apply lift_ok in Hx as [Hx ->].
  rewrite Hxl in Hx. cbn [mbind result_bind as_int] in Hx. injection Hx as <-.
  apply M_bind_ok in Hrun as (extdh' & p3 & Hext & Hrun).
  rewrite _read_extended_header_run in Hext by lia. injection Hext as Hext <-.
  apply M_bind_ok in Hrun as (size & p4 & Hs & Hrun).
  apply lift_ok in Hs as [Hs ->]. rewrite Hsize in Hs. injection Hs as <-.
  apply M_bind_ok in Hrun as (extrh' & p5 & Hxr & Hrun).
  rewrite _read_external_header_run in Hxr by lia. injection Hxr as <- <-.
  injection Hrun as <- <- <- <- <-.
  split; [|split].
  - rewrite <- Hext.
    change (slice first start file) with (take (start - first) (drop first file)).
    unfold first, start. do 2 f_equal. lia.
  - change (slice start stop file) with (take (stop - start) (drop start file)).
    rewrite !drop_drop.
    replace (stop - start)%nat with (Z.to_nat (xl * 32))
      by (unfold stop, start; lia).
    do 4 f_equal. unfold start. lia.
  - rewrite <- !app_assoc, !take_take_drop, !drop_drop.
    unfold reading. do 3 f_equal; f_equal; unfold stop, start; lia.
Qed.

(** A successful [read_segd], taken apart. *)
Lemma read_segd_ok_inv (file : list byte) (p p' : parser)
    (st : list trace) (c : bool) :
  read_segd utc_valid file p = (Ok (st, c), p') →
  ∃ generalh sch extdh extrh sample_rate (npts ntr : Z) (p1 p6 : parser)
    (m : list (list Z)),
    read_headers utc_valid
      (reading file (header_block p) (traceh_list p) (traces_data p))
    = (Ok (generalh, sch, extdh, extrh), p1)
    ∧ getitem extdh "number_of_samples_in_trace" ≫= as_int = Ok npts
    ∧ getitem extdh "total_number_of_traces" ≫= as_int = Ok ntr
    ∧ read_traces (range ntr) npts generalh sch extdh extrh sample_rate
                  [] true p1
      = (Ok (st, c), p6)
    ∧ assigned_rows (Z.to_nat npts) 0 st
                  (Numpy.zeros (Z.to_nat ntr) (Z.to_nat npts)) = Ok m
    ∧ header_block p' = header_block p6
    ∧ traceh_list p' = traceh_list p6
    ∧ traces_data p' = Some m.
Proof.
  intros H. unfold read_segd in H.
  apply M_bind_ok in H as ([] & p0 & Hopen & H).
  rewrite open_run in Hopen. injection Hopen as <-.
  apply M_bind_ok in H as ([[[generalh sch] extdh] extrh] & p1 & Hhdr & H).
  apply M_bind_ok in H as (sr & p2 & Hsr & H). apply lift_ok in Hsr as [_ ->].
  apply M_bind_ok in H as (sample_rate & p3 & Hrate & H).
  apply lift_ok in Hrate as [_ ->].
  apply M_bind_ok in H as (npts & p4 & Hnpts & H).
  apply lift_ok in Hnpts as [Hnpts ->].
  apply M_bind_ok in H as (ntr & p5 & Hntr & H).
  apply lift_ok in Hntr as [Hntr ->].
  apply M_bind_ok in H as ([st' c'] & p6 & Hloop & H).
  apply M_bind_ok in H as ([] & p7 & Hclose & H).
  apply M_bind_ok in H as ([] & p8 & Hset & H).
  injection Hset as <-.
  apply M_bind_ok in H as ([] & p9 & Hm & H).
  eapply assign_rows_inv in Hm as (_ & Hhb & Htl & m & Hm & Hdata);
    [|reflexivity].
  injection H as <- <- <-.
  exists generalh, sch, extdh, extrh, sample_rate, npts, ntr, p1, p6, m.
  repeat split; try assumption;
    [rewrite Hhb|rewrite Htl];
    unfold close in Hclose; destruct (byte_stream p6); try discriminate;
    injection Hclose as <-; reflexivity.
Qed.

Lemma read_trace_data_block_capture (size : Z) (p p' : parser)
    (x : odict * list Z) :
  _read_trace_data_block size p = (Ok x, p') →
  ∃ cap, traceh_list p' = traceh_list p ++ [cap].
Proof.
  intros H. unfold _read_trace_data_block in H.
  apply M_bind_ok in H as (th & p1 & Hth & H).
  assert (H1 : ∃ cap, traceh_list p1 = traceh_list p ++ [cap]).
  { unfold _read_traceh in Hth.
    apply M_bind_ok in Hth as (buf & q1 & Hread & Hth).
    apply (traceh_list_read (traceh_list p)) in Hread; [|reflexivity].
    apply M_bind_ok in Hth as ([] & q2 & Happ & Hth).
    injection Happ as <-. apply lift_ok in Hth as [_ ->].
    cbn [traceh_list]. rewrite Hread. eauto. }
  apply M_bind_ok in H as (k & p2 & Hk & H). apply lift_ok in Hk as [_ ->].
  apply M_bind_ok in H as (th' & p3 & Hext & H).
  apply (preserves_read_extensions
           (fun q => ∃ cap, traceh_list q = traceh_list p ++ [cap])
           (last_capture_read _) (last_capture_extend _)) in Hext;
    [|exact H1].
  apply M_bind_ok in H as (l & p4 & Hdata & H). injection H as _ <-.
  unfold _read_trace_data in Hdata.
  apply M_bind_ok in Hdata as (tmp & q1 & Hread & Hdata).
  apply lift_ok in Hdata as [_ ->].
  exact (last_capture_read _ _ _ _ _ Hext Hread).
Qed.

Lemma read_traces_captures (ns : list nat) size generalh sch extdh extrh
    sample_rate :
  ∀ st0 c0 st c (p p' : parser),
    read_traces ns size generalh sch extdh extrh sample_rate st0 c0 p
    = (Ok (st, c), p') →
    ∃ caps, traceh_list p' = traceh_list p ++ caps
            ∧ length caps = length ns.
Proof.
  induction ns as [|n ns IH]; intros st0 c0 st c p p' H.
  - injection H as _ _ <-. exists []. now rewrite app_nil_r.
  - cbn [read_traces] in H.
    apply M_bind_ok in H as ([traceh l] & p1 & Hblock & H).
    apply read_trace_data_block_capture in Hblock as (cap & Hcap).
    apply M_bind_ok in H as (rate & p2 & Hr & H). apply lift_ok in Hr as [_ ->].
    apply M_bind_ok in H as (t & p3 & Ht & H). apply lift_ok in Ht as [_ ->].
    apply M_bind_ok in H as (segd & p4 & Hs & H). apply lift_ok in Hs as [_ ->].
    apply IH in H as (caps & Hcaps & Hlen).
    exists (cap :: caps). rewrite Hcaps, Hcap, <- app_assoc.
    split; [reflexivity|]. cbn [length]. now rewrite Hlen.
Qed.

End ShapeCapture.

(** After a successful decode the matrix [traces_data] has as many rows
    as the extended header declares traces and as many columns as it
    declares samples per trace, and [st] holds one trace per row.  The
    two counts are the big-endian integers at bytes 8-11 and 32-35 of the
    extended header, which starts after the three general headers and the
    declared scan type headers. *)
Theorem traces_data_shape utc_valid (file : list byte) (p p' : parser)
    (st : list trace) (c : bool) :
  read_segd utc_valid file p = (Ok (st, c), p') →
  let first :=
    Z.to_nat (96 + 32 * digits_value (nibbles (slice 28 29 file))) in
  let ntr := be_uint (slice (first + 8) (first + 12) file) in
  let npts := be_uint (slice (first + 32) (first + 36) file) in
  ∃ m, traces_data p' = Some m
       ∧ length m = Z.to_nat ntr
       ∧ length st = Z.to_nat ntr
       ∧ Forall (fun row => length row = Z.to_nat npts) m.
Proof.
  intros H first ntr npts.
  apply read_segd_ok_inv in H
    as (generalh & sch & extdh & extrh & sample_rate & npts' & ntr' & p1 & p6
        & m & Hhdr & Hnpts & Hntr & Hloop & Hm & _ & _ & Hdata).
  apply read_headers_ok in Hhdr as (Hext & _ & _).
  fold first in Hext.
  set (start := Z.to_nat _) in Hext.
  pose proof (decode_extended_header_length _ _ Hext) as Hlen.
  apply decode_extended_header_ok in Hext as (Hgt & Hgn).
  assert (Hsl : ∀ a b, (b <= 588)%nat →
            slice a b (slice first start file) = slice (first + a) (first + b) file).
  { intros a b Hb. rewrite length_slice in Hlen.
    change (slice first start file) with (take (start - first) (drop first file)).
    rewrite slice_take by lia. apply slice_drop. }
  rewrite Hsl in Hgt, Hgn by lia. fold ntr in Hgt. fold npts in Hgn.
  rewrite Hgn in Hnpts. injection Hnpts as <-.
  rewrite Hgt in Hntr. injection Hntr as <-.
  pose proof (be_uint_range (slice (first + 32) (first + 36) file)) as [Hn0 _].
  apply read_traces_ok in Hloop as (new & -> & Hnew & _); [|exact Hn0].
  unfold range in Hnew. rewrite length_seq in Hnew. cbn [app] in *.
  pose proof (assigned_rows_ok _ _ _ _ _ Hm) as (Hl & _ & _ & Hrows).
  unfold Numpy.zeros in Hl. rewrite repeat_length in Hl.
  exists m. split; [exact Hdata|]. split; [exact Hl|]. split; [exact Hnew|].
  apply Forall_lookup. intros j row Hj.
  assert (Hjlt : (j < length new)%nat).
  { apply lookup_lt_Some in Hj. lia. }
  destruct (lookup_lt_is_Some_2 new j Hjlt) as [tr Htr].
  destruct (Hrows j tr Htr) as (row' & Hr & Hok).
  cbn [Nat.add] in Hr. rewrite Hj in Hr. injection Hr as <-.
  destruct Hok as [[Hd ->]|(x & _ & ->)]; [exact Hd|apply repeat_length].
Qed.

Lemma traces_data_shape_witness :
  ∃ st c p m,
    read_segd Examples.utc_valid
      (Examples.record Examples.samples_whole Examples.samples_fractional)
      init = (Ok (st, c), p)
    ∧ traces_data p = Some m
    ∧ length m = 2%nat ∧ length st = 2%nat
    ∧ Forall (fun row => length row = 3%nat) m.
Proof.
  destruct (read_segd Examples.utc_valid
              (Examples.record Examples.samples_whole
                               Examples.samples_fractional)
              init) as [[[st c]|e] p] eqn:E.
  - destruct (traces_data_shape _ _ _ _ _ _ E) as (m & Hm & H1 & H2 & H3).
    exists st, c, p, m. repeat split; assumption.
  - exfalso. revert E. vm_compute. discriminate.
Defined.

(** After a successful decode [header_block] has grown by exactly the
    header section of the file: the three general headers, the declared
    scan type headers, the extended header and the external header, whose
    length in blocks is the BCD value of byte 31, or the field of general
    header #2 when that value is 165 (byte [0xFF]).  The trace blocks do
    not reach it. *)
Theorem header_block_is_header_section utc_valid (file : list byte)
    (p p' : parser) (st : list trace) (c : bool) :
  read_segd utc_valid file p = (Ok (st, c), p') →
  let ncs := digits_value (nibbles (slice 28 29 file)) in
  let ehl := digits_value (nibbles (slice 30 31 file)) in
  let v := digits_value (nibbles (slice 31 32 file)) in
  let xl := if v =? 165 then be_uint (slice 39 41 file) else v in
  header_block p'
  = header_block p
    ++ take (Z.to_nat (96 + 32 * ncs + 32 * ehl + 32 * xl)) file.
Proof.
  intros H ncs ehl v xl.
  apply read_segd_ok_inv in H
    as (generalh & sch & extdh & extrh & sample_rate & npts' & ntr' & p1 & p6
        & m & Hhdr & _ & _ & Hloop & _ & Hhb & _ & _).
  apply read_headers_ok in Hhdr as (_ & _ & ->).
  rewrite Hhb.
  eapply (preserves_read_traces (fun q => header_block q = _)
            (header_block_read _) (header_block_append _)
            (header_block_extend_last _)); [|exact Hloop].
  reflexivity.
Qed.

Lemma header_block_is_header_section_witness :
  ∃ st c p,
    read_segd Examples.utc_valid
      (Examples.record Examples.samples_whole Examples.samples_whole) init
    = (Ok (st, c), p)
    ∧ header_block p
      = take 1152 (Examples.record Examples.samples_whole
                                   Examples.samples_whole).
Proof.
  destruct (read_segd Examples.utc_valid
              (Examples.record Examples.samples_whole Examples.samples_whole)
              init) as [[[st c]|e] p] eqn:E.
  - pose proof (header_block_is_header_section _ _ _ _ _ _ E) as H.
    exists st, c, p. split; [reflexivity|]. rewrite H. reflexivity.
  - exfalso. revert E. vm_compute. discriminate.
Defined.

(** After a successful decode [traceh_list] has grown by one raw capture
    per decoded trace, and the captures it held before are unchanged. *)
Theorem traceh_list_one_capture_per_trace utc_valid (file : list byte)
    (p p' : parser) (st : list trace) (c : bool) :
  read_segd utc_valid file p = (Ok (st, c), p') →
  ∃ caps, traceh_list p' = traceh_list p ++ caps
          ∧ length caps = length st.
Proof.
  intros H.
  apply read_segd_ok_inv in H
    as (generalh & sch & extdh & extrh & sample_rate & npts & ntr & p1 & p6
        & m & Hhdr & Hnpts & _ & Hloop & _ & _ & Htl & _).
  assert (H1 : traceh_list p1 = traceh_list p).
  { eapply (preserves_read_headers utc_valid (fun q => traceh_list q = _)
              (traceh_list_read _) (traceh_list_block _)); [|exact Hhdr].
    reflexivity. }
  destruct (read_headers_extdh _ _ _ _ _ _ _ Hhdr) as (buf & Hext).
  apply decode_extended_header_ok in Hext as (_ & Hgn).
  rewrite Hgn in Hnpts. injection Hnpts as <-.
  pose proof (be_uint_range (slice 32 36 buf)) as [Hn0 _].
  pose proof (read_traces_captures _ _ _ _ _ _ _ _ _ _ _ _ _ Hloop)
    as (caps & Hcaps & Hlen).
  apply read_traces_ok in Hloop as (new & -> & Hnew & _); [|exact Hn0].
  exists caps. rewrite Htl, Hcaps, H1. split; [reflexivity|].
  cbn [app]. now rewrite Hnew.
Qed.

Lemma traceh_list_one_capture_per_trace_witness :
  ∃ st c p caps,
    read_segd Examples.utc_valid
      (Examples.record Examples.samples_whole Examples.samples_whole) init
    = (Ok (st, c), p)
    ∧ traceh_list p = caps ∧ length caps = length st.
Proof.
  destruct (read_segd Examples.utc_valid
              (Examples.record Examples.samples_whole Examples.samples_whole)
              init) as [[[st c]|e] p] eqn:E.
  - destruct (traceh_list_one_capture_per_trace _ _ _ _ _ _ E)
      as (caps & H1 & H2).
    exists st, c, p, caps. split; [reflexivity|]. split; [exact H1|exact H2].
  - exfalso. revert E. vm_compute. discriminate.
Defined.

(* ================================================================== *)
(** * Edge cases of the block decoders *)
(* ================================================================== *)

(** Inversion of a successful field decoder, through the pairs that
    [bcd] returns as well. *)
Ltac invert_binds_pairs H :=
  repeat first
    [ progress cbv zeta in H
    | match type of H with
      | (let '(_, _) := ?x in _) = _ => destruct x
      end
    | let a := fresh "a" in
      let Ha := fresh "Ha" in
      apply result_bind_ok in H as (a & Ha & H) ].

Section Edges.

Variable utc_valid : Z → Z → Z → Z → Z → bool.

Lemma index_ge (i : nat) (buf : list byte) :
  (length buf <= i)%nat → index i buf = Raise IndexError.
Proof.
  intros H. unfold index. now rewrite lookup_ge_None_2.
Qed.

Lemma byte_val_255 (b : byte) : byte_val b = 255 ↔ b = xff.
Proof.
  split; [|now intros ->].
  intros H. apply byte_val_inj. exact H.
Qed.

Lemma be_uint_1_max (l : list byte) :
  (length l <= 1)%nat → be_uint l = 255 ↔ l = [xff].
Proof.
  intros Hl. split; [|now intros ->].
  destruct l as [|b [|c l]]; cbn [length] in Hl; try lia.
  - discriminate.
  - intros H. f_equal. apply byte_val_255.
    rewrite be_uint_cons in H. cbn in H. lia.
Qed.

Lemma be_uint_3_max (l : list byte) :
  (length l <= 3)%nat → be_uint l = 16777215 ↔ l = [xff; xff; xff].
Proof.
  intros Hl. split; [|now intros ->].
  intros H. destruct (Nat.eq_dec (length l) 3%nat) as [E|E].
  - apply be_uint_inj; [exact E|exact H].
  - pose proof (be_uint_range l) as Hr.
    assert (256 ^ Z.of_nat (length l) <= 256 ^ 2)
      by (apply Z.pow_le_mono_r; lia).
    lia.
Qed.

Lemma digits_1_is_165 (buf : list byte) (i : nat) :
  digits_value (nibbles (slice i (S i) buf)) = 165 ↔ buf !! i = Some xff.
Proof.
  destruct (buf !! i) as [b|] eqn:E.
  - rewrite (slice_singleton i buf b E).
    cbn [nibbles flat_map app digits_value length].
    pose proof (byte_val_range b) as Hb.
    assert (0 <= byte_val b / 16 < 16)
      by (split; [apply Z.div_pos|apply Z.div_lt_upper_bound]; lia).
    pose proof (Z.mod_pos_bound (byte_val b) 16 ltac:(lia)).
    pose proof (Z.div_mod (byte_val b) 16 ltac:(lia)).
    change (10 ^ Z.of_nat 1) with 10. change (10 ^ Z.of_nat 0) with 1.
    split.
    + intros H'. f_equal. apply byte_val_255. lia.
    + intros [= ->]. reflexivity.
  - assert (Hs : slice i (S i) buf = []).
    { apply lookup_ge_None in E. unfold slice.
      rewrite drop_ge by lia. apply take_nil. }
    rewrite Hs. cbn. split; discriminate.
Qed.

(** What a successful decode of general header #1 stores as record
    length. *)
Lemma decode_general_hdr1_record_length (buf : list byte) (g : odict) :
  decode_general_hdr1 utc_valid buf = Ok g →
  ∃ b25, buf !! 25%nat = Some b25
         ∧ getitem g "record_length"
           = Ok (let v := 256 * (byte_val b25 mod 16)
                          + be_uint (slice 26 27 buf) in
                 if v =? 4095 then VNone else VInt v).
Proof.
  intros H. unfold decode_general_hdr1 in H.
  apply result_bind_ok in H as (a0 & _ & H).
  apply result_bind_ok in H as (a1 & _ & H).
  destruct (negb _); [discriminate|].
  invert_binds_pairs H. injection H as <-.
  repeat match goal with
         | H : index ?i buf = Ok _ |- _ =>
             unfold index in H; destruct (buf !! i) eqn:?; [|discriminate H];
             injection H as <-
         end.
  resolve_decode_bin.
  repeat match goal with
         | H : bcd (byte_val _) = Ok _ |- _ => rewrite bcd_byte in H
         end.
  match goal with
  | H : buf !! 25%nat = Some ?b |- _ => exists b; split; [reflexivity|]
  end.
  repeat match goal with
         | H : Ok (_, _) = Ok _ |- _ => injection H as <- <-
         end.
  reflexivity.
Qed.

End Edges.

(** At the end of the file the scan type loop reads nothing, takes every
    remaining declared block for an empty one and returns the table
    unchanged: a file truncated inside the scan type section is not
    reported there. *)
Theorem scan_table_at_end_of_file (ns : list nat) (sch : gmap Z odict)
    (hb : list byte) (tl : list (list byte)) (td : option (list (list Z))) :
  read_sch_table ns sch (reading [] hb tl td) = (Ok sch, reading [] hb tl td).
Proof.
  induction ns as [|n ns IH]; [reflexivity|].
  cbn [read_sch_table]. unfold mbind at 1, M_bind, try_scan_type.
  rewrite _read_sch_run. cbn [take drop]. rewrite app_nil_r.
  rewrite decode_sch_empty by reflexivity. exact IH.
Qed.

Lemma decode_sch_by_length (buf : list byte) :
  all_zero buf = false →
  ((length buf < 29)%nat → decode_sch buf = Raise IndexError)
  ∧ ((29 <= length buf)%nat → ∃ d, decode_sch buf = Ok d).
Proof.
  intros Hz. unfold decode_sch. rewrite bytes_sum_all_zero, Hz.
  assert (Hrev : decode_bin (rev (slice 6 8 buf))
                 = Ok (be_uint (rev (slice 6 8 buf)))).
  { rewrite decode_bin_length.
    pose proof (length_slice_le 6 8 buf). rewrite length_rev.
    destruct (Nat.leb_spec (length (slice 6 8 buf)) 4); [reflexivity|lia]. }
  repeat decode_step. rewrite Hrev. cbn [mbind result_bind]. repeat decode_step.
  destruct (Nat.le_gt_cases (length buf) 10) as [H10|H10].
  { rewrite (index_ge 10) by exact H10. split; [reflexivity|lia]. }
  destruct (index_lt 10 buf H10) as (b10 & _ & E10).
  repeat decode_step.
  destruct (Nat.le_gt_cases (length buf) 11) as [H11|H11].
  { rewrite (index_ge 11) by exact H11. split; [reflexivity|lia]. }
  destruct (index_lt 11 buf H11) as (b11 & _ & E11).
  repeat decode_step.
  destruct (Nat.le_gt_cases (length buf) 28) as [H28|H28].
  { rewrite (index_ge 28) by exact H28. split; [reflexivity|lia]. }
  destruct (index_lt 28 buf H28) as (b28 & _ & E28).
  repeat decode_step.
  split; [lia|eauto].
Qed.

(** A scan type block that is not all zero decodes when it has at least
    29 bytes; a shorter one (the file ends inside the block) raises
    [IndexError]. *)
Theorem decode_sch_truncated (buf : list byte) :
  all_zero buf = false →
  ((length buf < 29)%nat → decode_sch buf = Raise IndexError)
  ∧ ((29 <= length buf)%nat → ∃ d, decode_sch buf = Ok d).
Proof.
  exact (decode_sch_by_length buf).
Qed.

Lemma decode_sch_truncated_witness :
  decode_sch [x01; x02; x03] = Raise IndexError
  ∧ ∃ d, decode_sch ([x01; x02] ++ repeat x00 27) = Ok d.
Proof.
  split.
  - apply (decode_sch_truncated [x01; x02; x03]); [reflexivity|cbn; lia].
  - apply (decode_sch_truncated ([x01; x02] ++ repeat x00 27));
      [reflexivity|cbn; lia].
Defined.

(** The record length of a decoded general header #1 is absent exactly
    when the low nibble of byte 25 is [0xF] and byte 26 is [0xFF] (the
    sentinel [0xFFF]). *)
Theorem record_length_sentinel utc_valid (buf : list byte) (g : odict) :
  decode_general_hdr1 utc_valid buf = Ok g →
  ∃ b25, buf !! 25%nat = Some b25
         ∧ (getitem g "record_length" = Ok VNone
            ↔ byte_val b25 mod 16 = 15 ∧ slice 26 27 buf = [xff]).
Proof.
  intros H.
  destruct (decode_general_hdr1_record_length utc_valid buf g H)
    as (b25 & Hb & Hg).
  exists b25. split; [exact Hb|]. rewrite Hg. cbv zeta.
  pose proof (Z.mod_pos_bound (byte_val b25) 16 ltac:(lia)) as Hn.
  pose proof (be_uint_range (slice 26 27 buf)) as Hr.
  pose proof (length_slice_le 26 27 buf) as Hl.
  assert (256 ^ Z.of_nat (length (slice 26 27 buf)) <= 256 ^ 1)
    by (apply Z.pow_le_mono_r; lia).
  rewrite <- (be_uint_1_max (slice 26 27 buf)) by lia.
  destruct (Z.eqb_spec (256 * (byte_val b25 mod 16)
                        + be_uint (slice 26 27 buf)) 4095) as [E|E].
  - split; [intros _; lia|reflexivity].
  - split; [discriminate|lia].
Qed.

Lemma record_length_sentinel_witness :
  ∃ g, decode_general_hdr1 Examples.utc_valid
         (<[25%nat := x0f]> (<[26%nat := xff]>
            (Examples.general_hdr1 x01 x32 x00))) = Ok g
       ∧ getitem g "record_length" = Ok VNone.
Proof.
  destruct (decode_general_hdr1 Examples.utc_valid
              (<[25%nat := x0f]> (<[26%nat := xff]>
                 (Examples.general_hdr1 x01 x32 x00)))) as [g|e] eqn:E.
  - exists g. split; [reflexivity|].
    destruct (record_length_sentinel _ _ _ E) as (b25 & Hb & Hiff).
    apply Hiff. injection Hb as <-. split; reflexivity.
  - exfalso. revert E. vm_compute. discriminate.
Defined.

(** The external header length of a decoded general header #1 is never
    absent: it is an integer between 0 and 165, and 165 exactly when
    byte 31 is [0xFF] (the comparison with [0xFF] in
    [_read_general_hdr1] never holds). *)
Theorem external_header_length_never_absent utc_valid (buf : list byte)
    (g : odict) :
  decode_general_hdr1 utc_valid buf = Ok g →
  ∃ v, getitem g "external_header_length" = Ok (VInt v)
       ∧ 0 <= v <= 165
       ∧ (v = 165 ↔ buf !! 31%nat = Some xff).
Proof.
  intros H. apply decode_general_hdr1_ok in H as (_ & _ & H & _).
  cbv zeta in H.
  pose proof (decode_bcd_1_bound (slice 31 32 buf) (length_slice_le 31 32 buf))
    as Hv.
  destruct (Z.eqb_spec (digits_value (nibbles (slice 31 32 buf))) 255); [lia|].
  eexists. split; [exact H|]. split; [exact Hv|]. apply digits_1_is_165.
Qed.

Lemma external_header_length_never_absent_witness :
  ∃ g, decode_general_hdr1 Examples.utc_valid
         (Examples.general_hdr1 x01 x32 xff) = Ok g
       ∧ getitem g "external_header_length" = Ok (VInt 165).
Proof.
  destruct (decode_general_hdr1 Examples.utc_valid
              (Examples.general_hdr1 x01 x32 xff)) as [g|e] eqn:E.
  - exists g. split; [reflexivity|].
    destruct (external_header_length_never_absent _ _ _ E)
      as (v & Hg & _ & Hiff).
    rewrite Hg. do 2 f_equal. now apply Hiff.
  - exfalso. revert E. vm_compute. discriminate.
Defined.

(** Trace header extension #1 always decodes, and its receiver line and
    point numbers are absent exactly when their three bytes are
    [0xFF 0xFF 0xFF]. *)
Theorem receiver_numbers_sentinel (buf : list byte) :
  ∃ d, decode_traceh_eb1 buf = Ok d
       ∧ (getitem d "receiver_line_number" = Ok VNone
          ↔ slice 0 3 buf = [xff; xff; xff])
       ∧ (getitem d "receiver_point_number" = Ok VNone
          ↔ slice 3 6 buf = [xff; xff; xff]).
Proof.
  unfold decode_traceh_eb1. repeat decode_step.
  eexists. split; [reflexivity|].
  cbn [getitem od_get String.eqb Ascii.eqb Bool.eqb].
  rewrite <- (be_uint_3_max (slice 0 3 buf)) by apply length_slice_le.
  rewrite <- (be_uint_3_max (slice 3 6 buf)) by apply length_slice_le.
  split.
  - destruct (Z.eqb_spec (be_uint (slice 0 3 buf)) 16777215);
      split; congruence.
  - destruct (Z.eqb_spec (be_uint (slice 3 6 buf)) 16777215);
      split; congruence.
Qed.

(* ================================================================== *)
(** * Sample arrays, extension counts and the merged trace header *)
(* ================================================================== *)

Section TraceExtra.

Import Codec.

Lemma byte_val_byte_of (z : Z) : 0 <= z < 256 → byte_val (byte_of z) = z.
Proof.
  intros Hz. unfold byte_of, byte_val.
  destruct (Byte.of_N (Z.to_N z)) as [b|] eqn:E.
  - apply Byte.to_of_N in E. rewrite E. lia.
  - apply Byte.of_N_None_iff in E. lia.
Qed.

Lemma be_uint_be32 (x : Z) : 0 <= x < 2 ^ 32 → be_uint (be32 x) = x.
Proof.
  intros Hx. unfold be32, be_uint. cbn [fold_left].
  rewrite !byte_val_byte_of by (apply Z.mod_pos_bound; lia).
  assert (E2 : x / 65536 = x / 256 / 256)
    by (rewrite Z.div_div by lia; reflexivity).
  assert (E3 : x / 16777216 = x / 256 / 256 / 256)
    by (rewrite !Z.div_div by lia; reflexivity).
  rewrite E2, E3.
  pose proof (Z.div_mod x 256 ltac:(lia)).
  pose proof (Z.div_mod (x / 256) 256 ltac:(lia)).
  pose proof (Z.div_mod (x / 256 / 256) 256 ltac:(lia)).
  assert (x / 256 / 256 / 256 < 256).
  { repeat (apply Z.div_lt_upper_bound; [lia|]). lia. }
  assert (0 <= x / 256 / 256 / 256) by (repeat apply Z.div_pos; lia).
  rewrite (Z.mod_small (x / 256 / 256 / 256)) by lia.
  lia.
Qed.

Lemma fromstring_be32 (xs : list Z) :
  Forall (fun x => 0 <= x < 2 ^ 32) xs →
  fromstring (flat_map be32 xs) = Ok xs.
Proof.
  induction 1 as [|x xs Hx _ IH]; [reflexivity|].
  cbn [flat_map]. change (be32 x ++ flat_map be32 xs)
    with (byte_of (x / 16777216 mod 256) :: byte_of (x / 65536 mod 256)
          :: byte_of (x / 256 mod 256) :: byte_of (x mod 256)
          :: flat_map be32 xs).
  cbn [fromstring]. rewrite IH. cbn [mbind result_bind mret result_ret].
  f_equal. f_equal. apply (be_uint_be32 x Hx).
Qed.

Lemma length_flat_map_be32 (xs : list Z) :
  length (flat_map be32 xs) = (4 * length xs)%nat.
Proof.
  induction xs as [|x xs IH]; [reflexivity|].
  cbn [flat_map]. rewrite length_app, IH. cbn [be32 length]. lia.
Qed.

Lemma fromstring_total (tmp : list byte) :
  (Nat.divide 4 (length tmp) →
   ∃ l, fromstring tmp = Ok l ∧ (4 * length l)%nat = length tmp)
  ∧ (¬ Nat.divide 4 (length tmp) → fromstring tmp = Raise ValueError).
Proof.
  induction tmp as [tmp IH] using (induction_ltof1 _ (@length _)).
  unfold ltof in IH.
  destruct tmp as [|b0 [|b1 [|b2 [|b3 rest]]]]; cbn [fromstring length].
  - split; [intros _; exists []; split; reflexivity|].
    intros H. exfalso. apply H. exists 0%nat. reflexivity.
  - split; [intros [k Hk]; lia|reflexivity].
  - split; [intros [k Hk]; lia|reflexivity].
  - split; [intros [k Hk]; lia|reflexivity].
  - assert (Hlt : (length rest < length (b0 :: b1 :: b2 :: b3 :: rest))%nat)
      by (cbn [length]; lia).
    destruct (IH rest Hlt) as [Hyes Hno].
    assert (Hdiv : Nat.divide 4 (S (S (S (S (length rest)))))
                   ↔ Nat.divide 4 (length rest)).
    { split; intros [k Hk]; [exists (k - 1)%nat|exists (k + 1)%nat]; lia. }
    split.
    + intros H. apply Hdiv in H. destruct (Hyes H) as (l & -> & Hl).
      cbn [mbind result_bind mret result_ret]. eexists. split; [reflexivity|].
      cbn [length]. lia.
    + intros H. rewrite Hno by (intros H'; apply H, Hdiv, H').
      reflexivity.
Qed.

Lemma read_extensions_app (ns1 ns2 : list nat) :
  ∀ (traceh : odict) (p : parser),
    read_extensions (ns1 ++ ns2) traceh p
    = match read_extensions ns1 traceh p with
      | (Ok th, p1) => read_extensions ns2 th p1
      | (Raise e, p1) => (Raise e, p1)
      end.
Proof.
  induction ns1 as [|n ns1 IH]; intros traceh p; [reflexivity|].
  cbn [app read_extensions].
  destruct (_read_traceh_eb !! n) as [reader|]; [|reflexivity].
  unfold mbind, M_bind.
  destruct (reader p) as [[ext|e] p1]; [apply IH|reflexivity].
Qed.

End TraceExtra.

(** [_read_trace_data] reads back what was written: on a stream that
    starts with the big-endian four-byte encodings of the 32-bit patterns
    [xs], reading [length xs] samples returns [xs] and consumes exactly
    those bytes. *)
Theorem read_trace_data_round_trip (xs : list Z) (rest hb : list byte)
    (tl : list (list byte)) (td : option (list (list Z))) :
  Forall (fun x => 0 <= x < 2 ^ 32) xs →
  _read_trace_data (Z.of_nat (length xs))
                   (reading (flat_map Codec.be32 xs ++ rest) hb tl td)
  = (Ok xs, reading rest hb tl td).
Proof.
  intros Hxs. unfold _read_trace_data. unfold mbind, M_bind.
  rewrite read_run by lia.
  replace (Z.to_nat (Z.of_nat (length xs) * 4))
    with (length (flat_map Codec.be32 xs))
    by (rewrite length_flat_map_be32; lia).
  rewrite take_app_length, drop_app_length.
  unfold lift. now rewrite fromstring_be32.
Qed.

Lemma read_trace_data_round_trip_witness :
  _read_trace_data 2
    (reading (flat_map Codec.be32 [1065353216; 3221225472] ++ [xee])
             [] [] None)
  = (Ok [1065353216; 3221225472], reading [xee] [] [] None).
Proof.
  apply (read_trace_data_round_trip [1065353216; 3221225472] [xee] [] [] None).
  repeat constructor; lia.
Defined.

(** The bytes of a sample array convert exactly when their number is a
    multiple of four, to a quarter as many samples; otherwise (the file
    ends inside a sample) [fromstring] raises [ValueError]. *)
Theorem fromstring_multiple_of_four (tmp : list byte) :
  (Nat.divide 4 (length tmp) →
   ∃ l, fromstring tmp = Ok l ∧ (4 * length l)%nat = length tmp)
  ∧ (¬ Nat.divide 4 (length tmp) → fromstring tmp = Raise ValueError).
Proof. apply fromstring_total. Qed.

Lemma fromstring_multiple_of_four_witness :
  (∃ l, fromstring [x3f; x80; x00; x00] = Ok l
        ∧ (4 * length l)%nat = 4%nat)
  ∧ fromstring [x3f; x80; x00; x00; x40] = Raise ValueError.
Proof.
  split.
  - apply (fromstring_multiple_of_four [x3f; x80; x00; x00]).
    exists 1%nat. reflexivity.
  - apply (fromstring_multiple_of_four [x3f; x80; x00; x00; x40]).
    intros [k Hk]. cbn [length] in Hk. lia.
Defined.

(** A trace header that declares more than seven extensions makes the
    trace block reader raise [IndexError], after it has read and captured
    the header and seven extension blocks. *)
Theorem more_than_seven_extensions (size : Z) (hdr : list byte)
    (exts : list (list byte)) (rest hb : list byte)
    (tl : list (list byte)) (td : option (list (list Z))) :
  length hdr = 20%nat →
  Forall (fun e => length e = 32%nat) exts →
  length exts = 7%nat →
  7 < be_uint (slice 9 10 hdr) →
  _read_trace_data_block size (reading (hdr ++ concat exts ++ rest) hb tl td)
  = (Raise IndexError, reading rest hb (tl ++ [hdr ++ concat exts]) td).
Proof.
  intros Hhdr Hexts H7 Hk.
  destruct (decode_traceh_extension_count hdr) as (th & Hth & Hcount).
  destruct (read_extensions_run exts Hexts 0 th rest hb hdr tl td)
    as (ds & Hds & Hrun); [lia|].
  unfold _read_trace_data_block. unfold mbind at 1, M_bind.
  rewrite _read_traceh_run.
  rewrite take_app_length', drop_app_length' by (symmetry; exact Hhdr).
  rewrite Hth. unfold mbind at 1, M_bind, lift. rewrite Hcount.
  unfold mbind at 1, M_bind.
  unfold range.
  replace (Z.to_nat (be_uint (slice 9 10 hdr)))
    with (7 + S (Z.to_nat (be_uint (slice 9 10 hdr)) - 8))%nat by lia.
  rewrite seq_app, read_extensions_app. rewrite H7 in Hrun. rewrite Hrun.
  reflexivity.
Qed.

Lemma more_than_seven_extensions_witness :
  _read_trace_data_block 1
    (reading (Examples.trace_hdr x08 ++ concat (repeat (repeat x00 32) 7)
              ++ repeat x00 40) [] [] None)
  = (Raise IndexError,
     reading (repeat x00 40) []
       [Examples.trace_hdr x08 ++ concat (repeat (repeat x00 32) 7)] None).
Proof.
  apply (more_than_seven_extensions 1 (Examples.trace_hdr x08)
           (repeat (repeat x00 32) 7) (repeat x00 40) [] [] None).
  - reflexivity.
  - repeat constructor.
  - reflexivity.
  - vm_compute. reflexivity.
Defined.

(** [_build_segd_header] raises [KeyError] when the scan type table has
    no entry for the channel set number of the trace header.  Otherwise
    it returns a merged header in which every field of the trace header
    keeps the trace header's value, whatever the general, scan type and
    extended headers hold under the same name. *)
Theorem build_segd_header_merge (generalh : odict) (sch : gmap Z odict)
    (extdh : odict) (extrh : value) (traceh : odict) (n : Z) :
  NoDup (od_keys traceh) →
  getitem traceh "channel_set_number" = Ok (VInt n) →
  match sch !! n with
  | None =>
      _build_segd_header generalh sch extdh extrh traceh = Raise KeyError
  | Some s =>
      ∃ segd,
        _build_segd_header generalh sch extdh extrh traceh = Ok segd
        ∧ ∀ k v, od_get k traceh = Some v → od_get k segd = Some v
  end.
Proof.
  intros Hnd Hn. unfold _build_segd_header. rewrite Hn.
  cbn [mbind result_bind as_int].
  destruct (sch !! n) as [s|]; [|reflexivity].
  eexists. split; [reflexivity|].
  intros k v Hk. now apply od_get_update_present.
Qed.

Lemma build_segd_header_merge_witness :
  ∃ segd,
    _build_segd_header [("file_number", VInt 7)]%string
      {[ 1 := [("channel_set_number", VInt 9)]%string ]} [] VNone
      [("file_number", VInt 1); ("channel_set_number", VInt 1)]%string
    = Ok segd
    ∧ od_get "file_number" segd = Some (VInt 1)
    ∧ od_get "channel_set_number" segd = Some (VInt 1).
Proof.
  pose proof (build_segd_header_merge [("file_number", VInt 7)]%string
                {[ 1 := [("channel_set_number", VInt 9)]%string ]} [] VNone
                [("file_number", VInt 1); ("channel_set_number", VInt 1)]%string
                1) as H.
  assert (Hnd : NoDup (od_keys [("file_number", VInt 1);
                                ("channel_set_number", VInt 1)]%string))
    by (apply (bool_decide_unpack _); vm_compute; exact I).
  specialize (H Hnd eq_refl).
  rewrite lookup_singleton_eq in H. destruct H as (segd & Hs & Hk).
  exists segd. split; [exact Hs|]. split; apply Hk; reflexivity.
Defined.

(* ================================================================== *)
(** * Headers that cannot be decoded *)
(* ================================================================== *)

Section HeaderFailures.

Lemma mapM_decode_bin_slices (buf : list byte) (f g : nat → nat)
    (l : list nat) :
  (∀ n, (g n - f n <= 4)%nat) →
  mapM (fun n => decode_bin (slice (f n) (g n) buf)) l
  = Ok (map (fun n => be_uint (slice (f n) (g n) buf)) l).
Proof.
  intros Hfg. induction l as [|n l IH]; [reflexivity|].
  cbn [mapM map]. rewrite decode_bin_slice by apply Hfg.
  cbn [mbind result_bind]. rewrite IH. reflexivity.
Qed.

Lemma mapM_decode_bcd_int (l : list byte) :
  mapM decode_bcd_int l = Ok (map (fun b => digits_value (nibbles [b])) l).
Proof.
  induction l as [|b l IH]; [reflexivity|].
  cbn [mapM map]. change (decode_bcd_int b) with (decode_bcd [b]).
  rewrite decode_bcd_value.
  cbn [mbind result_bind]. rewrite IH. reflexivity.
Qed.

Lemma decode_dbl_short (a b : nat) (buf : list byte) :
  (b - a = 8)%nat → (length buf < b)%nat →
  decode_dbl (slice a b buf) = Raise StructError.
Proof.
  intros H1 H2. unfold decode_dbl, unpack_d. rewrite length_slice.
  destruct (Nat.eqb_spec (Nat.min b (length buf) - a) 8); [lia|reflexivity].
Qed.

End HeaderFailures.

(** The extended header decodes exactly when it has at least 588 bytes,
    the end of its second double-precision field; a shorter one (an
    extended header length below 19 blocks, or a truncated file) raises
    the [struct.error] of [decode_dbl]. *)
Theorem extended_header_needs_588_bytes (buf : list byte) :
  ((588 <= length buf)%nat → ∃ extdh, decode_extended_header buf = Ok extdh)
  ∧ ((length buf < 588)%nat →
     decode_extended_header buf = Raise StructError).
Proof.
  unfold decode_extended_header.
  repeat decode_step.
  assert (Hoverlay : ∃ overlay,
    (if be_uint (slice 96 100 buf) =? 2
     then mret [("number_of_windows", VInt (be_uint (slice 108 112 buf)))]%string
     else
      if be_uint (slice 96 100 buf) =? 3
      then
       mret
         [("historic_range", VInt (be_uint (slice 120 124 buf)));
          ("historic_taper_length_2_exponent",
           VInt (be_uint (slice 124 128 buf)));
          ("historic_threshold_init_value",
           VInt (be_uint (slice 132 136 buf)));
          ("historic_zeroing_length", VInt (be_uint (slice 136 140 buf)))]%string
      else
       if be_uint (slice 96 100 buf) =? 4
       then
        mret
          [("window_length", VInt (be_uint (slice 108 112 buf)));
           ("overlap", VInt (be_uint (slice 112 116 buf)))]%string
       else mret []) = Ok overlay).
  { destruct (_ =? 2); [eauto|]. destruct (_ =? 3); [eauto|].
    destruct (_ =? 4); eauto. }
  destruct Hoverlay as (overlay & ->).
  cbn [mbind result_bind]. repeat decode_step.
  rewrite (mapM_decode_bin_slices buf (fun n => 144 + n * 4)%nat
             (fun n => 144 + (n + 1) * 4)%nat) by (intros; lia).
  cbn [mbind result_bind].
  rewrite (mapM_decode_bin_slices buf (fun n => 272 + n * 4)%nat
             (fun n => 272 + (n + 1) * 4)%nat) by (intros; lia).
  cbn [mbind result_bind]. repeat decode_step.
  destruct (Nat.le_gt_cases 580 (length buf)) as [H580|H580].
  - rewrite (decode_dbl_slice 572 580) by (cbn; lia).
    cbn [mbind result_bind].
    destruct (Nat.le_gt_cases 588 (length buf)) as [H588|H588].
    + rewrite (decode_dbl_slice 580 588) by (cbn; lia).
      cbn [mbind result_bind]. repeat decode_step.
      split; [eauto|lia].
    + rewrite (decode_dbl_short 580 588) by (cbn; lia).
      split; [lia|reflexivity].
  - rewrite (decode_dbl_short 572 580) by (cbn; lia).
    split; [lia|reflexivity].
Qed.

Lemma extended_header_needs_588_bytes_witness :
  (∃ extdh, decode_extended_header (repeat x00 588) = Ok extdh)
  ∧ decode_extended_header (repeat x00 587) = Raise StructError.
Proof.
  split.
  - apply (extended_header_needs_588_bytes (repeat x00 588)).
    rewrite repeat_length. lia.
  - apply (extended_header_needs_588_bytes (repeat x00 587)).
    rewrite repeat_length. lia.
Defined.

(** A general header #1 whose base scan interval byte (byte 22) is zero
    cannot be decoded: with a supported format code and a record time
    that [UTCDateTime] accepts, the inverse [1. / _bsi] raises
    [ZeroDivisionError]. *)
Theorem zero_base_scan_interval utc_valid (buf : list byte) (b11 : byte) :
  length buf = 32%nat →
  decode_bcd (slice 2 4 buf) = Ok 8058 →
  buf !! 11%nat = Some b11 →
  utc_valid (digits_value (nibbles (slice 10 11 buf)) + 2000)
            (byte_val b11 mod 16 * 100
             + digits_value (nibbles (slice 12 13 buf)))
            (digits_value (nibbles (slice 13 14 buf)))
            (digits_value (nibbles (slice 14 15 buf)))
            (digits_value (nibbles (slice 15 16 buf))) = true →
  buf !! 22%nat = Some x00 →
  decode_general_hdr1 utc_valid buf = Raise ZeroDivisionError.
Proof.
  intros Hlen Hfmt H11 Hutc H22.
  rewrite decode_bcd_value in Hfmt. injection Hfmt as Hfmt.
  destruct (index_lt 11 buf ltac:(lia)) as (b11' & Hb & E11).
  rewrite H11 in Hb. injection Hb as <-.
  unfold decode_general_hdr1.
  repeat decode_step. rewrite Hfmt. cbn [Z.eqb Pos.eqb negb].
  repeat decode_step. rewrite mapM_decode_bcd_int. cbn [mbind result_bind].
  repeat decode_step. unfold UTCDateTime. rewrite Hutc.
  cbn [mbind result_bind].
  rewrite (slice_singleton 22 buf x00 H22). reflexivity.
Qed.

Lemma zero_base_scan_interval_witness :
  decode_general_hdr1 Examples.utc_valid
    (<[22%nat := x00]> (Examples.general_hdr1 x01 x32 x00))
  = Raise ZeroDivisionError.
Proof.
  apply (zero_base_scan_interval Examples.utc_valid
           (<[22%nat := x00]> (Examples.general_hdr1 x01 x32 x00)) x01);
    reflexivity.
Defined.

Lemma decode_extended_header_sample_rate (buf : list byte) (extdh : odict) :
  decode_extended_header buf = Ok extdh →
  getitem extdh "sample_rate_in_us" = Ok (VInt (be_uint (slice 4 8 buf))).
Proof.
  intros H. unfold decode_extended_header in H.
  invert_binds H. injection H as <-.
  resolve_decode_bin. reflexivity.
Qed.

(** With a sample rate of zero microseconds in the extended header and
    at least one trace declared, [read_segd] never returns: the rate
    [1. / sample_rate] of the first trace divides by zero (unless an
    earlier block already failed). *)
Theorem zero_sample_rate_never_decodes utc_valid (file : list byte)
    (p p' : parser) (r : result (list trace * bool)) :
  read_segd utc_valid file p = (r, p') →
  let first :=
    Z.to_nat (96 + 32 * digits_value (nibbles (slice 28 29 file))) in
  be_uint (slice (first + 4) (first + 8) file) = 0 →
  0 < be_uint (slice (first + 8) (first + 12) file) →
  is_ok r = false.
Proof.
  intros H first Hsr0 Hntr0.
  destruct r as [[st c]|e]; [exfalso|reflexivity].
  unfold read_segd in H.
  apply M_bind_ok in H as ([] & p0 & Hopen & H).
  rewrite open_run in Hopen. injection Hopen as <-.
  apply M_bind_ok in H as ([[[generalh sch] extdh] extrh] & p1 & Hhdr & H).
  apply M_bind_ok in H as (sr & p2 & Hsr & H).
  apply lift_ok in Hsr as [Hsr ->].
  apply M_bind_ok in H as (sample_rate & p3 & Hrate & H).
  apply lift_ok in Hrate as [Hrate ->].
  apply M_bind_ok in H as (npts & p4 & Hnpts & H).
  apply lift_ok in Hnpts as [Hnpts ->].
  apply M_bind_ok in H as (ntr & p5 & Hntr & H).
  apply lift_ok in Hntr as [Hntr ->].
  apply M_bind_ok in H as ([st' c'] & p6 & Hloop & _).
  apply read_headers_ok in Hhdr as (Hext & _ & _).
  fold first in Hext. set (start := Z.to_nat _) in Hext.
  pose proof (decode_extended_header_length _ _ Hext) as Hlen.
  pose proof (decode_extended_header_sample_rate _ _ Hext) as Hgs.
  apply decode_extended_header_ok in Hext as (Hgt & _).
  assert (Hsl : ∀ a b, (b <= 588)%nat →
            slice a b (slice first start file) = slice (first + a) (first + b) file).
  { intros a b Hb. rewrite length_slice in Hlen.
    change (slice first start file) with (take (start - first) (drop first file)).
    rewrite slice_take by lia. apply slice_drop. }
  rewrite Hsl in Hgt, Hgs by lia.
  rewrite Hgs, Hsr0 in Hsr. injection Hsr as <-.
  rewrite Hgt in Hntr. injection Hntr as <-.
  vm_compute in Hrate. injection Hrate as <-.
  unfold range in Hloop.
  destruct (Z.to_nat (be_uint (slice (first + 8) (first + 12) file)))
    as [|k] eqn:Ek; [lia|].
  cbn [seq read_traces] in Hloop.
  apply M_bind_ok in Hloop as ([traceh l] & q1 & _ & Hloop).
  apply M_bind_ok in Hloop as (rate & q2 & Hr & _).
  apply lift_ok in Hr as [Hr _]. vm_compute in Hr. discriminate.
Qed.

Lemma zero_sample_rate_never_decodes_witness :
  is_ok (fst (read_segd Examples.utc_valid
                (<[134%nat := x00]> (<[135%nat := x00]>
                   (Examples.record Examples.samples_whole
                                    Examples.samples_whole))) init))
  = false.
Proof.
  destruct (read_segd Examples.utc_valid
              (<[134%nat := x00]> (<[135%nat := x00]>
                 (Examples.record Examples.samples_whole
                                  Examples.samples_whole))) init)
    as [r p] eqn:E.
  apply (zero_sample_rate_never_decodes _ _ _ _ _ E); vm_compute; reflexivity.
Defined.

(* ================================================================== *)
(** * General headers #2 and #3, and duplicate channel sets *)
(* ================================================================== *)

Section MoreExtra.

Lemma ord_slice (i : nat) (buf : list byte) :
  ord (slice i (S i) buf)
  = match buf !! i with
    | Some b => Ok (byte_val b)
    | None => Raise TypeError
    end.
Proof.
  destruct (buf !! i) as [b|] eqn:E.
  - now rewrite (slice_singleton i buf b E).
  - apply lookup_ge_None in E. unfold slice.
    rewrite drop_ge by lia. now rewrite take_nil.
Qed.

Lemma fadd_int_fraction (a fr : Z) :
  0 <= a < 2 ^ 24 → 0 <= fr < 2 ^ 16 →
  num_add (NInt a) (NFloat (mkF fr (-16)))
  = NFloat (mkF (a * 65536 + fr) (-16)).
Proof.
  intros Ha Hf. cbn [num_add to_float]. unfold of_int.
  rewrite rnd_exact by lia. unfold fadd. cbn [fm fe].
  change (Z.min 0 (-16)) with (-16).
  change (0 - -16) with 16. change (-16 - -16) with 0.
  change (2 ^ 16) with 65536. rewrite Z.pow_0_r, Z.mul_1_r.
  f_equal. apply rnd_exact; lia.
Qed.

Lemma F2Q_fixed_16 (a fr : Z) :
  (F2Q (mkF (a * 65536 + fr) (-16)) == inject_Z a + inject_Z fr / 65536)%Q.
Proof.
  change (-16) with (- Z.of_nat 16). rewrite F2Q_dyadic.
  change (2 ^ Z.of_nat 16) with 65536.
  rewrite inject_Z_plus, inject_Z_mult. field.
Qed.

(** The scan type table after the loop, key by key. *)
Lemma read_sch_table_last (blocks : list (list byte)) (k : Z) :
  Forall (fun b => length b = 32%nat) blocks →
  ∀ (ns : list nat) (sch0 : gmap Z odict) (rest hb : list byte) tl td,
    length ns = length blocks →
    ∃ sch p,
      read_sch_table ns sch0 (reading (concat blocks ++ rest) hb tl td)
      = (Ok sch, p)
      ∧ match Table.last_block_for k blocks with
        | Some b => ∃ d, decode_sch b = Ok d ∧ sch !! k = Some d
        | None => sch !! k = sch0 !! k
        end.
Proof.
  unfold Table.last_block_for.
  induction 1 as [|b blocks Hb Hbs IH]; intros ns sch0 rest hb tl td Hns.
  - destruct ns; [|discriminate]. exists sch0. eexists.
    split; reflexivity.
  - destruct ns as [|n ns]; [discriminate|]. cbn [length] in Hns.
    apply Nat.succ_inj in Hns.
    cbn [concat read_sch_table]. unfold mbind at 1, M_bind, try_scan_type.
    rewrite _read_sch_run.
    rewrite <- app_assoc, take_app_length', drop_app_length'
      by (symmetry; exact Hb).
    cbn [List.filter].
    destruct (all_zero b) eqn:Hz; cbn [negb andb].
    + rewrite decode_sch_empty by exact Hz. apply IH. exact Hns.
    + destruct (decode_sch_non_empty b Hb Hz) as (d & Hd & Hk).
      rewrite Hd. unfold mbind at 1, M_bind, lift. rewrite Hk.
      destruct (IH ns (<[channel_set_number_of b := d]> sch0) rest
                   (hb ++ b) tl td Hns) as (sch & p & Hrun & Hlast).
      exists sch, p. split; [exact Hrun|].
      destruct (Z.eqb_spec (channel_set_number_of b) k) as [Ek|Ek].
      * destruct (List.filter _ blocks) as [|b' l] eqn:Ef.
        -- cbn [last]. cbn [last] in Hlast. exists d. split; [exact Hd|].
           rewrite Hlast, Ek. apply lookup_insert_eq.
        -- rewrite last_cons. destruct (last (b' :: l)) as [b''|] eqn:El.
           ++ exact Hlast.
           ++ apply last_None in El. discriminate.
      * destruct (last (List.filter _ blocks)); [exact Hlast|].
        rewrite Hlast. now apply lookup_insert_ne.
Qed.

End MoreExtra.

(** General header #2 decodes exactly when its buffer reaches byte 11,
    the second revision byte; a shorter one (a file of fewer than 44
    bytes) raises the [TypeError] of [ord] on an empty slice. *)
Theorem general_hdr2_needs_12_bytes (buf : list byte) :
  ((12 <= length buf)%nat → ∃ g, decode_general_hdr2 buf = Ok g)
  ∧ ((length buf < 12)%nat → decode_general_hdr2 buf = Raise TypeError).
Proof.
  unfold decode_general_hdr2. repeat decode_step.
  rewrite (ord_slice 10), (ord_slice 11).
  destruct (buf !! 10%nat) as [b10|] eqn:E10.
  - cbn [mbind result_bind].
    destruct (buf !! 11%nat) as [b11|] eqn:E11.
    + cbn [mbind result_bind]. repeat decode_step.
      split; [eauto|]. apply lookup_lt_Some in E11. lia.
    + split; [|reflexivity]. apply lookup_ge_None in E11. lia.
  - split; [|reflexivity]. apply lookup_ge_None in E10. lia.
Qed.

Lemma general_hdr2_needs_12_bytes_witness :
  (∃ g, decode_general_hdr2 (Examples.general_hdr2 x00) = Ok g)
  ∧ decode_general_hdr2 (repeat x00 11) = Raise TypeError.
Proof.
  split.
  - apply (general_hdr2_needs_12_bytes (Examples.general_hdr2 x00)).
    cbn. lia.
  - apply (general_hdr2_needs_12_bytes (repeat x00 11)). cbn. lia.
Defined.

(** The source line and point numbers of general header #3 are decoded
    exactly: the three-byte integer plus the two-byte binary fraction
    over 65536, with no rounding. *)
Theorem source_numbers_exact (buf : list byte) :
  (13 <= length buf)%nat →
  ∃ g line point,
    decode_general_hdr3 buf = Ok g
    ∧ getitem g "source_line_number" = Ok (VFloat line)
    ∧ getitem g "source_point_number" = Ok (VFloat point)
    ∧ (F2Q line == inject_Z (be_uint (slice 3 6 buf))
                   + inject_Z (be_uint (slice 6 8 buf)) / 65536)%Q
    ∧ (F2Q point == inject_Z (be_uint (slice 8 11 buf))
                    + inject_Z (be_uint (slice 11 13 buf)) / 65536)%Q.
Proof.
  intros Hlen. unfold decode_general_hdr3. repeat decode_step.
  assert (Hfr : ∀ a b, (b - a = 2)%nat → (b <= length buf)%nat →
            decode_fraction (slice a b buf)
            = NFloat (mkF (be_uint (slice a b buf)) (-16))
            ∧ 0 <= be_uint (slice a b buf) < 2 ^ 16).
  { intros a b Hab Hb.
    assert (Hl : length (slice a b buf) = 2%nat) by (rewrite length_slice; lia).
    split.
    - rewrite decode_fraction_short; [now rewrite Hl| |lia].
      intros E. rewrite E in Hl. discriminate.
    - pose proof (be_uint_range (slice a b buf)) as Hr. rewrite Hl in Hr.
      exact Hr. }
  assert (H3 : ∀ a b, (b - a = 3)%nat → 0 <= be_uint (slice a b buf) < 2 ^ 24).
  { intros a b Hab. pose proof (be_uint_range (slice a b buf)) as Hr.
    pose proof (length_slice_le a b buf).
    assert (256 ^ Z.of_nat (length (slice a b buf)) <= 256 ^ 3)
      by (apply Z.pow_le_mono_r; lia).
    lia. }
  destruct (Hfr 6%nat 8%nat) as [-> Hf1]; [lia|lia|].
  destruct (Hfr 11%nat 13%nat) as [-> Hf2]; [lia|lia|].
  rewrite !fadd_int_fraction by (auto; apply H3; lia).
  do 3 eexists. split; [reflexivity|].
  split; [reflexivity|]. split; [reflexivity|].
  split; apply F2Q_fixed_16.
Qed.

Lemma source_numbers_exact_witness :
  ∃ g line,
    decode_general_hdr3 ([x00; x00; x00; x00; x00; x05; x80; x00]
                         ++ repeat x00 24) = Ok g
    ∧ getitem g "source_line_number" = Ok (VFloat line)
    ∧ (F2Q line == 11 # 2)%Q.
Proof.
  destruct (source_numbers_exact ([x00; x00; x00; x00; x00; x05; x80; x00]
                                  ++ repeat x00 24))
    as (g & line & point & Hg & Hl & _ & Hq & _); [cbn; lia|].
  exists g, line. split; [exact Hg|]. split; [exact Hl|].
  rewrite Hq. vm_compute. reflexivity.
Defined.

(** Only the empty-header condition is caught by the scan type loop: a
    block that is not all zero but is cut short by the end of the file
    makes the loop raise [IndexError]. *)
Theorem scan_table_truncated_block (n : nat) (ns : list nat)
    (sch : gmap Z odict) (u hb : list byte) (tl : list (list byte))
    (td : option (list (list Z))) :
  all_zero u = false → (length u < 29)%nat →
  read_sch_table (n :: ns) sch (reading u hb tl td)
  = (Raise IndexError, reading [] (hb ++ u) tl td).
Proof.
  intros Hz Hlen. cbn [read_sch_table].
  unfold mbind at 1, M_bind, try_scan_type. rewrite _read_sch_run.
  rewrite take_ge, drop_ge by lia.
  destruct (decode_sch_by_length u Hz) as [Hshort _].
  rewrite (Hshort Hlen). reflexivity.
Qed.

Lemma scan_table_truncated_block_witness :
  read_sch_table (range 2) ∅ (reading [x01; x02; x03] [] [] None)
  = (Raise IndexError, reading [] [x01; x02; x03] [] None).
Proof.
  apply (scan_table_truncated_block 0 [1%nat] ∅ [x01; x02; x03] [] [] None).
  - reflexivity.
  - cbn. lia.
Defined.

(** Among scan type blocks that carry the same channel set number the
    last one wins: after the loop, the table maps a number to the decode
    of the last non-empty block that carries it, and has no entry for a
    number that no non-empty block carries. *)
Theorem scan_table_last_wins (blocks : list (list byte)) (k : Z)
    (rest hb : list byte) (tl : list (list byte))
    (td : option (list (list Z))) :
  Forall (fun b => length b = 32%nat) blocks →
  ∃ sch p,
    read_sch_table (range (Z.of_nat (length blocks))) ∅
                   (reading (concat blocks ++ rest) hb tl td)
    = (Ok sch, p)
    ∧ match Table.last_block_for k blocks with
      | Some b => ∃ d, decode_sch b = Ok d ∧ sch !! k = Some d
      | None => sch !! k = None
      end.
Proof.
  intros Hb.
  destruct (read_sch_table_last blocks k Hb
              (range (Z.of_nat (length blocks))) ∅ rest hb tl td)
    as (sch & p & Hrun & Hlast).
  { unfold range. now rewrite length_seq, Nat2Z.id. }
  exists sch, p. split; [exact Hrun|].
  destruct (Table.last_block_for k blocks); [exact Hlast|].
  now rewrite Hlast, lookup_empty.
Qed.

Lemma scan_table_last_wins_witness :
  ∃ sch p d,
    read_sch_table (range 2) ∅
      (reading (([x01; x07; x00; x01] ++ repeat x00 28)
                ++ ([x02; x07; x00; x02] ++ repeat x00 28)) [] [] None)
    = (Ok sch, p)
    ∧ sch !! 7 = Some d
    ∧ od_get "scan_type_header" d = Some (VInt 2).
Proof.
  destruct (scan_table_last_wins
              [[x01; x07; x00; x01] ++ repeat x00 28;
               [x02; x07; x00; x02] ++ repeat x00 28] 7 [] [] [] None)
    as (sch & p & Hrun & Hlast).
  - repeat constructor.
  - cbn [Table.last_block_for] in Hlast.
    change (Table.last_block_for 7 _)
      with (Some ([x02; x07; x00; x02] ++ repeat x00 28)) in Hlast.
    destruct Hlast as (d & Hd & Hk).
    exists sch, p, d. split; [rewrite app_nil_r in Hrun; exact Hrun|].
    split; [exact Hk|].
    revert Hd. vm_compute. now intros [= <-].
Defined.

(* ================================================================== *)
(** * The matrix after a failed assembly *)
(* ================================================================== *)

Section LateFailure.

Import Inv.

Variable utc_valid : Z → Z → Z → Z → Z → bool.

(** The assignment loop keeps the shape of the matrix of the object,
    whether it returns or raises. *)
Lemma assign_rows_shape (cols : nat) (st : list trace) :
  ∀ (i : nat) (p p' : parser) (m : list (list Z)) (r : result ()),
    traces_data p = Some m →
    Forall (fun row => length row = cols) m →
    assign_rows cols i st p = (r, p') →
    ∃ m', traces_data p' = Some m'
          ∧ length m' = length m
          ∧ Forall (fun row => length row = cols) m'.
Proof.
  induction st as [|tr st IH]; intros i p p' m r Hp Hm H.
  - injection H as <- <-. eauto.
  - cbn [assign_rows] in H.
    unfold mbind at 1, M_bind, traces_data_setitem in H. rewrite Hp in H.
    destruct (Numpy.setitem_row m cols i (data tr)) as [m1|e1] eqn:E.
    + apply setitem_row_ok in E as (Hi & row & -> & Hrow).
      eapply IH in H as (m' & Hp' & Hl & Hm'); [|reflexivity|].
      * exists m'. rewrite length_insert in Hl. auto.
      * apply Forall_insert; [exact Hm|].
        destruct Hrow as [[Hl ->]|(x & _ & ->)];
          [exact Hl|apply repeat_length].
    + injection H as <- <-. eauto.
Qed.

Lemma closed_not_reading (file u : list byte) (q : parser) :
  reading_suffix file q → byte_stream q = Some (mkStream u true) → False.
Proof. intros (n & Hn) Hq. rewrite Hn in Hq. discriminate. Qed.

(** A failure of [read_segd] that leaves the stream closed, taken
    apart: everything up to [close] returned, and the assignment loop
    raised on the matrix of zeros. *)
Lemma read_segd_late_inv (file u : list byte) (p p' : parser) (e : exn) :
  read_segd utc_valid file p = (Raise e, p') →
  byte_stream p' = Some (mkStream u true) →
  ∃ generalh sch extdh extrh (npts ntr : Z) (p1 p8 : parser)
    (st : list trace),
    read_headers utc_valid
      (reading file (header_block p) (traceh_list p) (traces_data p))
    = (Ok (generalh, sch, extdh, extrh), p1)
    ∧ getitem extdh "number_of_samples_in_trace" ≫= as_int = Ok npts
    ∧ getitem extdh "total_number_of_traces" ≫= as_int = Ok ntr
    ∧ traces_data p8 = Some (Numpy.zeros (Z.to_nat ntr) (Z.to_nat npts))
    ∧ assign_rows (Z.to_nat npts) 0 st p8 = (Raise e, p').
Proof.
  intros H Hclosed. unfold read_segd in H.
  apply M_bind_cases in H as [(e0 & He & _)|([] & p0 & Hopen & H)];
    [discriminate|].
  rewrite open_run in Hopen. injection Hopen as <-.
  assert (H0 : reading_suffix file
                 (reading file (header_block p) (traceh_list p)
                          (traces_data p)))
    by (exists 0%nat; reflexivity).
  apply M_bind_cases in H
    as [(e0 & He & _)|([[[generalh sch] extdh] extrh] & p1 & Hhdr & H)].
  { exfalso. eapply closed_not_reading; [|exact Hclosed].
    eapply (preserves_read_headers utc_valid (reading_suffix file));
      eauto using reading_suffix_read, reading_suffix_block. }
  assert (H1 : reading_suffix file p1).
  { eapply (preserves_read_headers utc_valid (reading_suffix file));
      eauto using reading_suffix_read, reading_suffix_block. }
  apply M_bind_cases in H as [(e0 & He & _)|(sr & p2 & Hsr & H)].
  { injection He as _ <-. exfalso. eapply closed_not_reading; eauto. }
  injection Hsr as _ <-.
  apply M_bind_cases in H as [(e0 & He & _)|(sample_rate & p3 & Hrate & H)].
  { injection He as _ <-. exfalso. eapply closed_not_reading; eauto. }
  injection Hrate as _ <-.
  apply M_bind_cases in H as [(e0 & He & _)|(npts & p4 & Hnpts & H)].
  { injection He as _ <-. exfalso. eapply closed_not_reading; eauto. }
  injection Hnpts as Hnpts <-.
  apply M_bind_cases in H as [(e0 & He & _)|(ntr & p5 & Hntr & H)].
  { injection He as _ <-. exfalso. eapply closed_not_reading; eauto. }
  injection Hntr as Hntr <-.
  apply M_bind_cases in H as [(e0 & He & _)|([st c] & p6 & Hloop & H)].
  { exfalso. eapply closed_not_reading; [|exact Hclosed].
    eapply (preserves_read_traces (reading_suffix file));
      eauto using reading_suffix_read, reading_suffix_append,
                  reading_suffix_extend. }
  apply M_bind_cases in H as [(e0 & He & _)|([] & p7 & Hclose & H)].
  { exfalso. unfold close in He.
    destruct (byte_stream p6) eqn:E6; [discriminate|].
    injection He as _ <-. rewrite E6 in Hclosed. discriminate. }
  apply M_bind_cases in H as [(e0 & He & _)|([] & p8 & Hset & H)];
    [discriminate|].
  injection Hset as <-.
  apply M_bind_cases in H as [(e0 & He & [= <-])|([] & p9 & Hm & H)];
    [|discriminate].
  exists generalh, sch, extdh, extrh, npts, ntr, p1. eexists. exists st.
  split; [exact Hhdr|]. split; [exact Hnpts|]. split; [exact Hntr|].
  split; [|exact He]. reflexivity.
Qed.

End LateFailure.

(** When [read_segd] raises after it has closed the stream (the
    [ValueError] of a row assignment), [traces_data] is no longer what
    it was before the call: it is the matrix created for this record,
    with as many rows as the extended header declares traces and as many
    columns as it declares samples per trace. *)
Theorem traces_data_after_late_failure utc_valid (file u : list byte)
    (p p' : parser) (e : exn) :
  read_segd utc_valid file p = (Raise e, p') →
  byte_stream p' = Some (mkStream u true) →
  let first :=
    Z.to_nat (96 + 32 * digits_value (nibbles (slice 28 29 file))) in
  let ntr := be_uint (slice (first + 8) (first + 12) file) in
  let npts := be_uint (slice (first + 32) (first + 36) file) in
  ∃ m, traces_data p' = Some m
       ∧ length m = Z.to_nat ntr
       ∧ Forall (fun row => length row = Z.to_nat npts) m.
Proof.
  intros H Hclosed first ntr npts.
  destruct (read_segd_late_inv utc_valid file u p p' e H Hclosed)
    as (generalh & sch & extdh & extrh & npts' & ntr' & p1 & p8 & st
        & Hhdr & Hnpts & Hntr & Hzeros & Hrun).
  apply read_headers_ok in Hhdr as (Hext & _ & _).
  fold first in Hext.
  set (start := Z.to_nat _) in Hext.
  pose proof (decode_extended_header_length _ _ Hext) as Hlen.
  apply decode_extended_header_ok in Hext as (Hgt & Hgn).
  assert (Hsl : ∀ a b, (b <= 588)%nat →
            slice a b (slice first start file)
            = slice (first + a) (first + b) file).
  { intros a b Hb. rewrite length_slice in Hlen.
    change (slice first start file)
      with (take (start - first) (drop first file)).
    rewrite slice_take by lia. apply slice_drop. }
  rewrite Hsl in Hgt, Hgn by lia. fold ntr in Hgt. fold npts in Hgn.
  rewrite Hgn in Hnpts. injection Hnpts as <-.
  rewrite Hgt in Hntr. injection Hntr as <-.
  destruct (assign_rows_shape _ _ _ _ _ _ _ Hzeros
              ltac:(unfold Numpy.zeros; apply Forall_forall;
                    intros row Hrow%list_elem_of_In%repeat_spec;
                    subst row; apply repeat_length)
              Hrun) as (m & Hm & Hl & Hrows).
  exists m. split; [exact Hm|]. split; [|exact Hrows].
  rewrite Hl. unfold Numpy.zeros. apply repeat_length.
Qed.

Lemma traces_data_after_late_failure_witness :
  ∃ p m,
    read_segd Examples.utc_valid
      (Examples.record Examples.samples_whole
                       (take 8 Examples.samples_whole)) init
    = (Raise ValueError, p)
    ∧ traces_data p = Some m
    ∧ length m = 2%nat
    ∧ Forall (fun row => length row = 3%nat) m.
Proof.
  destruct (read_segd Examples.utc_valid
              (Examples.record Examples.samples_whole
                               (take 8 Examples.samples_whole))
              init) as [[[st c]|e] p] eqn:E.
  - exfalso. revert E. vm_compute. discriminate.
  - assert (He : e = ValueError)
      by (revert E; vm_compute; now intros [= <- _]).
    assert (Hc : ∃ u, byte_stream p = Some (mkStream u true))
      by (revert E; vm_compute; intros [= _ <-]; eauto).
    destruct Hc as (u & Hu).
    destruct (traces_data_after_late_failure _ _ _ _ _ _ E Hu)
      as (m & Hm & H1 & H2).
    subst e. exists p, m. repeat split; assumption.
Defined.

